(** * mod_websocket: a shallow embedding of the WebSocket core of mod_websocket.c

    The development models, from [src/mod_websocket.c]:
    - the outbound encoder [mod_websocket_plugin_send] and [mod_websocket_plugin_close];
    - the inbound framing loop [mod_websocket_data_framing] (the [switch] with its
      fall-throughs, block by block);
    - the handshake [mod_websocket_handshake], the subprotocol parser
      [mod_websocket_parse_protocol] (with [apr_strtok]) and the request handler
      [mod_websocket_method_handler];
    - the callbacks [mod_websocket_header_get] and [mod_websocket_header_set].

    Bytes are [Z] values in [0, 256); C integers are [Z] with their wrap-around
    written out where it can occur. *)

From Stdlib Require Import String Ascii List ZArith Bool Lia.
Import ListNotations.
Open Scope Z_scope.

(** ** Constants of the source *)

Definition OPCODE_CONTINUATION : Z := 0.
Definition OPCODE_TEXT : Z := 1.
Definition OPCODE_BINARY : Z := 2.
Definition OPCODE_CLOSE : Z := 8.
Definition OPCODE_PING : Z := 9.
Definition OPCODE_PONG : Z := 10.

(** The message types of [websocket_plugin.h]; the code only compares them. *)
Inductive message_type :=
| MESSAGE_TYPE_INVALID
| MESSAGE_TYPE_TEXT
| MESSAGE_TYPE_BINARY
| MESSAGE_TYPE_CLOSE
| MESSAGE_TYPE_PING
| MESSAGE_TYPE_PONG.

Definition message_type_eqb (a b : message_type) : bool :=
  match a, b with
  | MESSAGE_TYPE_INVALID, MESSAGE_TYPE_INVALID
  | MESSAGE_TYPE_TEXT, MESSAGE_TYPE_TEXT
  | MESSAGE_TYPE_BINARY, MESSAGE_TYPE_BINARY
  | MESSAGE_TYPE_CLOSE, MESSAGE_TYPE_CLOSE
  | MESSAGE_TYPE_PING, MESSAGE_TYPE_PING
  | MESSAGE_TYPE_PONG, MESSAGE_TYPE_PONG => true
  | _, _ => false
  end.

(** ** Frame header macros *)

Definition FRAME_GET_FIN (b : Z) : Z := Z.land (Z.shiftr b 7) 1.
Definition FRAME_GET_RSV1 (b : Z) : Z := Z.land (Z.shiftr b 6) 1.
Definition FRAME_GET_RSV2 (b : Z) : Z := Z.land (Z.shiftr b 5) 1.
Definition FRAME_GET_RSV3 (b : Z) : Z := Z.land (Z.shiftr b 4) 1.
Definition FRAME_GET_OPCODE (b : Z) : Z := Z.land b 15.
Definition FRAME_GET_MASK (b : Z) : Z := Z.land (Z.shiftr b 7) 1.
Definition FRAME_GET_PAYLOAD_LEN (b : Z) : Z := Z.land b 127.

Definition FRAME_SET_FIN (b : Z) : Z := Z.shiftl (Z.land b 1) 7.
Definition FRAME_SET_OPCODE (b : Z) : Z := Z.land b 15.
Definition FRAME_SET_MASK (b : Z) : Z := Z.shiftl (Z.land b 1) 7.
(** [(unsigned char)(((X64) >> ((IDX)*8)) & 0xFF)] *)
Definition FRAME_SET_LENGTH (x : Z) (idx : Z) : Z := Z.land (Z.shiftr x (idx * 8)) 255.

(** ** The output side: [mod_websocket_plugin_send] *)

(** The part of [WebSocketState] that [send] reads and writes.  [st_r] and
    [st_obb] say whether the request and the output brigade pointers are
    non-null; [sink] is the sequence of bytes handed to the output filters. *)
Record session := mk_session {
  st_r : bool;
  st_obb : bool;
  closing : Z;
  sink : list Z
}.

(** Results of the two fallible output calls whose status the code tests:
    the [ap_fwrite] of the payload and the [ap_fflush]. *)
Record io_result := mk_io { payload_write_ok : bool; flush_ok : bool }.

(** The frame header built in [header[]]. *)
Definition send_header (opcode payload_length : Z) : list Z :=
  [Z.lor (FRAME_SET_FIN 1) (FRAME_SET_OPCODE opcode)] ++
  (if payload_length <? 126 then
     [Z.lor (FRAME_SET_MASK 0) (FRAME_SET_LENGTH payload_length 0)]
   else
     (if payload_length <? 65536 then
        [Z.lor (FRAME_SET_MASK 0) 126]
      else
        [Z.lor (FRAME_SET_MASK 0) 127;
         FRAME_SET_LENGTH payload_length 7; FRAME_SET_LENGTH payload_length 6;
         FRAME_SET_LENGTH payload_length 5; FRAME_SET_LENGTH payload_length 4;
         FRAME_SET_LENGTH payload_length 3; FRAME_SET_LENGTH payload_length 2]) ++
     [FRAME_SET_LENGTH payload_length 1; FRAME_SET_LENGTH payload_length 0]).

(** The [switch (type)]: the new [closing] flag and the opcode. *)
Definition send_opcode (closing0 : Z) (type : message_type) : Z * Z :=
  match type with
  | MESSAGE_TYPE_TEXT => (closing0, OPCODE_TEXT)
  | MESSAGE_TYPE_BINARY => (closing0, OPCODE_BINARY)
  | MESSAGE_TYPE_PING => (closing0, OPCODE_PING)
  | MESSAGE_TYPE_PONG => (closing0, OPCODE_PONG)
  | _ => (1, OPCODE_CLOSE)
  end.

(** [buffer = None] is a NULL buffer; otherwise [buffer_size] is its length. *)
Definition buffer_length (buffer : option (list Z)) : Z :=
  match buffer with None => 0 | Some b => Z.of_nat (length b) end.

Definition mod_websocket_plugin_send (s : session) (type : message_type)
    (buffer : option (list Z)) (io : io_result) : session * Z :=
  let payload_length := buffer_length buffer in
  if st_r s && st_obb s && (closing s =? 0) then
    let '(closing1, opcode) := send_opcode (closing s) type in
    let header := send_header opcode payload_length in
    let sink1 := sink s ++ header in
    let '(sink2, written) :=
      if payload_length >? 0 then
        (sink1 ++ match buffer with Some b => b | None => [] end,
         if payload_write_ok io then payload_length else 0)
      else (sink1, 0) in
    let written := if flush_ok io then written else 0 in
    (mk_session (st_r s) (st_obb s) closing1 sink2, written)
  else (s, 0).

Definition mod_websocket_plugin_close (s : session) (io : io_result) : session :=
  fst (mod_websocket_plugin_send s MESSAGE_TYPE_CLOSE None io).

(** A sequence of [send] calls on one session (the mutex serialises them). *)
Fixpoint run_sends (s : session) (calls : list (message_type * option (list Z) * io_result))
    : session * list Z :=
  match calls with
  | [] => (s, [])
  | (ty, buf, io) :: rest =>
      let '(s1, w) := mod_websocket_plugin_send s ty buf io in
      let '(s2, ws) := run_sends s1 rest in
      (s2, w :: ws)
  end.


(** ** The input side: [mod_websocket_data_framing] *)

Inductive framing :=
| DATA_FRAMING_MASK
| DATA_FRAMING_START
| DATA_FRAMING_PAYLOAD_LENGTH
| DATA_FRAMING_PAYLOAD_LENGTH_EXT
| DATA_FRAMING_EXTENSION_DATA
| DATA_FRAMING_APPLICATION_DATA
| DATA_FRAMING_CLOSE.

Definition BLOCK_DATA_SIZE : Z := 4096.
Definition payload_limit : Z := 33554432.
(** [extension_bytes_remaining] is a local initialised to 0 and never assigned. *)
Definition extension_bytes_remaining : Z := 0.

(** [WebSocketFrameData]: [application_data] holds the bytes
    [application_data[0 .. application_data_offset)], so the offset is its
    length; a freed (NULL) buffer is the empty list.  [realloc] is modelled as
    succeeding. *)
Record frame_data := mk_frame_data {
  application_data : list Z;
  frame_fin : Z;
  frame_opcode : Z
}.

(** Which of the two [WebSocketFrameData] the pointer [frame] designates. *)
Inductive frame_sel := CONTROL_FRAME | MESSAGE_FRAME.

(** The locals of [mod_websocket_data_framing] that live across blocks. *)
Record fstate := mk_fstate {
  framing_state : framing;
  payload_length : Z;
  payload_length_bytes_remaining : Z;
  mask_index : Z;
  masking : Z;
  mask : list Z;
  mask_offset : Z;
  fin : Z;
  opcode : Z;
  control_frame : frame_data;
  message_frame : frame_data;
  frame : frame_sel
}.

(** What the loop does to the outside: calls of [on_message] and of
    [mod_websocket_plugin_send]. *)
Inductive action :=
| OnMessage (type : message_type) (data : list Z)
| Send (type : message_type) (data : list Z).

Definition set_framing_state (st : fstate) (v : framing) : fstate :=
  {| framing_state := v; payload_length := payload_length st;
     payload_length_bytes_remaining := payload_length_bytes_remaining st;
     mask_index := mask_index st; masking := masking st; mask := mask st;
     mask_offset := mask_offset st; fin := fin st; opcode := opcode st;
     control_frame := control_frame st; message_frame := message_frame st;
     frame := frame st |}.

Definition set_payload_length (st : fstate) (pl rem : Z) : fstate :=
  {| framing_state := framing_state st; payload_length := pl;
     payload_length_bytes_remaining := rem;
     mask_index := mask_index st; masking := masking st; mask := mask st;
     mask_offset := mask_offset st; fin := fin st; opcode := opcode st;
     control_frame := control_frame st; message_frame := message_frame st;
     frame := frame st |}.

Definition set_masking (st : fstate) (m : Z) : fstate :=
  {| framing_state := framing_state st; payload_length := payload_length st;
     payload_length_bytes_remaining := payload_length_bytes_remaining st;
     mask_index := mask_index st; masking := m; mask := mask st;
     mask_offset := mask_offset st; fin := fin st; opcode := opcode st;
     control_frame := control_frame st; message_frame := message_frame st;
     frame := frame st |}.

Definition set_mask (st : fstate) (mi : Z) (mk : list Z) (mo : Z) : fstate :=
  {| framing_state := framing_state st; payload_length := payload_length st;
     payload_length_bytes_remaining := payload_length_bytes_remaining st;
     mask_index := mi; masking := masking st; mask := mk;
     mask_offset := mo; fin := fin st; opcode := opcode st;
     control_frame := control_frame st; message_frame := message_frame st;
     frame := frame st |}.

Definition set_fin_opcode (st : fstate) (f op : Z) : fstate :=
  {| framing_state := framing_state st; payload_length := payload_length st;
     payload_length_bytes_remaining := payload_length_bytes_remaining st;
     mask_index := mask_index st; masking := masking st; mask := mask st;
     mask_offset := mask_offset st; fin := f; opcode := op;
     control_frame := control_frame st; message_frame := message_frame st;
     frame := frame st |}.

Definition set_frames (st : fstate) (cf mf : frame_data) (sel : frame_sel) : fstate :=
  {| framing_state := framing_state st; payload_length := payload_length st;
     payload_length_bytes_remaining := payload_length_bytes_remaining st;
     mask_index := mask_index st; masking := masking st; mask := mask st;
     mask_offset := mask_offset st; fin := fin st; opcode := opcode st;
     control_frame := cf; message_frame := mf; frame := sel |}.

(** [*frame] and an assignment through [frame]. *)
Definition cur_frame (st : fstate) : frame_data :=
  match frame st with
  | CONTROL_FRAME => control_frame st
  | MESSAGE_FRAME => message_frame st
  end.

Definition set_cur_frame (st : fstate) (fd : frame_data) : fstate :=
  match frame st with
  | CONTROL_FRAME => set_frames st fd (message_frame st) CONTROL_FRAME
  | MESSAGE_FRAME => set_frames st (control_frame st) fd MESSAGE_FRAME
  end.

(** [mask[i] = v] on the 4-byte array. *)
Fixpoint set_nth (l : list Z) (i : nat) (v : Z) : list Z :=
  match l, i with
  | [], _ => []
  | _ :: t, O => v :: t
  | h :: t, S i' => h :: set_nth t i' v
  end.

(** Signed 64-bit wrap-around of [apr_int64_t] arithmetic. *)
Definition wrap_int64 (z : Z) : Z := (z + 2 ^ 63) mod 2 ^ 64 - 2 ^ 63.

(** The [while] loop of [DATA_FRAMING_PAYLOAD_LENGTH_EXT]. *)
Fixpoint length_ext_loop (pl rem : Z) (blk : list Z) {struct blk} : Z * Z * list Z :=
  match blk with
  | b :: rest =>
      if rem >? 0 then length_ext_loop (wrap_int64 (pl * 256 + b)) (rem - 1) rest
      else (pl, rem, blk)
  | [] => (pl, rem, [])
  end.

(** The [while] loop of [DATA_FRAMING_MASK]. *)
Fixpoint mask_loop (mi : Z) (mk : list Z) (blk : list Z) {struct blk} : Z * list Z * list Z :=
  match blk with
  | b :: rest =>
      if mi <? 4 then mask_loop (mi + 1) (set_nth mk (Z.to_nat mi) b) rest
      else (mi, mk, blk)
  | [] => (mi, mk, [])
  end.

(** The unmasking [for] loop of [DATA_FRAMING_APPLICATION_DATA]:
    [application_data[offset++] = block[block_offset++] ^ mask[mask_offset++ & 3]]
    for [n] bytes.  Returns the bytes written, the new [mask_offset] and the
    rest of the block. *)
Fixpoint unmask_loop (n : nat) (mk : list Z) (mo : Z) (blk : list Z)
    : list Z * Z * list Z :=
  match n, blk with
  | S n', b :: rest =>
      let '(out, mo', rest') := unmask_loop n' mk (mo + 1) rest in
      (Z.lxor b (nth (Z.to_nat (Z.land mo 3)) mk 0) :: out, mo', rest')
  | _, _ => ([], mo, blk)
  end.

Definition is_close (f : framing) : bool :=
  match f with DATA_FRAMING_CLOSE => true | _ => false end.

(** Each [case_*] function runs one [case] label of the [switch] on the rest
    [blk] of the current block (from [block_offset] on), including the
    fall-through into the next label, and returns the state at the [break],
    the rest of the block and the actions performed. *)

(** [case DATA_FRAMING_APPLICATION_DATA] *)
Definition case_application_data (st : fstate) (blk : list Z)
    : fstate * list Z * list action :=
  let fd := cur_frame st in
  let block_length := Z.of_nat (length blk) in
  let block_data_length :=
    if payload_length st >? block_length then block_length else payload_length st in
  let '(written, mo, rest) :=
    if masking st =? 0 then
      (if block_data_length >? 0 then
         (firstn (Z.to_nat block_data_length) blk, mask_offset st,
          skipn (Z.to_nat block_data_length) blk)
       else ([], mask_offset st, blk))
    else unmask_loop (Z.to_nat block_data_length) (mask st) (mask_offset st) blk in
  let data := application_data fd ++ written in
  let pl := payload_length st - block_data_length in
  let st1 := set_mask (set_payload_length st pl (payload_length_bytes_remaining st))
               (mask_index st) (mask st) mo in
  if pl =? 0 then
    let '(message_type, fs, acts) :=
      if opcode st =? OPCODE_TEXT then (MESSAGE_TYPE_TEXT, framing_state st, [])
      else if opcode st =? OPCODE_BINARY then (MESSAGE_TYPE_BINARY, framing_state st, [])
      else if opcode st =? OPCODE_CLOSE then (MESSAGE_TYPE_INVALID, DATA_FRAMING_CLOSE, [])
      else if opcode st =? OPCODE_PING then
        (MESSAGE_TYPE_INVALID, framing_state st, [Send MESSAGE_TYPE_PONG data])
      else if opcode st =? OPCODE_PONG then (MESSAGE_TYPE_INVALID, framing_state st, [])
      else (MESSAGE_TYPE_INVALID, DATA_FRAMING_CLOSE, []) in
    let acts :=
      acts ++ (if negb (fin st =? 0) && negb (message_type_eqb message_type MESSAGE_TYPE_INVALID)
               then [OnMessage message_type data] else []) in
    let '(fs, data) :=
      if is_close fs then (fs, data)
      else (DATA_FRAMING_START, if fin st =? 0 then data else []) in
    (set_cur_frame (set_framing_state st1 fs) (mk_frame_data data (frame_fin fd) (frame_opcode fd)),
     rest, acts)
  else
    (set_cur_frame st1 (mk_frame_data data (frame_fin fd) (frame_opcode fd)), rest, []).

(** [case DATA_FRAMING_EXTENSION_DATA] (the [realloc] succeeds). *)
Definition case_extension_data (st : fstate) (blk : list Z) : fstate * list Z * list action :=
  let st1 :=
    if extension_bytes_remaining =? 0 then set_framing_state st DATA_FRAMING_APPLICATION_DATA
    else st in
  case_application_data st1 blk.

Definition mask_is_zero (mk : list Z) : bool :=
  (nth 0 mk 0 =? 0) && (nth 1 mk 0 =? 0) && (nth 2 mk 0 =? 0) && (nth 3 mk 0 =? 0).

(** [case DATA_FRAMING_MASK] *)
Definition case_mask (st : fstate) (blk : list Z) : fstate * list Z * list action :=
  let '(mi, mk, rest) := mask_loop (mask_index st) (mask st) blk in
  if mi =? 4 then
    let st1 := set_mask (set_framing_state st DATA_FRAMING_EXTENSION_DATA) 0 mk 0 in
    let st2 := if mask_is_zero mk then set_masking st1 0 else st1 in
    case_extension_data st2 rest
  else (set_mask st mi mk (mask_offset st), rest, []).

(** [case DATA_FRAMING_PAYLOAD_LENGTH_EXT] *)
Definition case_payload_length_ext (st : fstate) (blk : list Z)
    : fstate * list Z * list action :=
  let '(pl, rem, rest) :=
    length_ext_loop (payload_length st) (payload_length_bytes_remaining st) blk in
  let st1 := set_payload_length st pl rem in
  if rem =? 0 then
    if (pl <? 0) || (pl >? payload_limit) then
      (set_framing_state st1 DATA_FRAMING_CLOSE, rest, [])
    else if negb (masking st1 =? 0) then
      let st2 := set_framing_state st1 DATA_FRAMING_MASK in
      match rest with [] => (st2, [], []) | _ :: _ => case_mask st2 rest end
    else (set_framing_state st1 DATA_FRAMING_EXTENSION_DATA, rest, [])
  else
    match rest with [] => (st1, [], []) | _ :: _ => case_mask st1 rest end.

(** [case DATA_FRAMING_PAYLOAD_LENGTH] *)
Definition case_payload_length (st : fstate) (blk : list Z) : fstate * list Z * list action :=
  match blk with
  | [] => (st, [], [])
  | b :: rest =>
      let pl0 := FRAME_GET_PAYLOAD_LEN b in
      let m := FRAME_GET_MASK b in
      let '(pl, rem) :=
        if pl0 =? 126 then (0, 2) else if pl0 =? 127 then (0, 8) else (pl0, 0) in
      let st1 := set_masking (set_payload_length st pl rem) m in
      if (m =? 0) || ((opcode st >=? 8) && (pl >? 125)) then
        (set_framing_state st1 DATA_FRAMING_CLOSE, rest, [])
      else
        let st2 := set_framing_state st1 DATA_FRAMING_PAYLOAD_LENGTH_EXT in
        match rest with [] => (st2, [], []) | _ :: _ => case_payload_length_ext st2 rest end
  end.

(** [case DATA_FRAMING_START] *)
Definition case_start (st : fstate) (blk : list Z) : fstate * list Z * list action :=
  match blk with
  | [] => (st, [], [])
  | b :: rest =>
      if negb (FRAME_GET_RSV1 b =? 0) || negb (FRAME_GET_RSV2 b =? 0)
         || negb (FRAME_GET_RSV3 b =? 0) then
        (set_framing_state st DATA_FRAMING_CLOSE, blk, [])
      else
        let f := FRAME_GET_FIN b in
        let op := FRAME_GET_OPCODE b in
        let st1 := set_framing_state (set_fin_opcode st f op) DATA_FRAMING_PAYLOAD_LENGTH in
        let go (st2 : fstate) :=
          let st3 := set_payload_length st2 0 0 in
          match rest with [] => (st3, [], []) | _ :: _ => case_payload_length st3 rest end in
        let cf := control_frame st1 in
        let mf := message_frame st1 in
        if op >=? 8 then
          if negb (f =? 0) then
            go (set_frames st1 (mk_frame_data (application_data cf) (frame_fin cf) op) mf
                  CONTROL_FRAME)
          else (set_framing_state st1 DATA_FRAMING_CLOSE, rest, [])
        else
          let st1 := set_frames st1 cf mf MESSAGE_FRAME in
          if negb (op =? 0) then
            if negb (frame_fin mf =? 0) then
              go (set_frames st1 cf (mk_frame_data (application_data mf) f op) MESSAGE_FRAME)
            else (set_framing_state st1 DATA_FRAMING_CLOSE, rest, [])
          else if negb (frame_fin mf =? 0) then
            (set_framing_state st1 DATA_FRAMING_CLOSE, rest, [])
          else
            let st1 := set_fin_opcode st1 f (frame_opcode mf) in
            if frame_opcode mf =? 0 then (set_framing_state st1 DATA_FRAMING_CLOSE, rest, [])
            else
              go (set_frames st1 cf
                    (mk_frame_data (application_data mf) f (frame_opcode mf)) MESSAGE_FRAME)
  end.

(** One iteration of [while (block_offset < block_size) switch (framing_state)]. *)
Definition framing_step (st : fstate) (blk : list Z) : fstate * list Z * list action :=
  match framing_state st with
  | DATA_FRAMING_START => case_start st blk
  | DATA_FRAMING_PAYLOAD_LENGTH => case_payload_length st blk
  | DATA_FRAMING_PAYLOAD_LENGTH_EXT => case_payload_length_ext st blk
  | DATA_FRAMING_MASK => case_mask st blk
  | DATA_FRAMING_EXTENSION_DATA => case_extension_data st blk
  | DATA_FRAMING_APPLICATION_DATA => case_application_data st blk
  | DATA_FRAMING_CLOSE => (set_framing_state st DATA_FRAMING_CLOSE, [], [])
  end.

(** The inner [while (block_offset < block_size)] loop.  Every iteration from a
    reachable state consumes a byte or moves to a state of lower rank (see
    [framing_step_progress]), so [5 * length blk + 5] iterations always suffice. *)
Fixpoint block_loop (fuel : nat) (st : fstate) (blk : list Z) : fstate * list action :=
  match fuel with
  | O => (st, [])
  | S fuel' =>
      match blk with
      | [] => (st, [])
      | _ :: _ =>
          let '(st1, blk1, a1) := framing_step st blk in
          let '(st2, a2) := block_loop fuel' st1 blk1 in
          (st2, a1 ++ a2)
      end
  end.

Definition process_block (st : fstate) (blk : list Z) : fstate * list action :=
  block_loop (5 * length blk + 5) st blk.

(** The outer loop: [while (framing_state != CLOSE && (block_size = read) > 0)].
    [reads] are the successive results of [mod_websocket_read_block]; an empty
    block or the end of the list is a read returning 0. *)
Fixpoint read_loop (st : fstate) (reads : list (list Z)) : fstate * list action :=
  if is_close (framing_state st) then (st, [])
  else
    match reads with
    | [] => (st, [])
    | [] :: _ => (st, [])
    | blk :: reads' =>
        let '(st1, a1) := process_block st blk in
        let '(st2, a2) := read_loop st1 reads' in
        (st2, a1 ++ a2)
    end.

Definition framing_init : fstate :=
  {| framing_state := DATA_FRAMING_START; payload_length := 0;
     payload_length_bytes_remaining := 0; mask_index := 0; masking := 0;
     mask := [0; 0; 0; 0]; mask_offset := 0; fin := 0; opcode := 255;
     control_frame := mk_frame_data [] 1 8; message_frame := mk_frame_data [] 1 0;
     frame := CONTROL_FRAME |}.

(** The whole of [mod_websocket_data_framing]: the loop, then the server-side
    closing handshake [mod_websocket_plugin_send(server, CLOSE, NULL, 0)]. *)
Definition mod_websocket_data_framing (reads : list (list Z)) : list action :=
  let '(_, acts) := read_loop framing_init reads in
  acts ++ [Send MESSAGE_TYPE_CLOSE []].

(** The [on_message] calls among the actions. *)
Fixpoint on_messages (acts : list action) : list (message_type * list Z) :=
  match acts with
  | [] => []
  | OnMessage ty d :: rest => (ty, d) :: on_messages rest
  | Send _ _ :: rest => on_messages rest
  end.



(** ** Client frames (the wire format a client sends) *)

(** How the client writes the payload length: 7-bit, 16-bit or 64-bit form. *)
Inductive len_form := LEN7 | LEN16 | LEN64.

Definition len_form_ok (form : len_form) (L : Z) : bool :=
  match form with
  | LEN7 => (0 <=? L) && (L <? 126)
  | LEN16 => (0 <=? L) && (L <? 65536)
  | LEN64 => (0 <=? L) && (L <? 2 ^ 63)
  end.

(** Big-endian [n]-byte representation of [L]. *)
Fixpoint be_bytes (n : nat) (L : Z) : list Z :=
  match n with
  | O => []
  | S n' => be_bytes n' (L / 256) ++ [L mod 256]
  end.

(** Length byte (with MASK=1) and extended length. *)
Definition client_length_bytes (form : len_form) (L : Z) : list Z :=
  match form with
  | LEN7 => [128 + L]
  | LEN16 => 254 :: be_bytes 2 L
  | LEN64 => 255 :: be_bytes 8 L
  end.

(** Payload byte [i] is sent as [p[i] XOR key[i mod 4]]. *)
Fixpoint mask_from (key : list Z) (i : nat) (p : list Z) : list Z :=
  match p with
  | [] => []
  | x :: t => Z.lxor x (nth (i mod 4) key 0) :: mask_from key (S i) t
  end.

Definition mask_payload (key p : list Z) : list Z := mask_from key 0 p.

(** A masked client frame: FIN, RSV=000, opcode, MASK=1, length, key, masked payload. *)
Definition client_frame (fin op : Z) (form : len_form) (key p : list Z) : list Z :=
  [fin * 128 + op] ++ client_length_bytes form (Z.of_nat (length p)) ++ key ++ mask_payload key p.

(** A frame's choice of length form, mask key and payload. *)
Record frame_spec := mk_frame_spec { fs_form : len_form; fs_key : list Z; fs_payload : list Z }.

Definition client_frame_of (fin op : Z) (f : frame_spec) : list Z :=
  client_frame fin op (fs_form f) (fs_key f) (fs_payload f).

(** The CONTINUATION frames closing a message: FIN=0 except on the last. *)
Fixpoint encode_continuations (fs : list frame_spec) : list Z :=
  match fs with
  | [] => []
  | [f] => client_frame_of 1 OPCODE_CONTINUATION f
  | f :: fs' => client_frame_of 0 OPCODE_CONTINUATION f ++ encode_continuations fs'
  end.

(** A message split into [first :: rest]: [first] carries the opcode. *)
Definition encode_message (op : Z) (first : frame_spec) (rest : list frame_spec) : list Z :=
  match rest with
  | [] => client_frame_of 1 op first
  | _ :: _ => client_frame_of 0 op first ++ encode_continuations rest
  end.

(** Frames that all carry FIN=0: the opening part of a fragmented message. *)
Definition encode_open_fragments (op : Z) (first : frame_spec) (mids : list frame_spec) : list Z :=
  client_frame_of 0 op first ++ concat (map (client_frame_of 0 OPCODE_CONTINUATION) mids).

Definition is_byte (b : Z) : Prop := 0 <= b < 256.

Definition frame_spec_ok (f : frame_spec) : Prop :=
  length (fs_key f) = 4%nat /\ Forall is_byte (fs_key f) /\ Forall is_byte (fs_payload f) /\
  len_form_ok (fs_form f) (Z.of_nat (length (fs_payload f))) = true.

Definition within_limit (f : frame_spec) : Prop :=
  Z.of_nat (length (fs_payload f)) <= payload_limit.

(** [reads] is a way the host may deliver [stream]: non-empty blocks of at most
    [BLOCK_DATA_SIZE] bytes whose concatenation is [stream]. *)
Definition reads_of (stream : list Z) (reads : list (list Z)) : Prop :=
  concat reads = stream /\
  Forall (fun b => b <> [] /\ Z.of_nat (length b) <= BLOCK_DATA_SIZE) reads.

Definition message_type_of_opcode (op : Z) : message_type :=
  if op =? OPCODE_TEXT then MESSAGE_TYPE_TEXT
  else if op =? OPCODE_BINARY then MESSAGE_TYPE_BINARY
  else MESSAGE_TYPE_INVALID.



(** ** Strings, header tables and the APR helpers *)

Definition ascii_tolower (c : ascii) : ascii :=
  let n := nat_of_ascii c in
  if (65 <=? n)%nat && (n <=? 90)%nat then ascii_of_nat (n + 32) else c.

Definition string_tolower (s : string) : string :=
  string_of_list_ascii (map ascii_tolower (list_ascii_of_string s)).

(** [!strcasecmp(a, b)] *)
Definition strcaseeq (a b : string) : bool := String.eqb (string_tolower a) (string_tolower b).

(** An [apr_table_t]: keys compare case-insensitively. *)
Definition table := list (string * string).

(** [apr_table_get]: the value of the first entry with the key. *)
Fixpoint apr_table_get (t : table) (k : string) : option string :=
  match t with
  | [] => None
  | (k', v) :: t' => if strcaseeq k' k then Some v else apr_table_get t' k
  end.

(** [apr_table_setn]: overwrite the first entry with the key, drop the other
    ones, or append a new entry. *)
Fixpoint table_unset (t : table) (k : string) : table :=
  match t with
  | [] => []
  | (k', v) :: t' => if strcaseeq k' k then table_unset t' k else (k', v) :: table_unset t' k
  end.

Fixpoint apr_table_setn (t : table) (k v : string) : table :=
  match t with
  | [] => [(k, v)]
  | (k', v') :: t' =>
      if strcaseeq k' k then (k', v) :: table_unset t' k else (k', v') :: apr_table_setn t' k v
  end.

Definition bytes_of_string (s : string) : list Z :=
  map (fun c => Z.of_nat (nat_of_ascii c)) (list_ascii_of_string s).

Definition string_of_bytes (l : list Z) : string :=
  string_of_list_ascii (map (fun z => ascii_of_nat (Z.to_nat z)) l).

(** *** SHA-1 (FIPS 180-4), the function [apr_sha1_*] computes.  The context
    accumulates the bytes given to [apr_sha1_update]; [apr_sha1_final] hashes them. *)

Definition w32 (z : Z) : Z := z mod 2 ^ 32.
Definition rotl32 (x n : Z) : Z := Z.lor (w32 (Z.shiftl x n)) (Z.shiftr x (32 - n)).

Definition sha1_pad (msg : list Z) : list Z :=
  let len := Z.of_nat (length msg) in
  msg ++ [128] ++ repeat 0 (Z.to_nat ((55 - len) mod 64)) ++ be_bytes 8 (8 * len).

Fixpoint be_words (l : list Z) : list Z :=
  match l with
  | a :: b :: c :: d :: t => (a * 2 ^ 24 + b * 2 ^ 16 + c * 2 ^ 8 + d) :: be_words t
  | _ => []
  end.

(** The message schedule: extend [w] from 16 to 80 words. *)
Fixpoint sha1_schedule (n : nat) (w : list Z) : list Z :=
  match n with
  | O => w
  | S n' =>
      let t := length w in
      let x := Z.lxor (Z.lxor (nth (t - 3) w 0) (nth (t - 8) w 0))
                      (Z.lxor (nth (t - 14) w 0) (nth (t - 16) w 0)) in
      sha1_schedule n' (w ++ [rotl32 x 1])
  end.

Definition sha1_f (t : nat) (b c d : Z) : Z * Z :=
  if (t <? 20)%nat then (Z.lor (Z.land b c) (Z.land (Z.lxor b (2 ^ 32 - 1)) d), 1518500249)
  else if (t <? 40)%nat then (Z.lxor (Z.lxor b c) d, 1859775393)
  else if (t <? 60)%nat then (Z.lor (Z.lor (Z.land b c) (Z.land b d)) (Z.land c d), 2400959708)
  else (Z.lxor (Z.lxor b c) d, 3395469782).

Fixpoint sha1_rounds (t : nat) (ws : list Z) (h : Z * Z * Z * Z * Z) : Z * Z * Z * Z * Z :=
  match ws with
  | [] => h
  | wt :: ws' =>
      let '(a, b, c, d, e) := h in
      let '(f, k) := sha1_f t b c d in
      let temp := w32 (rotl32 a 5 + f + e + k + wt) in
      sha1_rounds (S t) ws' (temp, a, rotl32 b 30, c, d)
  end.

Definition sha1_block (h : Z * Z * Z * Z * Z) (block : list Z) : Z * Z * Z * Z * Z :=
  let ws := sha1_schedule 64 (be_words block) in
  let '(a, b, c, d, e) := sha1_rounds 0 ws h in
  let '(h0, h1, h2, h3, h4) := h in
  (w32 (h0 + a), w32 (h1 + b), w32 (h2 + c), w32 (h3 + d), w32 (h4 + e)).

Fixpoint sha1_blocks (fuel : nat) (h : Z * Z * Z * Z * Z) (l : list Z) : Z * Z * Z * Z * Z :=
  match fuel, l with
  | S fuel', _ :: _ => sha1_blocks fuel' (sha1_block h (firstn 64 l)) (skipn 64 l)
  | _, _ => h
  end.

Definition sha1 (msg : list Z) : list Z :=
  let padded := sha1_pad msg in
  let '(h0, h1, h2, h3, h4) :=
    sha1_blocks (length padded) (1732584193, 4023233417, 2562383102, 271733878, 3285377520)
      padded in
  be_bytes 4 h0 ++ be_bytes 4 h1 ++ be_bytes 4 h2 ++ be_bytes 4 h3 ++ be_bytes 4 h4.

(** *** Base64 (RFC 4648), the encoding of [apr_base64_encode_binary]. *)

Definition b64_alphabet : string :=
  "ABCDEFGHIJKLMNOPQRSTUVWXYZabcdefghijklmnopqrstuvwxyz0123456789+/"%string.

Definition b64_char (n : Z) : ascii :=
  match String.get (Z.to_nat n) b64_alphabet with Some c => c | None => "="%char end.

Fixpoint base64_chars (l : list Z) : list ascii :=
  match l with
  | a :: b :: c :: t =>
      b64_char (a / 4) :: b64_char ((a mod 4) * 16 + b / 16) ::
      b64_char ((b mod 16) * 4 + c / 64) :: b64_char (c mod 64) :: base64_chars t
  | [a; b] =>
      [b64_char (a / 4); b64_char ((a mod 4) * 16 + b / 16); b64_char ((b mod 16) * 4);
       "="%char]
  | [a] => [b64_char (a / 4); b64_char ((a mod 4) * 16); "="%char; "="%char]
  | [] => []
  end.

Definition base64_encode (l : list Z) : string := string_of_list_ascii (base64_chars l).

(** *** [mod_websocket_handshake] *)

Definition WEBSOCKET_GUID : string := "258EAFA5-E914-47DA-95CA-C5AB0DC85B11"%string.
Definition WEBSOCKET_GUID_LEN : nat := 36.

Definition mod_websocket_handshake (headers_out : table) (key : string) : table :=
  let context := bytes_of_string key in
  let context := context ++ firstn WEBSOCKET_GUID_LEN (bytes_of_string WEBSOCKET_GUID) in
  let digest := sha1 context in
  let response := base64_encode digest in
  apr_table_setn headers_out "Sec-WebSocket-Accept"%string response.

(** *** [apr_strtok] and [mod_websocket_parse_protocol] *)

Definition protocol_separators : list ascii := [","%char; " "%char; "009"%char].

Definition is_sep (sep : list ascii) (c : ascii) : bool :=
  existsb (fun d => Ascii.eqb d c) sep.

(** Skip the leading separators ([++str] while [*str] is one). *)
Fixpoint skip_separators (sep : list ascii) (s : list ascii) : list ascii :=
  match s with
  | c :: s' => if is_sep sep c then skip_separators sep s' else s
  | [] => []
  end.

(** Advance [last] over the token characters; a separator that ends the
    token is overwritten with NUL and skipped: the token and what follows. *)
Fixpoint take_token (sep : list ascii) (s : list ascii) : list ascii * list ascii :=
  match s with
  | c :: s' => if is_sep sep c then ([], s') else let '(tok, rest) := take_token sep s' in (c :: tok, rest)
  | [] => ([], [])
  end.

(** [apr_strtok(str, sep, &last)]: [None] is NULL. *)
Definition apr_strtok (sep : list ascii) (s : list ascii) : option (list ascii * list ascii) :=
  match skip_separators sep s with
  | [] => None
  | c :: s' => let '(tok, rest) := take_token sep s' in Some (c :: tok, rest)
  end.

(** [while (protocol != NULL) { APR_ARRAY_PUSH(...) = protocol; protocol = apr_strtok(NULL, ...); }];
    each token consumes at least one character, so [length s + 1] rounds suffice. *)
Fixpoint strtok_loop (fuel : nat) (sep : list ascii) (s : list ascii) : list string :=
  match fuel with
  | O => []
  | S fuel' =>
      match apr_strtok sep s with
      | None => []
      | Some (tok, rest) => string_of_list_ascii tok :: strtok_loop fuel' sep rest
      end
  end.

(** The [protocols] array of the state (NULL when empty is the empty list). *)
Definition mod_websocket_parse_protocol (sec_websocket_protocol : string) : list string :=
  let s := list_ascii_of_string sec_websocket_protocol in
  strtok_loop (S (length s)) protocol_separators s.

Definition mod_websocket_protocol_count (protocols : list string) : nat := length protocols.

Definition mod_websocket_protocol_index (protocols : list string) (index : nat) : option string :=
  if (index <? mod_websocket_protocol_count protocols)%nat then nth_error protocols index else None.

Definition mod_websocket_protocol_set (headers_out : table) (protocol : option string) : table :=
  match protocol with
  | Some p => apr_table_setn headers_out "Sec-WebSocket-Protocol"%string p
  | None => headers_out
  end.

(** ** [mod_websocket_method_handler] *)

Definition M_GET : Z := 0.
Definition OK : Z := 0.
Definition DECLINED : Z := -1.

Record request := mk_request {
  r_handler : string;
  r_method_number : Z;
  r_path_present : bool;
  r_headers_in : table;
  r_headers_out : table
}.

(** The loaded plugin.  [on_connect], when present, is given the offered
    protocols (what [protocol_count]/[protocol_index] return) and yields its
    private pointer (0 is NULL) and the protocol it passes to [protocol_set], if
    any. *)
Record plugin := mk_plugin {
  on_connect : option (list string -> Z * option string);
  on_disconnect_present : bool
}.

(** What the handler does, in order. *)
Inductive event :=
| EvOnConnect (headers_out : table)
| EvInterimResponse (status : Z) (headers_out : table)
| EvDataFraming (plugin_private : Z) (acts : list action)
| EvOnDisconnect (plugin_private : Z)
| EvLingeringClose.

(** The upgraded connection: 101, the framing loop, [on_disconnect], close. *)
Definition upgraded (p : plugin) (headers_out : table) (plugin_private : Z)
    (reads : list (list Z)) : list event :=
  [EvInterimResponse 101 headers_out;
   EvDataFraming plugin_private (mod_websocket_data_framing reads)] ++
  (if on_disconnect_present p then [EvOnDisconnect plugin_private] else []) ++
  [EvLingeringClose].

(** Returns the status, the response headers and the events.  [conf] is the
    per-directory configuration's plugin ([None] when [conf] or [conf->plugin]
    is NULL); [reads] is the input of the connection after the upgrade. *)
Definition mod_websocket_method_handler (r : request) (conf : option plugin)
    (reads : list (list Z)) : Z * table * list event :=
  let hin := r_headers_in r in
  let declined := (DECLINED, r_headers_out r, @nil event) in
  if String.eqb (r_handler r) "websocket-handler" && (r_method_number r =? M_GET)
     && r_path_present r then
    match apr_table_get hin "Upgrade", apr_table_get hin "Connection" with
    | Some upgrade, Some connection =>
        if strcaseeq upgrade "WebSocket" && strcaseeq connection "Upgrade" then
          match apr_table_get hin "Host", apr_table_get hin "Sec-WebSocket-Key",
                apr_table_get hin "Sec-WebSocket-Origin",
                apr_table_get hin "Sec-WebSocket-Version" with
          | Some _, Some sec_websocket_key, Some _, Some sec_websocket_version =>
              if strcaseeq sec_websocket_version "7" then
                match conf with
                | Some p =>
                    let hout := apr_table_setn [] "Upgrade" "websocket" in
                    let hout := apr_table_setn hout "Connection" "Upgrade" in
                    let hout := mod_websocket_handshake hout sec_websocket_key in
                    let protocols :=
                      match apr_table_get hin "Sec-WebSocket-Protocol" with
                      | Some v => mod_websocket_parse_protocol v
                      | None => []
                      end in
                    let hout :=
                      if (0 <? mod_websocket_protocol_count protocols)%nat then
                        mod_websocket_protocol_set hout (mod_websocket_protocol_index protocols 0)
                      else hout in
                    match on_connect p with
                    | None => (OK, hout, upgraded p hout 0 reads)
                    | Some f =>
                        let '(plugin_private, chosen) := f protocols in
                        let hout' := mod_websocket_protocol_set hout chosen in
                        if plugin_private =? 0 then (OK, hout', [EvOnConnect hout])
                        else (OK, hout', EvOnConnect hout :: upgraded p hout' plugin_private reads)
                    end
                | None => declined
                end
              else declined
          | _, _, _, _ => declined
          end
        else declined
    | _, _ => declined
    end
  else declined.

(** ** The callbacks [mod_websocket_header_get] and [mod_websocket_header_set] *)

(** [None] stands for a NULL [server], [state] or [state->r], and for a NULL
    key or value. *)



(** ** Notions for the proofs about the framing loop *)

(** The rank of a [framing_state]: an iteration that consumes no byte of the
    block moves to a state of lower rank. *)
Definition rank (f : framing) : nat :=
  match f with
  | DATA_FRAMING_CLOSE => 0
  | DATA_FRAMING_START => 1
  | DATA_FRAMING_APPLICATION_DATA => 2
  | DATA_FRAMING_EXTENSION_DATA => 3
  | DATA_FRAMING_MASK | DATA_FRAMING_PAYLOAD_LENGTH | DATA_FRAMING_PAYLOAD_LENGTH_EXT => 4
  end.

(** The invariant of the loop's locals: [mask_index] stays below 4 between
    iterations. *)
Definition framing_inv (st : fstate) : Prop := mask_index st < 4.

(** What an iteration entered at rank [k] guarantees: it never grows the rest
    of the block, keeps the invariant, and consumes a byte or lowers the rank. *)
Definition step_ok (k : nat) (st : fstate) (blk : list Z)
    (res : fstate * list Z * list action) : Prop :=
  let '(s, r, _) := res in
  (length r <= length blk)%nat /\ (framing_inv st -> framing_inv s) /\
  (blk <> [] -> framing_inv st ->
   (length r < length blk)%nat \/ (rank (framing_state s) < k)%nat).

(** How a case run on the one-byte block [[x]] relates to the same case run on
    [x :: rest]: the case either stops at the same place, or it consumes [x]
    and the joined run goes on as the next iteration of the loop on [rest]. *)
Definition split_ok (x : Z) (rest : list Z) (one joined : fstate * list Z * list action) : Prop :=
  let '(s, r, a) := one in
  (r = [] \/ r = [x]) /\
  (joined = (s, r ++ rest, a) \/
   (r = [] /\ let '(s', r', a') := framing_step s rest in joined = (s', r', a ++ a'))).

(** The loop between two frames, [mf] being the message frame: [START],
    [mask_index] 0, a 4-byte [mask], and a control frame holding no data. *)
Definition idle (mf : frame_data) (st : fstate) : Prop :=
  framing_state st = DATA_FRAMING_START /\ mask_index st = 0 /\
  length (mask st) = 4%nat /\ application_data (control_frame st) = [] /\
  message_frame st = mf.

(** The state at the first payload byte of a frame of length [L] with mask key
    [key], after the header has been read from [st]. *)
Definition payload_ready (st : fstate) (key : list Z) (L : Z) : fstate :=
  {| framing_state := DATA_FRAMING_APPLICATION_DATA; payload_length := L;
     payload_length_bytes_remaining := 0; mask_index := 0;
     masking := if mask_is_zero key then 0 else 1; mask := key; mask_offset := 0;
     fin := fin st; opcode := opcode st; control_frame := control_frame st;
     message_frame := message_frame st; frame := frame st |}.

(** [case DATA_FRAMING_APPLICATION_DATA] in three parts, for the proofs: the
    count [block_data_length], the copy or unmasking loop, and what follows it
    ([application_data_eq] shows that they compose to [case_application_data]). *)
Definition app_block_data_length (st : fstate) (blk : list Z) : Z :=
  let block_length := Z.of_nat (length blk) in
  if payload_length st >? block_length then block_length else payload_length st.

Definition app_copy (st : fstate) (block_data_length : Z) (blk : list Z) : list Z * Z * list Z :=
  if masking st =? 0 then
    (if block_data_length >? 0 then
       (firstn (Z.to_nat block_data_length) blk, mask_offset st,
        skipn (Z.to_nat block_data_length) blk)
     else ([], mask_offset st, blk))
  else unmask_loop (Z.to_nat block_data_length) (mask st) (mask_offset st) blk.

Definition app_finish (st : fstate) (pl mo : Z) (written rest : list Z)
    : fstate * list Z * list action :=
  let fd := cur_frame st in
  let data := application_data fd ++ written in
  let st1 := set_mask (set_payload_length st pl (payload_length_bytes_remaining st))
               (mask_index st) (mask st) mo in
  if pl =? 0 then
    let '(message_type, fs, acts) :=
      if opcode st =? OPCODE_TEXT then (MESSAGE_TYPE_TEXT, framing_state st, [])
      else if opcode st =? OPCODE_BINARY then (MESSAGE_TYPE_BINARY, framing_state st, [])
      else if opcode st =? OPCODE_CLOSE then (MESSAGE_TYPE_INVALID, DATA_FRAMING_CLOSE, [])
      else if opcode st =? OPCODE_PING then
        (MESSAGE_TYPE_INVALID, framing_state st, [Send MESSAGE_TYPE_PONG data])
      else if opcode st =? OPCODE_PONG then (MESSAGE_TYPE_INVALID, framing_state st, [])
      else (MESSAGE_TYPE_INVALID, DATA_FRAMING_CLOSE, []) in
    let acts :=
      acts ++ (if negb (fin st =? 0) && negb (message_type_eqb message_type MESSAGE_TYPE_INVALID)
               then [OnMessage message_type data] else []) in
    let '(fs, data) :=
      if is_close fs then (fs, data)
      else (DATA_FRAMING_START, if fin st =? 0 then data else []) in
    (set_cur_frame (set_framing_state st1 fs) (mk_frame_data data (frame_fin fd) (frame_opcode fd)),
     rest, acts)
  else
    (set_cur_frame st1 (mk_frame_data data (frame_fin fd) (frame_opcode fd)), rest, []).

(** ** The handler's conditions and the protocol list, as the proofs use them *)

(** A client frame as the framing loop expects it: well formed, and a payload
    of at most [payload_limit] bytes (section 4.A of the spec). *)
Definition frame_good (f : frame_spec) : Prop := frame_spec_ok f /\ within_limit f.

(** The payload bytes of a frame as they travel: masked with the frame's key. *)
Definition wire_payload (f : frame_spec) : list Z := mask_payload (fs_key f) (fs_payload f).

(** [!strcasecmp(apr_table_get(t, k), v)], false when the header is absent. *)
Definition header_is (hin : table) (k v : string) : bool :=
  match apr_table_get hin k with Some x => strcaseeq x v | None => false end.

Definition header_present (hin : table) (k : string) : bool :=
  match apr_table_get hin k with Some _ => true | None => false end.

(** The nested conditions of [mod_websocket_method_handler] under which it
    goes on with the upgrade, as one conjunction. *)
Definition handshake_requirements (r : request) (conf : option plugin) : bool :=
  let hin := r_headers_in r in
  String.eqb (r_handler r) "websocket-handler" && (r_method_number r =? M_GET) &&
  r_path_present r && header_is hin "Upgrade" "WebSocket" && header_is hin "Connection" "Upgrade" &&
  header_present hin "Host" && header_present hin "Sec-WebSocket-Key" &&
  header_present hin "Sec-WebSocket-Origin" && header_is hin "Sec-WebSocket-Version" "7" &&
  match conf with Some _ => true | None => false end.

(** The list [on_connect] is offered: the parsed [Sec-WebSocket-Protocol]
    header, empty when the header is absent. *)
Definition offered_protocols (r : request) : list string :=
  match apr_table_get (r_headers_in r) "Sec-WebSocket-Protocol" with
  | Some v => mod_websocket_parse_protocol v
  | None => []
  end.

(** Cutting a string at every separator character, then dropping the empty
    pieces. *)
Fixpoint split_on (sep : list ascii) (s : list ascii) : list (list ascii) :=
  match s with
  | [] => [[]]
  | c :: s' =>
      if is_sep sep c then [] :: split_on sep s'
      else match split_on sep s' with
           | [] => [[c]]
           | t :: ts => (c :: t) :: ts
           end
  end.

Definition nonempty_piece (t : list ascii) : bool := match t with [] => false | _ => true end.

Definition split_names (sep : list ascii) (s : string) : list string :=
  map string_of_list_ascii (filter nonempty_piece (split_on sep (list_ascii_of_string s))).


(** ** The spec's own statements, written out for comparison with the code *)

(** The frame header of the spec (section 4.A): byte 0 is [0x80 | op]; then
    [L], or [126] and 2 big-endian bytes, or [127] and 8 big-endian bytes. *)
Definition spec_frame_header (op L : Z) : list Z :=
  [Z.lor 128 op] ++
  (if L <? 126 then [L]
   else if L <? 65536 then 126 :: be_bytes 2 L
   else 127 :: be_bytes 8 L).
(** Unmasking as the spec states it: [buf[i] = C[i] XOR K[i mod 4]], the index
    [i] counting from 0 in each frame. *)
Definition unmask_spec (key wire : list Z) : list Z :=
  map (fun ic => Z.lxor (snd ic) (nth (fst ic mod 4) key 0)) (combine (seq 0 (length wire)) wire).

(** What the spec says the core delivers for a frame: its wire bytes unmasked. *)
Definition received_payload (f : frame_spec) : list Z := unmask_spec (fs_key f) (wire_payload f).

(** A comma-separated header value, as the spec reads it: cut at the commas
    only, each piece trimmed of spaces and tabs. *)
Fixpoint drop_blanks (s : list ascii) : list ascii :=
  match s with
  | c :: s' => if is_sep [" "%char; "009"%char] c then drop_blanks s' else s
  | [] => []
  end.

Definition trim_blanks (s : list ascii) : list ascii := rev (drop_blanks (rev (drop_blanks s))).

Definition spec_comma_list (s : string) : list string :=
  map (fun t => string_of_list_ascii (trim_blanks t)) (split_on [","%char] (list_ascii_of_string s)).

(** The spec's acceptance condition of the handshake (section 6): GET, [Upgrade]
    equal to [websocket], [Connection] holding the token [Upgrade], [Host],
    [Sec-WebSocket-Key], and [Sec-WebSocket-Version] equal to [7]. *)
Definition spec_handshake_accepts (r : request) : bool :=
  let hin := r_headers_in r in
  (r_method_number r =? M_GET) && header_is hin "Upgrade" "websocket" &&
  match apr_table_get hin "Connection" with
  | Some c => existsb (fun t => strcaseeq t "Upgrade") (spec_comma_list c)
  | None => false
  end &&
  header_present hin "Host" && header_present hin "Sec-WebSocket-Key" &&
  header_is hin "Sec-WebSocket-Version" "7".

(** ** Streams of client units, as the further proofs use them *)

(** What a client may send between two frames of the server: a whole message
    (its first frame and its CONTINUATION frames), a PING or a PONG. *)
Inductive client_unit :=
| UMessage (op : Z) (first : frame_spec) (rest : list frame_spec)
| UPing (f : frame_spec)
| UPong (f : frame_spec).

Definition encode_unit (u : client_unit) : list Z :=
  match u with
  | UMessage op first rest => encode_message op first rest
  | UPing f => client_frame_of 1 OPCODE_PING f
  | UPong f => client_frame_of 1 OPCODE_PONG f
  end.

Definition unit_ok (u : client_unit) : Prop :=
  match u with
  | UMessage op first rest =>
      (op = OPCODE_TEXT \/ op = OPCODE_BINARY) /\ Forall frame_good (first :: rest)
  | UPing f | UPong f => frame_good f
  end.

Definition unit_actions (u : client_unit) : list action :=
  match u with
  | UMessage op first rest =>
      [OnMessage (message_type_of_opcode op) (concat (map received_payload (first :: rest)))]
  | UPing f => [Send MESSAGE_TYPE_PONG (received_payload f)]
  | UPong _ => []
  end.

(** The actions the loop itself may perform: [on_message] with TEXT or BINARY,
    and [send] of a PONG. *)
Definition loop_action_ok (a : action) : Prop :=
  match a with
  | OnMessage ty _ => ty = MESSAGE_TYPE_TEXT \/ ty = MESSAGE_TYPE_BINARY
  | Send ty _ => ty = MESSAGE_TYPE_PONG
  end.


Example send_hi :
  mod_websocket_plugin_send (mk_session true true 0 []) MESSAGE_TYPE_TEXT
    (Some [104; 105]) (mk_io true true)
  = (mk_session true true 0 [129; 2; 104; 105], 2).
Proof. reflexivity. Qed.

Example framing_abc :
  mod_websocket_data_framing [[129; 131; 1; 2; 3; 4; 96; 96; 96]]
  = [OnMessage MESSAGE_TYPE_TEXT [97; 98; 99]; Send MESSAGE_TYPE_CLOSE []].
Proof. reflexivity. Qed.

Example framing_abc_split :
  mod_websocket_data_framing [[129]; [131; 1]; [2; 3; 4; 96]; [96]; [96]]
  = [OnMessage MESSAGE_TYPE_TEXT [97; 98; 99]; Send MESSAGE_TYPE_CLOSE []].
Proof. reflexivity. Qed.

Example framing_fragmented_binary :
  mod_websocket_data_framing
    [encode_message OPCODE_BINARY (mk_frame_spec LEN7 [1; 2; 3; 4] [170; 187])
       [mk_frame_spec LEN16 [9; 0; 0; 7] [204]]]
  = [OnMessage MESSAGE_TYPE_BINARY [170; 187; 204]; Send MESSAGE_TYPE_CLOSE []].
Proof. reflexivity. Qed.

Example framing_ping_inside :
  mod_websocket_data_framing
    [encode_open_fragments OPCODE_TEXT (mk_frame_spec LEN7 [1; 2; 3; 4] [97]) [] ++
     client_frame 1 OPCODE_PING LEN7 [5; 6; 7; 8] [120] ++
     encode_continuations [mk_frame_spec LEN64 [0; 0; 0; 0] [98; 99]]]
  = [Send MESSAGE_TYPE_PONG [120]; OnMessage MESSAGE_TYPE_TEXT [97; 98; 99];
     Send MESSAGE_TYPE_CLOSE []].
Proof. reflexivity. Qed.

(** ** Output side *)

Section Output.

Lemma FRAME_SET_LENGTH_div (x i : Z) :
  0 <= i -> FRAME_SET_LENGTH x i = (x / 2 ^ (i * 8)) mod 256.
Proof.
  intros Hi. unfold FRAME_SET_LENGTH.
  rewrite Z.shiftr_div_pow2 by lia.
  change 255 with (Z.ones 8). rewrite Z.land_ones by lia. reflexivity.
Qed.

Lemma send_header_spec (op L : Z) :
  0 <= op < 16 -> 0 <= L ->
  send_header op L = spec_frame_header op L.
Proof.
  intros Hop HL. unfold send_header, spec_frame_header.
  assert (H0 : Z.lor (FRAME_SET_FIN 1) (FRAME_SET_OPCODE op) = Z.lor 128 op).
  { unfold FRAME_SET_FIN, FRAME_SET_OPCODE. f_equal.
    change 15 with (Z.ones 4). rewrite Z.land_ones by lia. apply Z.mod_small. lia. }
  rewrite H0. f_equal.
  repeat rewrite FRAME_SET_LENGTH_div by lia.
  unfold FRAME_SET_MASK. simpl Z.shiftl.
  destruct (L <? 126) eqn:E1.
  - apply Z.ltb_lt in E1. rewrite Z.lor_0_l. simpl. rewrite Z.div_1_r, Z.mod_small by lia.
    reflexivity.
  - destruct (L <? 65536) eqn:E2; simpl.
    + rewrite Z.div_1_r. reflexivity.
    + repeat rewrite Z.div_div by lia. rewrite Z.div_1_r. reflexivity.
Qed.

Lemma send_when_closing (s : session) ty buf io :
  closing s <> 0 -> mod_websocket_plugin_send s ty buf io = (s, 0).
Proof.
  intros H. unfold mod_websocket_plugin_send.
  destruct (closing s =? 0) eqn:E.
  - apply Z.eqb_eq in E. contradiction.
  - rewrite !andb_false_r. reflexivity.
Qed.

Lemma run_sends_when_closing (s : session) calls :
  closing s <> 0 -> run_sends s calls = (s, repeat 0 (length calls)).
Proof.
  intros H. induction calls as [|[[ty buf] io] calls IH]; simpl.
  - reflexivity.
  - rewrite send_when_closing by exact H. rewrite IH. reflexivity.
Qed.

End Output.

(** ** The framing loop: termination of the inner loop *)

Section Progress.

Lemma unmask_loop_rest (n : nat) (mk : list Z) (mo : Z) (blk : list Z) :
  snd (unmask_loop n mk mo blk) = skipn n blk.
Proof.
  revert mo blk; induction n as [|n IH]; intros mo blk; destruct blk as [|b blk];
    simpl; try reflexivity.
  specialize (IH (mo + 1) blk).
  destruct (unmask_loop n mk (mo + 1) blk) as [[o m] r]. simpl in *. exact IH.
Qed.

Lemma app_written_rest (m d mo : Z) (mk blk : list Z) :
  snd (if m =? 0 then
         (if d >? 0 then (firstn (Z.to_nat d) blk, mo, skipn (Z.to_nat d) blk)
          else ([], mo, blk))
       else unmask_loop (Z.to_nat d) mk mo blk) = skipn (Z.to_nat d) blk.
Proof.
  destruct (m =? 0).
  - destruct (d >? 0) eqn:E; [reflexivity|].
    simpl. replace (Z.to_nat d) with 0%nat by lia. reflexivity.
  - apply unmask_loop_rest.
Qed.

Lemma set_cur_frame_state (st : fstate) (fd : frame_data) :
  framing_state (set_cur_frame st fd) = framing_state st /\
  mask_index (set_cur_frame st fd) = mask_index st.
Proof. unfold set_cur_frame; destruct (frame st); split; reflexivity. Qed.

Lemma skipn_length_lt (n : nat) (l : list Z) :
  (0 < n)%nat -> l <> [] -> (length (skipn n l) < length l)%nat.
Proof. intros Hn Hl. rewrite length_skipn. destruct l; [congruence|]. cbn [length]. lia. Qed.

Lemma step_ok_application_data (st : fstate) (blk : list Z) :
  step_ok 2 st blk (case_application_data st blk).
Proof.
  unfold case_application_data. cbv zeta.
  set (bl := Z.of_nat (length blk)).
  set (bdl := if payload_length st >? bl then bl else payload_length st).
  pose proof (app_written_rest (masking st) bdl (mask_offset st) (mask st) blk) as Hr.
  match goal with
  | |- step_ok _ _ _ (match ?e with (_, _) => _ end) => destruct e as [[w mo] rest] eqn:Ew
  end.
  simpl in Hr. subst rest.
  assert (Hle : (length (skipn (Z.to_nat bdl) blk) <= length blk)%nat)
    by (rewrite length_skipn; lia).
  destruct (payload_length st - bdl =? 0) eqn:E0.
  - match goal with
    | |- step_ok _ _ _ (match ?e with (_, _) => _ end) => destruct e as [[mt fs] acts] eqn:Ea
    end.
    match goal with
    | |- step_ok _ _ _ (match ?e with (_, _) => _ end) => destruct e as [fs' data'] eqn:Ef
    end.
    assert (Hfs : fs' = DATA_FRAMING_CLOSE \/ fs' = DATA_FRAMING_START).
    { destruct (is_close fs) eqn:Ec; injection Ef as <- <-; [|right; reflexivity].
      left. destruct fs; simpl in Ec; try discriminate; reflexivity. }
    destruct (set_cur_frame_state
      (set_framing_state (set_mask (set_payload_length st (payload_length st - bdl)
         (payload_length_bytes_remaining st)) (mask_index st) (mask st) mo) fs')
      (mk_frame_data data' (frame_fin (cur_frame st)) (frame_opcode (cur_frame st))))
      as [H1 H2].
    unfold step_ok, framing_inv. rewrite H1, H2. simpl. split; [exact Hle|split; [auto|]].
    intros _ _. right. destruct Hfs as [-> | ->]; simpl; lia.
  - destruct (set_cur_frame_state
      (set_mask (set_payload_length st (payload_length st - bdl)
         (payload_length_bytes_remaining st)) (mask_index st) (mask st) mo)
      (mk_frame_data (application_data (cur_frame st) ++ w) (frame_fin (cur_frame st))
         (frame_opcode (cur_frame st)))) as [H1 H2].
    unfold step_ok, framing_inv. rewrite H2. simpl. split; [exact Hle|split; [auto|]].
    intros Hne _. left. apply skipn_length_lt; [|exact Hne].
    apply Z.eqb_neq in E0. unfold bdl, bl in *.
    destruct blk as [|b blk']; [congruence|]. simpl length in *.
    destruct (payload_length st >? Z.of_nat (S (length blk'))) eqn:Eg.
    + lia.
    + lia.
Qed.


Lemma step_ok_chain (k k' : nat) (st st' : fstate) (blk rest : list Z)
    (res : fstate * list Z * list action) :
  (length rest <= length blk)%nat ->
  (framing_inv st -> framing_inv st') ->
  (blk <> [] -> framing_inv st ->
   (length rest < length blk)%nat \/ (rest <> [] /\ (k' <= k)%nat)) ->
  step_ok k' st' rest res -> step_ok k st blk res.
Proof.
  destruct res as [[s r] a]. unfold step_ok.
  intros Hle Hinv Hprog [H1 [H2 H3]]. split; [lia|split; [tauto|]].
  intros Hne Hi. destruct (Hprog Hne Hi) as [Hlt | [Hr Hk]].
  - left. lia.
  - destruct (H3 Hr (Hinv Hi)); [left; lia | right; lia].
Qed.

Lemma mask_loop_facts (mi : Z) (mk blk : list Z) :
  let '(mi', mk', r) := mask_loop mi mk blk in
  (length r <= length blk)%nat /\ (mi < 4 -> blk <> [] -> (length r < length blk)%nat) /\
  (mi <= 4 -> mi' <= 4) /\ length mk' = length mk.
Proof.
  revert mi mk; induction blk as [|b blk IH]; intros mi mk; simpl.
  - split; [lia|split; [congruence|split; [lia|reflexivity]]].
  - destruct (mi <? 4) eqn:E.
    + specialize (IH (mi + 1) (set_nth mk (Z.to_nat mi) b)).
      destruct (mask_loop (mi + 1) (set_nth mk (Z.to_nat mi) b) blk) as [[a c] r].
      destruct IH as [H1 [H2 [H3 H4]]].
      assert (Hs : forall l i v, length (set_nth l i v) = length l).
      { induction l as [|h t IHl]; intros [|i] v; simpl; auto. }
      rewrite Hs in H4. apply Z.ltb_lt in E.
      split; [lia|split; [intros; lia|split; [intros; apply H3; lia|exact H4]]].
    + apply Z.ltb_ge in E. simpl. split; [lia|split; [lia|split; [lia|reflexivity]]].
Qed.

Lemma length_ext_loop_facts (pl rem : Z) (blk : list Z) :
  let '(_, _, r) := length_ext_loop pl rem blk in
  (length r <= length blk)%nat /\ (rem > 0 -> blk <> [] -> (length r < length blk)%nat).
Proof.
  revert pl rem; induction blk as [|b blk IH]; intros pl rem; simpl.
  - split; [lia|congruence].
  - destruct (rem >? 0) eqn:E.
    + specialize (IH (wrap_int64 (pl * 256 + b)) (rem - 1)).
      destruct (length_ext_loop (wrap_int64 (pl * 256 + b)) (rem - 1) blk) as [[x y] r].
      destruct IH as [H1 _]. split; intros; simpl; lia.
    + rewrite Z.gtb_ltb in E. apply Z.ltb_ge in E. split; [simpl; lia|intros; lia].
Qed.

Lemma step_ok_extension_data (st : fstate) (blk : list Z) :
  step_ok 3 st blk (case_extension_data st blk).
Proof.
  unfold case_extension_data. simpl.
  apply (step_ok_chain 3 2 st (set_framing_state st DATA_FRAMING_APPLICATION_DATA) blk blk).
  - lia.
  - unfold framing_inv; simpl; auto.
  - intros Hne _. destruct blk; [congruence|]. right. split; [congruence|lia].
  - apply step_ok_application_data.
Qed.

Lemma step_ok_mask (st : fstate) (blk : list Z) :
  step_ok 4 st blk (case_mask st blk).
Proof.
  unfold case_mask. pose proof (mask_loop_facts (mask_index st) (mask st) blk) as F.
  destruct (mask_loop (mask_index st) (mask st) blk) as [[mi mk] rest] eqn:E.
  destruct F as [F1 [F2 [F3 _]]].
  destruct (mi =? 4) eqn:E4.
  - match goal with
    | |- step_ok _ _ _ (case_extension_data ?s _) => apply (step_ok_chain 4 3 st s blk rest)
    end; [exact F1| | |apply step_ok_extension_data].
    + intros _. unfold framing_inv. destruct (mask_is_zero mk); simpl; lia.
    + intros Hne Hi. left. apply F2; [exact Hi|exact Hne].
  - unfold step_ok, framing_inv. simpl. apply Z.eqb_neq in E4.
    split; [exact F1|split; [intros Hi; unfold framing_inv in Hi; lia|]].
    intros Hne Hi. left. apply F2; [exact Hi|exact Hne].
Qed.

Lemma step_ok_payload_length_ext (st : fstate) (blk : list Z) :
  step_ok 4 st blk (case_payload_length_ext st blk).
Proof.
  unfold case_payload_length_ext.
  pose proof (length_ext_loop_facts (payload_length st) (payload_length_bytes_remaining st) blk) as F.
  destruct (length_ext_loop (payload_length st) (payload_length_bytes_remaining st) blk)
    as [[pl rem] rest] eqn:E.
  destruct F as [F1 F2].
  assert (Hst : forall s r, (length r <= length blk)%nat -> mask_index s = mask_index st ->
            (blk <> [] -> (length r < length blk)%nat \/ (rank (framing_state s) < 4)%nat) ->
            step_ok 4 st blk (s, r, [])).
  { intros s r Hr Hm Hp. unfold step_ok, framing_inv. rewrite Hm.
    split; [exact Hr|split; [auto|intros Hne _; auto]]. }
  destruct (rem =? 0) eqn:E0.
  - destruct ((pl <? 0) || (pl >? payload_limit)).
    + apply Hst; [exact F1|reflexivity|intros; right; simpl; lia].
    + destruct (negb (masking (set_payload_length st pl rem) =? 0)).
      * destruct rest as [|y rest'].
        -- apply Hst; [simpl; lia|reflexivity|].
           intros Hne. left. destruct blk; [congruence|simpl; lia].
        -- match goal with
           | |- step_ok _ _ _ (case_mask ?s _) => apply (step_ok_chain 4 4 st s blk (y :: rest'))
           end; [exact F1|unfold framing_inv; simpl; auto| |apply step_ok_mask].
           intros _ _. right. split; [congruence|lia].
      * apply Hst; [exact F1|reflexivity|intros; right; simpl; lia].
  - destruct rest as [|y rest'].
    + apply Hst; [simpl; lia|reflexivity|].
      intros Hne. left. destruct blk; [congruence|simpl; lia].
    + match goal with
           | |- step_ok _ _ _ (case_mask ?s _) => apply (step_ok_chain 4 4 st s blk (y :: rest'))
           end; [exact F1|unfold framing_inv; simpl; auto| |apply step_ok_mask].
      intros _ _. right. split; [congruence|lia].
Qed.

Lemma step_ok_payload_length (st : fstate) (blk : list Z) :
  step_ok 4 st blk (case_payload_length st blk).
Proof.
  unfold case_payload_length. destruct blk as [|b rest].
  - unfold step_ok. simpl. split; [lia|split; [auto|congruence]].
  - cbv zeta.
    match goal with
    | |- step_ok _ _ _ (match ?e with (_, _) => _ end) => destruct e as [pl rem]
    end.
    match goal with
    | |- step_ok _ _ _ (if ?c then _ else _) => destruct c
    end.
    + unfold step_ok, framing_inv. simpl. split; [lia|split; [auto|intros; left; lia]].
    + destruct rest as [|y rest'].
      * unfold step_ok, framing_inv. simpl. split; [lia|split; [auto|intros; left; lia]].
      * match goal with
        | |- step_ok _ _ _ (case_payload_length_ext ?s _) =>
            apply (step_ok_chain 4 4 st s (b :: y :: rest') (y :: rest'))
        end;
          [simpl; lia|unfold framing_inv; simpl; auto| |apply step_ok_payload_length_ext].
        intros _ _. left. simpl; lia.
Qed.

Lemma step_ok_start (st : fstate) (blk : list Z) :
  step_ok 1 st blk (case_start st blk).
Proof.
  unfold case_start. destruct blk as [|b rest].
  - unfold step_ok. simpl. split; [lia|split; [auto|congruence]].
  - cbv zeta beta.
    assert (Hgo : forall s, mask_index s = mask_index st ->
              step_ok 1 st (b :: rest)
                (match rest with
                 | [] => (set_payload_length s 0 0, [], [])
                 | _ :: _ => case_payload_length (set_payload_length s 0 0) rest
                 end)).
    { intros s Hs. destruct rest as [|y rest'].
      - unfold step_ok, framing_inv. simpl. rewrite Hs.
        split; [lia|split; [auto|intros; left; lia]].
      - match goal with
        | |- step_ok _ _ _ (case_payload_length ?s _) =>
            apply (step_ok_chain 1 4 st s (b :: y :: rest') (y :: rest'))
        end;
          [simpl; lia|unfold framing_inv; simpl; rewrite Hs; auto| |apply step_ok_payload_length].
        intros _ _. left. simpl; lia. }
    assert (Hcl : forall s r, mask_index s = mask_index st -> (length r <= S (length rest))%nat ->
              step_ok 1 st (b :: rest) (set_framing_state s DATA_FRAMING_CLOSE, r, [])).
    { intros s r Hs Hr. unfold step_ok, framing_inv. simpl. rewrite Hs.
      split; [exact Hr|split; [auto|intros; right; simpl; lia]]. }
    repeat match goal with
    | |- step_ok _ _ _ (if ?c then _ else _) => destruct c
    end;
    first [apply Hgo; reflexivity | apply Hcl; [reflexivity|simpl; lia]].
Qed.

Lemma step_ok_framing_step (st : fstate) (blk : list Z) :
  step_ok (rank (framing_state st)) st blk (framing_step st blk).
Proof.
  unfold framing_step. destruct (framing_state st) eqn:E; simpl rank.
  - apply step_ok_mask.
  - apply step_ok_start.
  - apply step_ok_payload_length.
  - apply step_ok_payload_length_ext.
  - apply step_ok_extension_data.
  - apply step_ok_application_data.
  - unfold step_ok, framing_inv. simpl.
    split; [lia|split; [auto|intros Hne _; left; destruct blk; [congruence|simpl; lia]]].
Qed.

(** Fuel beyond [5 * length blk + rank] does not change the inner loop. *)
Lemma block_loop_fuel (n m : nat) (st : fstate) (blk : list Z) :
  framing_inv st ->
  (5 * length blk + rank (framing_state st) < n)%nat ->
  (5 * length blk + rank (framing_state st) < m)%nat ->
  block_loop n st blk = block_loop m st blk.
Proof.
  revert m st blk. induction n as [|n IH]; intros m st blk Hi Hn Hm; [lia|].
  destruct m as [|m]; [lia|]. simpl.
  destruct blk as [|x blk']; [reflexivity|].
  pose proof (step_ok_framing_step st (x :: blk')) as P.
  destruct (framing_step st (x :: blk')) as [[s r] a].
  destruct P as [P1 [P2 P3]].
  assert (Hrk : forall f, (rank f <= 4)%nat) by (destruct f; simpl; lia).
  assert (Hmu : (5 * length r + rank (framing_state s) < 5 * length (x :: blk') + rank (framing_state st))%nat).
  { destruct (P3 ltac:(congruence) Hi) as [Hlt | Hlt];
      [pose proof (Hrk (framing_state s)); lia | lia]. }
  rewrite (IH m s r (P2 Hi)) by lia. reflexivity.
Qed.

Lemma block_loop_inv (n : nat) (st : fstate) (blk : list Z) :
  framing_inv st -> framing_inv (fst (block_loop n st blk)).
Proof.
  revert st blk. induction n as [|n IH]; intros st blk Hi; simpl; [exact Hi|].
  destruct blk as [|x blk']; [exact Hi|].
  pose proof (step_ok_framing_step st (x :: blk')) as P.
  destruct (framing_step st (x :: blk')) as [[s r] a]. destruct P as [_ [P2 _]].
  specialize (IH s r (P2 Hi)). destruct (block_loop n s r). exact IH.
Qed.


Lemma process_block_nil (st : fstate) : process_block st [] = (st, []).
Proof. reflexivity. Qed.

Lemma process_block_inv (st : fstate) (blk : list Z) :
  framing_inv st -> framing_inv (fst (process_block st blk)).
Proof. apply block_loop_inv. Qed.

(** One iteration, then the loop on the rest of the block. *)
Lemma process_block_step (st : fstate) (blk : list Z) :
  framing_inv st -> blk <> [] ->
  process_block st blk =
  (let '(s, r, a) := framing_step st blk in
   let '(s2, a2) := process_block s r in (s2, a ++ a2)).
Proof.
  intros Hi Hne. unfold process_block at 1.
  destruct blk as [|x blk']; [congruence|].
  replace (5 * length (x :: blk') + 5)%nat with (S (5 * length (x :: blk') + 4)) by lia.
  set (n := (5 * length (x :: blk') + 4)%nat).
  cbn [block_loop].
  pose proof (step_ok_framing_step st (x :: blk')) as P.
  destruct (framing_step st (x :: blk')) as [[s r] a].
  destruct P as [P1 [P2 P3]].
  assert (Hrk : forall f, (rank f <= 4)%nat) by (destruct f; simpl; lia).
  assert (Hmu : (5 * length r + rank (framing_state s) < 5 * length (x :: blk') + rank (framing_state st))%nat).
  { destruct (P3 ltac:(congruence) Hi) as [Hlt | Hlt];
      [pose proof (Hrk (framing_state s)); lia | lia]. }
  unfold process_block.
  rewrite (block_loop_fuel n (5 * length r + 5) s r (P2 Hi));
    [reflexivity| |pose proof (Hrk (framing_state s)); lia].
  pose proof (Hrk (framing_state st)). unfold n. simpl length in *. lia.
Qed.

End Progress.

(** ** The framing loop: cutting the input, and whole frames *)

Section Frames.

(** Boolean comparisons of [Z] in the hypotheses, as propositions. *)
Ltac zbool :=
  repeat match goal with
  | H : (_ >? _) = true |- _ => rewrite Z.gtb_ltb, Z.ltb_lt in H
  | H : (_ >? _) = false |- _ => rewrite Z.gtb_ltb, Z.ltb_ge in H
  | H : (_ <? _) = true |- _ => rewrite Z.ltb_lt in H
  | H : (_ <? _) = false |- _ => rewrite Z.ltb_ge in H
  | H : (_ =? _) = true |- _ => rewrite Z.eqb_eq in H
  | H : (_ =? _) = false |- _ => rewrite Z.eqb_neq in H
  | H : (_ <=? _) = true |- _ => rewrite Z.leb_le in H
  | H : (_ <=? _) = false |- _ => rewrite Z.leb_gt in H
  end.

Lemma application_data_eq (st : fstate) (blk : list Z) :
  case_application_data st blk =
  (let bdl := app_block_data_length st blk in
   let '(w, mo, rest) := app_copy st bdl blk in
   app_finish st (payload_length st - bdl) mo w rest).
Proof. reflexivity. Qed.

Lemma app_finish_rest (st : fstate) (pl mo : Z) (w rest : list Z) :
  app_finish st pl mo w rest = (let '(s, _, a) := app_finish st pl mo w [] in (s, rest, a)).
Proof.
  unfold app_finish. cbv zeta. destruct (pl =? 0); [|reflexivity].
  match goal with |- context [match ?e with (_, _) => _ end] => destruct e as [[mt fs] acts] end.
  match goal with |- context [match ?e with (_, _) => _ end] => destruct e as [fs' d] end.
  reflexivity.
Qed.

Lemma app_finish_shift (st : fstate) (p mo1 pl mo : Z) (w1 w rest : list Z) :
  app_finish
    (set_cur_frame (set_mask (set_payload_length st p (payload_length_bytes_remaining st))
                     (mask_index st) (mask st) mo1)
       (mk_frame_data (application_data (cur_frame st) ++ w1) (frame_fin (cur_frame st))
          (frame_opcode (cur_frame st)))) pl mo w rest
  = app_finish st pl mo (w1 ++ w) rest.
Proof.
  destruct st as [fs p0 rem mi m mk mo0 f op cf mf sel].
  destruct sel; unfold app_finish; simpl; rewrite <- app_assoc; reflexivity.
Qed.

Lemma app_copy_ext (s t : fstate) (bdl : Z) (blk : list Z) :
  masking s = masking t -> mask s = mask t -> mask_offset s = mask_offset t ->
  app_copy s bdl blk = app_copy t bdl blk.
Proof. intros H1 H2 H3. unfold app_copy. rewrite H1, H2, H3. reflexivity. Qed.

Lemma app_copy_zero (st : fstate) (blk : list Z) :
  app_copy st 0 blk = ([], mask_offset st, blk).
Proof. unfold app_copy. destruct (masking st =? 0); reflexivity. Qed.

Lemma app_copy_nonpos (st : fstate) (bdl : Z) (blk : list Z) :
  bdl <= 0 -> app_copy st bdl blk = ([], mask_offset st, blk).
Proof.
  intros H. unfold app_copy. replace (Z.to_nat bdl) with 0%nat by lia.
  destruct (masking st =? 0); [|reflexivity].
  destruct (bdl >? 0) eqn:E; [lia|reflexivity].
Qed.

Lemma app_copy_one (st : fstate) (x : Z) :
  exists w1 mo1, app_copy st 1 [x] = (w1, mo1, []).
Proof.
  unfold app_copy. destruct (masking st =? 0); simpl; eexists; eexists; reflexivity.
Qed.

Lemma app_copy_cons (st s1 : fstate) (bdl x : Z) (R : list Z) :
  1 <= bdl -> masking s1 = masking st -> mask s1 = mask st ->
  mask_offset s1 = snd (fst (app_copy st 1 [x])) ->
  app_copy st bdl (x :: R) =
  (let '(w1, _, _) := app_copy st 1 [x] in
   let '(w, mo2, rest) := app_copy s1 (bdl - 1) R in (w1 ++ w, mo2, rest)).
Proof.
  intros Hb H1 H2 H3. unfold app_copy in *. rewrite H1, H2, H3.
  replace (Z.to_nat bdl) with (S (Z.to_nat (bdl - 1))) by lia.
  destruct (masking st =? 0).
  - simpl. destruct (bdl >? 0) eqn:E; [|lia].
    destruct (bdl - 1 >? 0) eqn:E1.
    + reflexivity.
    + replace (Z.to_nat (bdl - 1)) with 0%nat by lia. reflexivity.
  - simpl. destruct (unmask_loop (Z.to_nat (bdl - 1)) (mask st) (mask_offset st + 1) R)
      as [[w mo2] rest]. reflexivity.
Qed.

Lemma app_finish_nz (st : fstate) (pl mo : Z) (w rest : list Z) :
  pl <> 0 ->
  app_finish st pl mo w rest =
  (set_cur_frame (set_mask (set_payload_length st pl (payload_length_bytes_remaining st))
                   (mask_index st) (mask st) mo)
     (mk_frame_data (application_data (cur_frame st) ++ w) (frame_fin (cur_frame st))
        (frame_opcode (cur_frame st))), rest, []).
Proof. intros H. unfold app_finish. apply Z.eqb_neq in H. rewrite H. reflexivity. Qed.

Lemma split_application_data (st : fstate) (x : Z) (R : list Z) :
  framing_state st = DATA_FRAMING_APPLICATION_DATA -> R <> [] ->
  split_ok x R (case_application_data st [x]) (case_application_data st (x :: R)).
Proof.
  intros Hfs HR.
  assert (HN1 : 1 <= Z.of_nat (length R)) by (destruct R; [congruence|simpl length; lia]).
  rewrite !application_data_eq. cbv zeta.
  set (pl := payload_length st).
  destruct (Z_lt_le_dec 1 pl) as [Hgt|Hle].
  - (* the one-byte run consumes [x] and needs more *)
    assert (E1 : app_block_data_length st [x] = 1).
    { unfold app_block_data_length. fold pl. change (Z.of_nat (length [x])) with 1.
      destruct (pl >? 1) eqn:E; [reflexivity|lia]. }
    rewrite E1. destruct (app_copy_one st x) as [w1 [mo1 Ec1]]. rewrite Ec1.
    rewrite app_finish_nz by lia.
    unfold split_ok. split; [left; reflexivity|right; split; [reflexivity|]].
    set (s1 := set_cur_frame _ _).
    assert (Hs1 : framing_state s1 = DATA_FRAMING_APPLICATION_DATA /\
                  payload_length s1 = pl - 1 /\ masking s1 = masking st /\
                  mask s1 = mask st /\ mask_offset s1 = mo1).
    { unfold s1, set_cur_frame. destruct (frame _); simpl; auto. }
    destruct Hs1 as [Hf1 [Hp1 [Hm1 [Hk1 Ho1]]]].
    unfold framing_step. rewrite Hf1. rewrite application_data_eq. cbv zeta.
    assert (Eb : app_block_data_length st (x :: R) = app_block_data_length s1 R + 1).
    { unfold app_block_data_length. rewrite Hp1. fold pl. simpl length.
      rewrite Nat2Z.inj_succ.
      destruct (pl >? Z.succ (Z.of_nat (length R))) eqn:Ea;
      destruct (pl - 1 >? Z.of_nat (length R)) eqn:Eb; zbool; lia. }
    rewrite Eb.
    rewrite (app_copy_cons st s1 (app_block_data_length s1 R + 1) x R).
    + rewrite Ec1. replace (app_block_data_length s1 R + 1 - 1) with (app_block_data_length s1 R) by lia.
      set (b := app_block_data_length s1 R).
      destruct (app_copy s1 b R) as [[w mo2] rest].
      rewrite Hp1. unfold s1. rewrite app_finish_shift.
      replace (pl - (b + 1)) with (pl - 1 - b) by lia.
      destruct (app_finish st (pl - 1 - b) mo2 (w1 ++ w) rest)
        as [[s' r'] a']. reflexivity.
    + assert (0 <= app_block_data_length s1 R).
      { unfold app_block_data_length. rewrite Hp1.
        destruct (pl - 1 >? Z.of_nat (length R)) eqn:Ea; lia. }
      lia.
    + exact Hm1.
    + exact Hk1.
    + rewrite Ec1. exact Ho1.
  - destruct (Z.eq_dec pl 1) as [H1|H1].
    + (* the last byte of the payload: both runs complete the frame *)
      assert (E1 : app_block_data_length st [x] = 1).
      { unfold app_block_data_length. fold pl. rewrite H1. reflexivity. }
      assert (E2 : app_block_data_length st (x :: R) = 1).
      { unfold app_block_data_length. fold pl. rewrite H1. simpl length.
        destruct (1 >? Z.of_nat (S (length R))) eqn:E; zbool; lia. }
      rewrite E1, E2. destruct (app_copy_one st x) as [w1 [mo1 Ec1]]. rewrite Ec1.
      rewrite (app_copy_cons st (set_mask st (mask_index st) (mask st) mo1) 1 x R);
        [|lia|reflexivity|reflexivity|rewrite Ec1; reflexivity].
      rewrite Ec1. simpl (1 - 1). rewrite app_copy_zero. rewrite app_nil_r.
      change (mask_offset (set_mask st (mask_index st) (mask st) mo1)) with mo1.
      rewrite (app_finish_rest st (pl - 1) mo1 w1 R).
      destruct (app_finish st (pl - 1) mo1 w1 []) as [[s r] a] eqn:Ef.
      assert (Hr : r = []).
      { pose proof (app_finish_rest st (pl - 1) mo1 w1 []) as X.
        rewrite Ef in X. simpl in X. congruence. }
      subst r. unfold split_ok. split; [left; reflexivity|left; reflexivity].
    + (* an empty or negative count: nothing is consumed *)
      assert (E1 : app_block_data_length st [x] = pl).
      { unfold app_block_data_length. fold pl. destruct (pl >? _) eqn:E; zbool; simpl length in *; lia. }
      assert (E2 : app_block_data_length st (x :: R) = pl).
      { unfold app_block_data_length. fold pl. destruct (pl >? _) eqn:E; zbool; simpl length in *; lia. }
      rewrite E1, E2. rewrite !app_copy_nonpos by lia.
      rewrite (app_finish_rest st (pl - pl) (mask_offset st) [] (x :: R)).
      rewrite (app_finish_rest st (pl - pl) (mask_offset st) [] [x]).
      destruct (app_finish st (pl - pl) (mask_offset st) [] []) as [[s r] a].
      unfold split_ok. split; [right; reflexivity|left; reflexivity].
Qed.

Lemma split_B (x : Z) (R : list Z) (s : fstate) (joined : fstate * list Z * list action) :
  framing_step s R = joined -> split_ok x R (s, [], []) joined.
Proof.
  intros H. unfold split_ok. split; [left; reflexivity|right; split; [reflexivity|]].
  rewrite H. destruct joined as [[a b] c]. reflexivity.
Qed.

Lemma split_A (x : Z) (R r : list Z) (s : fstate) (a : list action) :
  r = [] \/ r = [x] -> split_ok x R (s, r, a) (s, r ++ R, a).
Proof. intros H. unfold split_ok. split; [exact H|left; reflexivity]. Qed.

Lemma app_finish_noop (st : fstate) (rest : list Z) :
  payload_length st <> 0 ->
  app_finish st (payload_length st) (mask_offset st) [] rest = (st, rest, []).
Proof.
  intros H. rewrite app_finish_nz by exact H. rewrite app_nil_r.
  destruct st as [fs p0 rem mi m mk mo0 f op cf mf sel].
  destruct sel; destruct cf, mf; reflexivity.
Qed.

Lemma split_application_empty (st : fstate) (x : Z) (R : list Z) :
  framing_state st = DATA_FRAMING_APPLICATION_DATA ->
  split_ok x R (case_application_data st []) (case_application_data st R).
Proof.
  intros Hfs. rewrite !application_data_eq. cbv zeta.
  set (pl := payload_length st).
  destruct (Z_lt_le_dec 0 pl) as [Hgt|Hle].
  - assert (E1 : app_block_data_length st [] = 0).
    { unfold app_block_data_length. fold pl. simpl length.
      change (Z.of_nat 0) with 0. destruct (pl >? 0) eqn:E; zbool; lia. }
    rewrite E1, app_copy_zero, Z.sub_0_r. unfold pl.
    rewrite app_finish_noop by lia.
    apply split_B. rewrite <- application_data_eq.
    unfold framing_step. rewrite Hfs. reflexivity.
  - assert (E1 : app_block_data_length st [] = pl).
    { unfold app_block_data_length. fold pl. destruct (pl >? _) eqn:E; zbool; simpl length in *; lia. }
    assert (E2 : app_block_data_length st R = pl).
    { unfold app_block_data_length. fold pl. destruct (pl >? _) eqn:E; zbool; simpl length in *; lia. }
    rewrite E1, E2. rewrite !app_copy_nonpos by lia.
    rewrite (app_finish_rest st (pl - pl) (mask_offset st) [] R).
    destruct (app_finish st (pl - pl) (mask_offset st) [] []) as [[s r] a] eqn:Ef.
    assert (Hr : r = []).
    { pose proof (app_finish_rest st (pl - pl) (mask_offset st) [] []) as X.
      rewrite Ef in X. simpl in X. congruence. }
    subst r. apply split_A. left; reflexivity.
Qed.

Lemma extension_data_eq (st : fstate) (blk : list Z) :
  case_extension_data st blk =
  case_application_data (set_framing_state st DATA_FRAMING_APPLICATION_DATA) blk.
Proof. reflexivity. Qed.

Lemma split_extension_data (st : fstate) (x : Z) (R : list Z) :
  R <> [] -> split_ok x R (case_extension_data st [x]) (case_extension_data st (x :: R)).
Proof.
  intros HR. rewrite !extension_data_eq. apply split_application_data; [reflexivity|exact HR].
Qed.

Lemma split_mask (st : fstate) (x : Z) (R : list Z) :
  framing_inv st -> R <> [] ->
  framing_state st = DATA_FRAMING_MASK \/
  (framing_state st = DATA_FRAMING_PAYLOAD_LENGTH_EXT /\ payload_length_bytes_remaining st < 0) ->
  split_ok x R (case_mask st [x]) (case_mask st (x :: R)).
Proof.
  intros Hi HR Hfs. unfold framing_inv in Hi.
  destruct R as [|y R']; [congruence|].
  unfold case_mask. cbn [mask_loop].
  replace (mask_index st <? 4) with true by (symmetry; apply Z.ltb_lt; lia).
  cbn [mask_loop].
  destruct (mask_index st + 1 =? 4) eqn:E4.
  - zbool. replace (mask_index st + 1 <? 4) with false by (symmetry; apply Z.ltb_ge; lia).
    replace (mask_index st + 1 =? 4) with true by (symmetry; apply Z.eqb_eq; lia).
    rewrite !extension_data_eq. apply split_application_empty.
    destruct (mask_is_zero _); reflexivity.
  - zbool. destruct (Z_lt_le_dec (mask_index st + 1) 4) as [Hlt|Hge]; [|lia].
    apply split_B.
    destruct Hfs as [Hm | [Hp Hneg]].
    + unfold framing_step. change (framing_state (set_mask st (mask_index st + 1)
        (set_nth (mask st) (Z.to_nat (mask_index st)) x) (mask_offset st))) with (framing_state st).
      rewrite Hm. reflexivity.
    + unfold framing_step. change (framing_state (set_mask st (mask_index st + 1)
        (set_nth (mask st) (Z.to_nat (mask_index st)) x) (mask_offset st))) with (framing_state st).
      rewrite Hp. unfold case_payload_length_ext.
      change (payload_length_bytes_remaining (set_mask st (mask_index st + 1)
        (set_nth (mask st) (Z.to_nat (mask_index st)) x) (mask_offset st)))
        with (payload_length_bytes_remaining st).
      cbn [length_ext_loop].
      replace (payload_length_bytes_remaining st >? 0) with false
        by (symmetry; rewrite Z.gtb_ltb; apply Z.ltb_ge; lia).
      replace (payload_length_bytes_remaining st =? 0) with false
        by (symmetry; apply Z.eqb_neq; lia).
      reflexivity.
Qed.

Lemma split_payload_length_ext (st : fstate) (x : Z) (R : list Z) :
  framing_inv st -> R <> [] -> framing_state st = DATA_FRAMING_PAYLOAD_LENGTH_EXT ->
  split_ok x R (case_payload_length_ext st [x]) (case_payload_length_ext st (x :: R)).
Proof.
  intros Hi HR Hfs. destruct R as [|y R']; [congruence|].
  unfold case_payload_length_ext. cbn [length_ext_loop].
  destruct (payload_length_bytes_remaining st >? 0) eqn:Er.
  - cbn [length_ext_loop]. zbool.
    set (pl1 := wrap_int64 (payload_length st * 256 + x)).
    destruct (payload_length_bytes_remaining st - 1 =? 0) eqn:E0.
    + zbool. replace (payload_length_bytes_remaining st - 1 >? 0) with false
        by (symmetry; rewrite Z.gtb_ltb; apply Z.ltb_ge; lia).
      replace (payload_length_bytes_remaining st - 1 =? 0) with true
        by (symmetry; apply Z.eqb_eq; lia).
      destruct ((pl1 <? 0) || (pl1 >? payload_limit)).
      * apply split_A. left; reflexivity.
      * destruct (negb _).
        -- apply split_B. reflexivity.
        -- apply split_A. left; reflexivity.
    + apply split_B. unfold framing_step.
      change (framing_state (set_payload_length st pl1 (payload_length_bytes_remaining st - 1)))
        with (framing_state st).
      rewrite Hfs. reflexivity.
  - zbool. destruct (payload_length_bytes_remaining st =? 0) eqn:E0.
    + destruct ((payload_length st <? 0) || (payload_length st >? payload_limit)).
      * apply split_A. right; reflexivity.
      * destruct (negb _).
        -- apply split_mask; [exact Hi|congruence|left; reflexivity].
        -- apply split_A. right; reflexivity.
    + zbool. apply split_mask; [exact Hi|congruence|right; split; [exact Hfs|simpl; lia]].
Qed.

Lemma split_payload_length (st : fstate) (x : Z) (R : list Z) :
  R <> [] -> split_ok x R (case_payload_length st [x]) (case_payload_length st (x :: R)).
Proof.
  intros HR. destruct R as [|y R']; [congruence|].
  unfold case_payload_length. cbv zeta.
  match goal with |- context [match ?e with (_, _) => _ end] => destruct e as [pl rem] end.
  match goal with |- split_ok _ _ (if ?c then _ else _) _ => destruct c end.
  - apply split_A. left; reflexivity.
  - apply split_B. reflexivity.
Qed.

Lemma split_start (st : fstate) (x : Z) (R : list Z) :
  R <> [] -> split_ok x R (case_start st [x]) (case_start st (x :: R)).
Proof.
  intros HR. destruct R as [|y R']; [congruence|].
  unfold case_start. cbv beta zeta iota.
  repeat match goal with
  | |- split_ok _ _ (if ?c then _ else _) _ => destruct c
  end;
  first [apply split_A; auto | apply split_B; reflexivity].
Qed.

(** One iteration on [[x]] against one iteration on [x :: R]. *)
Lemma split_framing_step (st : fstate) (x : Z) (R : list Z) :
  framing_inv st -> R <> [] ->
  split_ok x R (framing_step st [x]) (framing_step st (x :: R)).
Proof.
  intros Hi HR. unfold framing_step at 1 2. destruct (framing_state st) eqn:E.
  - apply split_mask; [exact Hi|exact HR|left; exact E].
  - apply split_start; exact HR.
  - apply split_payload_length; exact HR.
  - apply split_payload_length_ext; assumption.
  - apply split_extension_data; exact HR.
  - apply split_application_data; assumption.
  - apply split_B. reflexivity.
Qed.

Lemma process_block_cons_aux (n : nat) :
  forall (st : fstate) (x : Z) (rest : list Z),
  (rank (framing_state st) < n)%nat -> framing_inv st ->
  process_block st (x :: rest) =
  (let '(s1, a1) := process_block st [x] in
   let '(s2, a2) := process_block s1 rest in (s2, a1 ++ a2)).
Proof.
  induction n as [|n IH]; intros st x rest Hn Hi; [lia|].
  destruct rest as [|y rest'].
  - destruct (process_block st [x]) as [s1 a1]. rewrite process_block_nil, app_nil_r. reflexivity.
  - assert (HR : y :: rest' <> []) by congruence.
    rewrite (process_block_step st (x :: y :: rest') Hi ltac:(congruence)).
    rewrite (process_block_step st [x] Hi ltac:(congruence)).
    pose proof (split_framing_step st x (y :: rest') Hi HR) as Hs.
    pose proof (step_ok_framing_step st [x]) as P.
    destruct (framing_step st [x]) as [[s r] a] eqn:E1.
    destruct P as [P1 [P2 P3]].
    unfold split_ok in Hs. destruct Hs as [Hr [HA | [Hr0 HB]]].
    + rewrite HA. destruct Hr as [-> | ->].
      * rewrite process_block_nil. simpl app.
        destruct (process_block s (y :: rest')) as [s2 a2]. rewrite app_nil_r. reflexivity.
      * destruct (P3 ltac:(congruence) Hi) as [Hlt | Hlt]; [simpl in Hlt; lia|].
        simpl app. rewrite (IH s x (y :: rest') ltac:(lia) (P2 Hi)).
        destruct (process_block s [x]) as [s1 a1].
        destruct (process_block s1 (y :: rest')) as [s2 a2].
        rewrite app_assoc. reflexivity.
    + subst r. rewrite process_block_nil.
      rewrite (process_block_step s (y :: rest') (P2 Hi) HR).
      destruct (framing_step s (y :: rest')) as [[s' r'] a'].
      rewrite HB. destruct (process_block s' r') as [s2 a2].
      rewrite app_nil_r, app_assoc. reflexivity.
Qed.

Lemma process_block_cons (st : fstate) (x : Z) (rest : list Z) :
  framing_inv st ->
  process_block st (x :: rest) =
  (let '(s1, a1) := process_block st [x] in
   let '(s2, a2) := process_block s1 rest in (s2, a1 ++ a2)).
Proof.
  apply (process_block_cons_aux 5). destruct (framing_state st); simpl; lia.
Qed.

(** The inner loop does not depend on where the block is cut. *)
Lemma process_block_app (st : fstate) (b1 b2 : list Z) :
  framing_inv st ->
  process_block st (b1 ++ b2) =
  (let '(s1, a1) := process_block st b1 in
   let '(s2, a2) := process_block s1 b2 in (s2, a1 ++ a2)).
Proof.
  revert st; induction b1 as [|x b1 IH]; intros st Hi.
  - rewrite process_block_nil. simpl. destruct (process_block st b2). reflexivity.
  - simpl app. rewrite (process_block_cons st x (b1 ++ b2) Hi).
    rewrite (process_block_cons st x b1 Hi).
    pose proof (process_block_inv st [x] Hi) as Hi1.
    destruct (process_block st [x]) as [s1 a1]. simpl in Hi1.
    rewrite (IH s1 Hi1).
    destruct (process_block s1 b1) as [s2 a2].
    destruct (process_block s2 b2) as [s3 a3].
    rewrite app_assoc. reflexivity.
Qed.

Lemma set_framing_state_same (st : fstate) :
  set_framing_state st (framing_state st) = st.
Proof. destruct st; reflexivity. Qed.

Lemma process_block_close (st : fstate) (blk : list Z) :
  framing_state st = DATA_FRAMING_CLOSE -> process_block st blk = (st, []).
Proof.
  intros Hc. destruct blk as [|x blk']; [reflexivity|].
  unfold process_block. cbn [length]. replace (5 * S (length blk') + 5)%nat with (S (5 * S (length blk') + 4)) by lia.
  cbn [block_loop]. unfold framing_step. rewrite Hc.
  replace (5 * S (length blk') + 4)%nat with (S (5 * S (length blk') + 3)) by lia.
  cbn [block_loop]. rewrite <- Hc, set_framing_state_same. reflexivity.
Qed.

(** Nor does the outer loop depend on how the reads cut the stream. *)
Lemma read_loop_concat (st : fstate) (reads : list (list Z)) :
  framing_inv st -> Forall (fun b => b <> []) reads ->
  read_loop st reads =
  (if is_close (framing_state st) then (st, []) else process_block st (concat reads)).
Proof.
  revert st; induction reads as [|b reads IH]; intros st Hi Hne.
  - simpl. destruct (is_close (framing_state st)); reflexivity.
  - inversion Hne as [|b' reads' Hb Hrest]; subst.
    destruct b as [|y b']; [congruence|].
    cbn [read_loop concat]. destruct (is_close (framing_state st)) eqn:Ec; [reflexivity|].
    rewrite (process_block_app st (y :: b') (concat reads) Hi).
    pose proof (process_block_inv st (y :: b') Hi) as Hi1.
    destruct (process_block st (y :: b')) as [s1 a1]. simpl in Hi1.
    rewrite (IH s1 Hi1 Hrest).
    destruct (is_close (framing_state s1)) eqn:Ec1.
    + rewrite process_block_close; [reflexivity|].
      destruct (framing_state s1); try discriminate; reflexivity.
    + destruct (process_block s1 (concat reads)); reflexivity.
Qed.

Lemma data_framing_concat (reads : list (list Z)) :
  Forall (fun b => b <> []) reads ->
  mod_websocket_data_framing reads =
  snd (process_block framing_init (concat reads)) ++ [Send MESSAGE_TYPE_CLOSE []].
Proof.
  intros Hne. unfold mod_websocket_data_framing.
  rewrite read_loop_concat; [|unfold framing_inv; simpl; lia|exact Hne].
  simpl is_close. cbv iota. destruct (process_block framing_init (concat reads)); reflexivity.
Qed.

Lemma wrap_int64_small (v : Z) : 0 <= v < 2 ^ 63 -> wrap_int64 v = v.
Proof.
  intros H. unfold wrap_int64. rewrite Z.mod_small; [lia|].
  split; [lia|]. change (2 ^ 64) with (2 ^ 63 * 2). lia.
Qed.

Lemma length_ext_loop_be (n : nat) :
  forall (acc k L : Z) (rest : list Z),
  0 <= acc -> 0 <= k -> acc * 256 ^ Z.of_nat n + L mod 256 ^ Z.of_nat n < 2 ^ 63 ->
  length_ext_loop acc (Z.of_nat n + k) (be_bytes n L ++ rest) =
  length_ext_loop (acc * 256 ^ Z.of_nat n + L mod 256 ^ Z.of_nat n) k rest.
Proof.
  induction n as [|n IH]; intros acc k L rest Hacc Hk Hb.
  - simpl. rewrite Z.mul_1_r, Z.mod_1_r, Z.add_0_r. reflexivity.
  - cbn [be_bytes]. rewrite <- app_assoc. simpl ([L mod 256] ++ rest).
    rewrite Nat2Z.inj_succ in *. rewrite Z.pow_succ_r in Hb |- * by lia.
    assert (Hp : 0 < 256 ^ Z.of_nat n) by (apply Z.pow_pos_nonneg; lia).
    assert (Hm : L mod (256 * 256 ^ Z.of_nat n) = L mod 256 + 256 * ((L / 256) mod 256 ^ Z.of_nat n)).
    { rewrite Z.rem_mul_r; lia. }
    rewrite Hm in *.
    pose proof (Z.mod_pos_bound L 256 ltac:(lia)) as B1.
    pose proof (Z.mod_pos_bound (L / 256) (256 ^ Z.of_nat n) Hp) as B2.
    replace (Z.succ (Z.of_nat n) + k) with (Z.of_nat n + (k + 1)) by lia.
    rewrite IH by nia. cbn [length_ext_loop].
    replace (k + 1 >? 0) with true by (symmetry; rewrite Z.gtb_ltb; apply Z.ltb_lt; lia).
    rewrite wrap_int64_small by nia.
    replace (k + 1 - 1) with k by lia. f_equal. ring.
Qed.

Lemma length_ext_loop_done (pl : Z) (rest : list Z) :
  length_ext_loop pl 0 rest = (pl, 0, rest).
Proof. destruct rest; reflexivity. Qed.

Lemma frame_len7 (L : Z) :
  0 <= L < 126 -> FRAME_GET_PAYLOAD_LEN (128 + L) = L /\ FRAME_GET_MASK (128 + L) = 1.
Proof.
  intros H. unfold FRAME_GET_PAYLOAD_LEN, FRAME_GET_MASK. split.
  - change 127 with (Z.ones 7). rewrite Z.land_ones by lia.
    change (2 ^ 7) with 128. rewrite <- Z.add_mod_idemp_l by lia. simpl. apply Z.mod_small; lia.
  - rewrite Z.shiftr_div_pow2 by lia. change (2 ^ 7) with 128.
    replace ((128 + L) / 128) with 1; [reflexivity|].
    apply Z.div_unique with (r := L); lia.
Qed.

Lemma mask_loop_key (m0 m1 m2 m3 k0 k1 k2 k3 : Z) (X : list Z) :
  mask_loop 0 [m0; m1; m2; m3] (k0 :: k1 :: k2 :: k3 :: X) = (4, [k0; k1; k2; k3], X).
Proof. destruct X; reflexivity. Qed.

Lemma payload_length_eq (S : fstate) (b : Z) (rest : list Z) (pl rem : Z) :
  rest <> [] -> FRAME_GET_MASK b = 1 ->
  (if FRAME_GET_PAYLOAD_LEN b =? 126 then (0, 2)
   else if FRAME_GET_PAYLOAD_LEN b =? 127 then (0, 8) else (FRAME_GET_PAYLOAD_LEN b, 0))
  = (pl, rem) -> pl <= 125 ->
  case_payload_length S (b :: rest) =
  case_payload_length_ext
    (set_framing_state (set_masking (set_payload_length S pl rem) 1)
       DATA_FRAMING_PAYLOAD_LENGTH_EXT) rest.
Proof.
  intros Hr Hm Hp Hpl. destruct rest as [|y rest]; [congruence|].
  unfold case_payload_length. cbv zeta. rewrite Hp, Hm.
  replace (pl >? 125) with false by (symmetry; rewrite Z.gtb_ltb; apply Z.ltb_ge; lia).
  rewrite andb_false_r. reflexivity.
Qed.

Lemma payload_length_ext_eq (S : fstate) (blk : list Z) (L : Z) (k0 k1 k2 k3 : Z) (X : list Z) :
  length_ext_loop (payload_length S) (payload_length_bytes_remaining S) blk
  = (L, 0, k0 :: k1 :: k2 :: k3 :: X) ->
  0 <= L <= payload_limit -> masking S <> 0 ->
  case_payload_length_ext S blk =
  case_mask (set_framing_state (set_payload_length S L 0) DATA_FRAMING_MASK)
    (k0 :: k1 :: k2 :: k3 :: X).
Proof.
  intros Hl HL Hm. unfold case_payload_length_ext. rewrite Hl. cbv zeta.
  replace ((L <? 0) || (L >? payload_limit)) with false.
  - change (masking (set_payload_length S L 0)) with (masking S).
    replace (masking S =? 0) with false by (symmetry; apply Z.eqb_neq; exact Hm).
    reflexivity.
  - symmetry. apply orb_false_iff.
    split; [apply Z.ltb_ge; lia|rewrite Z.gtb_ltb; apply Z.ltb_ge; lia].
Qed.

Lemma mask_eq (S : fstate) (k0 k1 k2 k3 : Z) (X : list Z) :
  mask_index S = 0 -> length (mask S) = 4%nat ->
  case_mask S (k0 :: k1 :: k2 :: k3 :: X) =
  case_extension_data
    (if mask_is_zero [k0; k1; k2; k3]
     then set_masking (set_mask (set_framing_state S DATA_FRAMING_EXTENSION_DATA) 0
                         [k0; k1; k2; k3] 0) 0
     else set_mask (set_framing_state S DATA_FRAMING_EXTENSION_DATA) 0 [k0; k1; k2; k3] 0) X.
Proof.
  intros Hmi Hm. unfold case_mask. rewrite Hmi.
  destruct (mask S) as [|m0 [|m1 [|m2 [|m3 [|]]]]]; try discriminate.
  rewrite mask_loop_key. reflexivity.
Qed.

(** A frame header, from the length byte to the first payload byte. *)
Lemma header_to_app (S0 : fstate) (form : len_form) (key p more : list Z) :
  mask_index S0 = 0 -> length (mask S0) = 4%nat -> length key = 4%nat ->
  len_form_ok form (Z.of_nat (length p)) = true -> Z.of_nat (length p) <= payload_limit ->
  case_payload_length S0
    (client_length_bytes form (Z.of_nat (length p)) ++ key ++ mask_payload key p ++ more)
  = case_application_data (payload_ready S0 key (Z.of_nat (length p))) (mask_payload key p ++ more).
Proof.
  intros Hmi Hm Hk Hf Hlim.
  assert (HL : 0 <= Z.of_nat (length p)) by lia.
  set (L := Z.of_nat (length p)) in *.
  set (X := mask_payload key p ++ more).
  destruct key as [|k0 [|k1 [|k2 [|k3 [|]]]]]; try discriminate.
  clearbody X.
  assert (Hfin : forall pl rem blk,
    length_ext_loop pl rem blk = (L, 0, k0 :: k1 :: k2 :: k3 :: X) ->
    case_payload_length_ext
      (set_framing_state (set_masking (set_payload_length S0 pl rem) 1)
         DATA_FRAMING_PAYLOAD_LENGTH_EXT) blk
    = case_application_data (payload_ready S0 [k0; k1; k2; k3] L) X).
  { intros pl rem blk Hl. rewrite payload_length_ext_eq with (L := L) (k0 := k0) (k1 := k1) (k2 := k2) (k3 := k3) (X := X);
      [|exact Hl|lia|simpl; lia].
    rewrite mask_eq by assumption. rewrite extension_data_eq. unfold payload_ready.
    destruct (mask_is_zero [k0; k1; k2; k3]); reflexivity. }
  destruct form; unfold len_form_ok in Hf; apply andb_true_iff in Hf; destruct Hf as [Hf1 Hf2];
    zbool; unfold client_length_bytes; cbn [app].
  - destruct (frame_len7 L ltac:(lia)) as [E1 E2].
    rewrite (payload_length_eq S0 (128 + L) _ L 0); [|congruence|exact E2| |lia].
    + apply Hfin. apply length_ext_loop_done.
    + rewrite E1. replace (L =? 126) with false by (symmetry; apply Z.eqb_neq; lia).
      replace (L =? 127) with false by (symmetry; apply Z.eqb_neq; lia). reflexivity.
  - rewrite (payload_length_eq S0 254 _ 0 2);
      [|destruct (be_bytes 2 L); discriminate|reflexivity|reflexivity|lia].
    apply Hfin. change 2 with (Z.of_nat 2 + 0).
    rewrite length_ext_loop_be; [|lia|lia|simpl; rewrite Z.mod_small; lia].
    rewrite length_ext_loop_done. f_equal. f_equal. simpl. rewrite Z.mod_small; lia.
  - rewrite (payload_length_eq S0 255 _ 0 8);
      [|destruct (be_bytes 8 L); discriminate|reflexivity|reflexivity|lia].
    apply Hfin. change 8 with (Z.of_nat 8 + 0).
    rewrite length_ext_loop_be; [|lia|lia|simpl; rewrite Z.mod_small; lia].
    rewrite length_ext_loop_done. f_equal. f_equal. simpl. rewrite Z.mod_small; lia.
Qed.

Lemma land3_mod (i : nat) : Z.to_nat (Z.land (Z.of_nat i) 3) = (i mod 4)%nat.
Proof.
  change 3 with (Z.ones 2). rewrite Z.land_ones by lia. change (2 ^ 2) with (Z.of_nat 4).
  rewrite <- Nat2Z.inj_mod. apply Nat2Z.id.
Qed.

Lemma unmask_mask_from (key : list Z) (p : list Z) :
  forall (i : nat) (more : list Z),
  unmask_loop (length p) key (Z.of_nat i) (mask_from key i p ++ more)
  = (p, Z.of_nat (i + length p), more).
Proof.
  induction p as [|x p IH]; intros i more.
  - simpl. rewrite Nat.add_0_r. destruct more; reflexivity.
  - cbn [length mask_from app unmask_loop].
    replace (Z.of_nat i + 1) with (Z.of_nat (S i)) by lia.
    rewrite IH. rewrite land3_mod. rewrite Z.lxor_assoc, Z.lxor_nilpotent, Z.lxor_0_r.
    f_equal. f_equal. f_equal. lia.
Qed.

Lemma mask_from_zero (key : list Z) (p : list Z) (i : nat) :
  length key = 4%nat -> mask_is_zero key = true -> mask_from key i p = p.
Proof.
  intros Hk Hz. destruct key as [|k0 [|k1 [|k2 [|k3 [|]]]]]; try discriminate.
  unfold mask_is_zero in Hz. simpl in Hz.
  repeat rewrite andb_true_iff in Hz. destruct Hz as [[[H0 H1] H2] H3]. zbool. subst.
  revert i; induction p as [|x p IH]; intros i; [reflexivity|].
  cbn [mask_from]. rewrite IH. f_equal.
  assert (Hn : forall n : nat, nth n [0; 0; 0; 0] 0 = 0) by (intros [|[|[|[|n]]]]; simpl; try destruct n; reflexivity).
  rewrite Hn. apply Z.lxor_0_r.
Qed.

(** The payload of a frame, read in one piece. *)
Lemma payload_to_finish (S0 : fstate) (key p more : list Z) :
  length key = 4%nat ->
  case_application_data (payload_ready S0 key (Z.of_nat (length p))) (mask_payload key p ++ more)
  = app_finish (payload_ready S0 key (Z.of_nat (length p))) 0
      (if mask_is_zero key then 0 else Z.of_nat (length p)) p more.
Proof.
  intros Hk. rewrite application_data_eq. cbv zeta.
  assert (Hlen : length (mask_payload key p) = length p).
  { unfold mask_payload. generalize 0%nat. induction p; intros i; simpl; auto. }
  assert (Eb : app_block_data_length (payload_ready S0 key (Z.of_nat (length p)))
                 (mask_payload key p ++ more) = Z.of_nat (length p)).
  { unfold app_block_data_length. cbn [payload_length payload_ready].
    rewrite length_app, Hlen.
    destruct (Z.of_nat (length p) >? Z.of_nat (length p + length more)) eqn:E; zbool; lia. }
  rewrite Eb, Z.sub_diag. unfold app_copy. cbn [masking mask mask_offset payload_ready].
  destruct (mask_is_zero key) eqn:Ez; simpl (0 =? 0); simpl (1 =? 0); cbv iota.
  - unfold mask_payload. rewrite mask_from_zero by assumption.
    destruct (Z.of_nat (length p) >? 0) eqn:E.
    + rewrite Nat2Z.id, firstn_app, skipn_app, firstn_all, skipn_all, Nat.sub_diag.
      simpl. rewrite app_nil_r. reflexivity.
    + zbool. destruct p; [reflexivity|simpl in E; lia].
  - rewrite Nat2Z.id. unfold mask_payload.
    pose proof (unmask_mask_from key p 0 more) as U. simpl Z.of_nat in U. rewrite U. reflexivity.
Qed.

Lemma start_first (st : fstate) (d : list Z) (ff fo f op : Z) (rest : list Z) :
  idle (mk_frame_data d ff fo) st -> ff <> 0 -> (f = 0 \/ f = 1) ->
  (op = OPCODE_TEXT \/ op = OPCODE_BINARY) -> rest <> [] ->
  exists S0, case_start st ((f * 128 + op) :: rest) = case_payload_length S0 rest /\
    mask_index S0 = 0 /\ length (mask S0) = 4%nat /\ frame S0 = MESSAGE_FRAME /\
    message_frame S0 = mk_frame_data d f op /\ fin S0 = f /\ opcode S0 = op /\
    control_frame S0 = control_frame st.
Proof.
  intros [Hfs [Hmi [Hm [Hcf Hmf]]]] Hff Hf Hop Hr.
  destruct rest as [|y rest]; [congruence|].
  unfold case_start. unfold OPCODE_TEXT, OPCODE_BINARY in Hop.
  destruct Hf as [-> | ->]; destruct Hop as [-> | ->]; cbn -[case_payload_length];
    rewrite Hmf; cbn -[case_payload_length];
    replace (ff =? 0) with false by (symmetry; apply Z.eqb_neq; exact Hff);
    cbn -[case_payload_length];
    eexists; (split; [reflexivity|]); cbn; rewrite ?Hmi, ?Hm; auto 10.
Qed.

Lemma start_cont (st : fstate) (d : list Z) (fo f : Z) (rest : list Z) :
  idle (mk_frame_data d 0 fo) st -> (f = 0 \/ f = 1) ->
  (fo = OPCODE_TEXT \/ fo = OPCODE_BINARY) -> rest <> [] ->
  exists S0, case_start st ((f * 128 + OPCODE_CONTINUATION) :: rest) = case_payload_length S0 rest /\
    mask_index S0 = 0 /\ length (mask S0) = 4%nat /\ frame S0 = MESSAGE_FRAME /\
    message_frame S0 = mk_frame_data d f fo /\ fin S0 = f /\ opcode S0 = fo /\
    control_frame S0 = control_frame st.
Proof.
  intros [Hfs [Hmi [Hm [Hcf Hmf]]]] Hf Hop Hr.
  destruct rest as [|y rest]; [congruence|].
  unfold case_start. unfold OPCODE_TEXT, OPCODE_BINARY, OPCODE_CONTINUATION in *.
  destruct Hf as [-> | ->]; destruct Hop as [-> | ->]; cbn -[case_payload_length];
    rewrite Hmf; cbn -[case_payload_length];
    eexists; (split; [reflexivity|]); cbn; rewrite ?Hmi, ?Hm; auto 10.
Qed.

Lemma start_ping (st : fstate) (mf : frame_data) (rest : list Z) :
  idle mf st -> rest <> [] ->
  exists S0, case_start st ((1 * 128 + OPCODE_PING) :: rest) = case_payload_length S0 rest /\
    mask_index S0 = 0 /\ length (mask S0) = 4%nat /\ frame S0 = CONTROL_FRAME /\
    message_frame S0 = mf /\ fin S0 = 1 /\ opcode S0 = OPCODE_PING /\
    control_frame S0 = mk_frame_data [] (frame_fin (control_frame st)) OPCODE_PING.
Proof.
  intros [Hfs [Hmi [Hm [Hcf Hmf]]]] Hr.
  destruct rest as [|y rest]; [congruence|].
  unfold case_start. cbn -[case_payload_length].
  eexists; (split; [reflexivity|]); cbn; rewrite ?Hmi, ?Hm, ?Hcf, ?Hmf; auto 10.
Qed.

Lemma finish_data (S0 : fstate) (key : list Z) (L mo : Z) (p more d : list Z) (f op : Z) :
  frame S0 = MESSAGE_FRAME -> message_frame S0 = mk_frame_data d f op -> fin S0 = f ->
  opcode S0 = op -> (f = 0 \/ f = 1) -> (op = OPCODE_TEXT \/ op = OPCODE_BINARY) ->
  length key = 4%nat -> application_data (control_frame S0) = [] ->
  exists S', app_finish (payload_ready S0 key L) 0 mo p more =
    (S', more, if f =? 0 then [] else [OnMessage (message_type_of_opcode op) (d ++ p)]) /\
    idle (mk_frame_data (if f =? 0 then d ++ p else []) f op) S'.
Proof.
  intros Hfr Hmf Hf Hop Hf01 Hop12 Hk Hcf.
  destruct S0 as [fs0 pl0 rem0 mi0 mk0 ms0 mo0 f0 op0 cf0 mf0 sel0]; simpl in *; subst.
  unfold OPCODE_TEXT, OPCODE_BINARY in Hop12.
  destruct Hf01 as [-> | ->]; destruct Hop12 as [-> | ->];
    unfold app_finish; cbn; eexists; (split; [reflexivity|]);
    unfold idle; cbn; auto 10.
Qed.

Lemma finish_ping (S0 : fstate) (key : list Z) (L mo : Z) (p more : list Z) (cff : Z) :
  frame S0 = CONTROL_FRAME -> control_frame S0 = mk_frame_data [] cff OPCODE_PING ->
  fin S0 = 1 -> opcode S0 = OPCODE_PING -> length key = 4%nat ->
  exists S', app_finish (payload_ready S0 key L) 0 mo p more =
    (S', more, [Send MESSAGE_TYPE_PONG p]) /\ idle (message_frame S0) S'.
Proof.
  intros Hfr Hcf Hf Hop Hk.
  destruct S0 as [fs0 pl0 rem0 mi0 mk0 ms0 mo0 f0 op0 cf0 mf0 sel0]; simpl in *; subst.
  unfold app_finish; cbn; eexists; (split; [reflexivity|]).
  unfold idle; cbn; auto 10.
Qed.

Lemma client_frame_cons (f op : Z) (fsp : frame_spec) (more : list Z) :
  client_frame_of f op fsp ++ more =
  (f * 128 + op) :: (client_length_bytes (fs_form fsp) (Z.of_nat (length (fs_payload fsp))) ++
                     fs_key fsp ++ mask_payload (fs_key fsp) (fs_payload fsp) ++ more).
Proof. unfold client_frame_of, client_frame. rewrite <- !app_assoc. reflexivity. Qed.

Lemma client_length_bytes_nonempty (form : len_form) (L : Z) (rest : list Z) :
  client_length_bytes form L ++ rest <> [].
Proof. destruct form; discriminate. Qed.

(** A whole data frame (first or continuation), from the [START] state. *)
Lemma frame_step_data (st : fstate) (d : list Z) (ff fo f op opm : Z) (fsp : frame_spec)
    (more : list Z) :
  idle (mk_frame_data d ff fo) st -> frame_spec_ok fsp -> within_limit fsp -> (f = 0 \/ f = 1) ->
  ((op = OPCODE_TEXT \/ op = OPCODE_BINARY) /\ ff <> 0 /\ opm = op) \/
  (op = OPCODE_CONTINUATION /\ ff = 0 /\ (fo = OPCODE_TEXT \/ fo = OPCODE_BINARY) /\ opm = fo) ->
  exists st', framing_step st (client_frame_of f op fsp ++ more) =
    (st', more, if f =? 0 then [] else
                [OnMessage (message_type_of_opcode opm) (d ++ fs_payload fsp)]) /\
    idle (mk_frame_data (if f =? 0 then d ++ fs_payload fsp else []) f opm) st'.
Proof.
  intros Hidle [Hk [_ [_ Hform]]] Hlim Hf Hop.
  assert (Hst : framing_state st = DATA_FRAMING_START) by apply Hidle.
  assert (Hcf : application_data (control_frame st) = []) by apply Hidle.
  rewrite client_frame_cons. unfold framing_step. rewrite Hst.
  assert (HS : exists S0,
    case_start st ((f * 128 + op) :: (client_length_bytes (fs_form fsp)
       (Z.of_nat (length (fs_payload fsp))) ++ fs_key fsp ++
       mask_payload (fs_key fsp) (fs_payload fsp) ++ more))
    = case_payload_length S0 (client_length_bytes (fs_form fsp)
       (Z.of_nat (length (fs_payload fsp))) ++ fs_key fsp ++
       mask_payload (fs_key fsp) (fs_payload fsp) ++ more) /\
    mask_index S0 = 0 /\ length (mask S0) = 4%nat /\ frame S0 = MESSAGE_FRAME /\
    message_frame S0 = mk_frame_data d f opm /\ fin S0 = f /\ opcode S0 = opm /\
    control_frame S0 = control_frame st).
  { destruct Hop as [[Hop [Hff ->]] | [-> [-> [Hfo ->]]]].
    - apply start_first with (ff := ff) (fo := fo); auto using client_length_bytes_nonempty.
    - apply start_cont; auto using client_length_bytes_nonempty. }
  destruct HS as [S0 [E [Hmi [Hm [Hfr [Hmf [Hfin [Hopc Hcf0]]]]]]]].
  rewrite E, header_to_app by (auto; unfold within_limit in Hlim; lia).
  rewrite payload_to_finish by exact Hk.
  apply finish_data with (op := opm); auto.
  - destruct Hop as [[Hop [_ ->]] | [_ [_ [Hfo ->]]]]; auto.
  - rewrite Hcf0. exact Hcf.
Qed.

(** A whole PING frame, from the [START] state. *)
Lemma frame_step_ping (st : fstate) (mf : frame_data) (fsp : frame_spec) (more : list Z) :
  idle mf st -> frame_spec_ok fsp -> within_limit fsp ->
  exists st', framing_step st (client_frame_of 1 OPCODE_PING fsp ++ more) =
    (st', more, [Send MESSAGE_TYPE_PONG (fs_payload fsp)]) /\ idle mf st'.
Proof.
  intros Hidle [Hk [_ [_ Hform]]] Hlim.
  assert (Hst : framing_state st = DATA_FRAMING_START) by apply Hidle.
  rewrite client_frame_cons. unfold framing_step. rewrite Hst.
  destruct (start_ping st mf _ Hidle (client_length_bytes_nonempty (fs_form fsp)
      (Z.of_nat (length (fs_payload fsp)))
      (fs_key fsp ++ mask_payload (fs_key fsp) (fs_payload fsp) ++ more)))
    as [S0 [E [Hmi [Hm [Hfr [Hmf [Hfin [Hopc Hcf0]]]]]]]].
  rewrite E, header_to_app by (auto; unfold within_limit in Hlim; lia).
  rewrite payload_to_finish by exact Hk.
  rewrite <- Hmf. apply finish_ping with (cff := frame_fin (control_frame st)); auto.
Qed.

Lemma process_block_frame (st st' : fstate) (blk more : list Z) (acts : list action) :
  framing_inv st -> blk <> [] -> framing_step st (blk ++ more) = (st', more, acts) ->
  process_block st (blk ++ more) =
  (let '(s2, a2) := process_block st' more in (s2, acts ++ a2)).
Proof.
  intros Hi Hne E. rewrite process_block_step; [|exact Hi|destruct blk; [congruence|discriminate]].
  rewrite E. reflexivity.
Qed.

Lemma idle_inv (mf : frame_data) (st : fstate) : idle mf st -> framing_inv st.
Proof. intros [_ [Hmi _]]. unfold framing_inv. lia. Qed.

Lemma client_frame_nonempty (f op : Z) (fsp : frame_spec) : client_frame_of f op fsp <> [].
Proof. unfold client_frame_of, client_frame. discriminate. Qed.

Lemma block_continuations (rest : list frame_spec) :
  forall (st : fstate) (d : list Z) (opm : Z) (more : list Z),
  rest <> [] -> Forall frame_good rest -> idle (mk_frame_data d 0 opm) st ->
  (opm = OPCODE_TEXT \/ opm = OPCODE_BINARY) ->
  exists st', process_block st (encode_continuations rest ++ more) =
    (let '(s2, a2) := process_block st' more in
     (s2, OnMessage (message_type_of_opcode opm) (d ++ concat (map fs_payload rest)) :: a2)) /\
    idle (mk_frame_data [] 1 opm) st'.
Proof.
  induction rest as [|f rest IH]; intros st d opm more Hne Hok Hidle Hop; [congruence|].
  inversion Hok as [|f' rest' [Hf Hl] Hrest]; subst.
  destruct rest as [|f2 rest''].
  - destruct (frame_step_data st d 0 opm 1 OPCODE_CONTINUATION opm f more Hidle Hf Hl
      (or_intror eq_refl) (or_intror (conj eq_refl (conj eq_refl (conj Hop eq_refl)))))
      as [st' [E Hid]].
    exists st'. split; [|exact Hid].
    change (encode_continuations [f]) with (client_frame_of 1 OPCODE_CONTINUATION f).
    rewrite (process_block_frame st st' _ more _ (idle_inv _ _ Hidle)
               (client_frame_nonempty _ _ _) E).
    simpl. rewrite app_nil_r. reflexivity.
  - change (encode_continuations (f :: f2 :: rest''))
      with (client_frame_of 0 OPCODE_CONTINUATION f ++ encode_continuations (f2 :: rest'')).
    rewrite <- app_assoc.
    destruct (frame_step_data st d 0 opm 0 OPCODE_CONTINUATION opm f
      (encode_continuations (f2 :: rest'') ++ more) Hidle Hf Hl
      (or_introl eq_refl) (or_intror (conj eq_refl (conj eq_refl (conj Hop eq_refl)))))
      as [st1 [E1 Hid1]].
    simpl (0 =? 0) in E1, Hid1. cbv iota in E1, Hid1.
    destruct (IH st1 (d ++ fs_payload f) opm more ltac:(congruence) Hrest Hid1 Hop)
      as [st' [E2 Hid2]].
    exists st'. split; [|exact Hid2].
    rewrite (process_block_frame st st1 _ _ _ (idle_inv _ _ Hidle)
               (client_frame_nonempty _ _ _) E1).
    rewrite E2. destruct (process_block st' more) as [s2 a2].
    cbn [map concat app]. rewrite !app_assoc. reflexivity.
Qed.

(** A whole message, as the loop sees it. *)
Lemma block_message (op : Z) (first : frame_spec) (rest : list frame_spec) :
  forall (st : fstate) (d : list Z) (ff fo : Z) (more : list Z),
  idle (mk_frame_data d ff fo) st -> ff <> 0 -> (op = OPCODE_TEXT \/ op = OPCODE_BINARY) ->
  Forall frame_good (first :: rest) ->
  exists st', process_block st (encode_message op first rest ++ more) =
    (let '(s2, a2) := process_block st' more in
     (s2, OnMessage (message_type_of_opcode op) (d ++ concat (map fs_payload (first :: rest))) :: a2)) /\
    idle (mk_frame_data [] 1 op) st'.
Proof.
  intros st d ff fo more Hidle Hff Hop Hok.
  inversion Hok as [|f' rest' [Hf Hl] Hrest]; subst.
  destruct rest as [|f2 rest''].
  - destruct (frame_step_data st d ff fo 1 op op first more Hidle Hf Hl
      (or_intror eq_refl) (or_introl (conj Hop (conj Hff eq_refl)))) as [st' [E Hid]].
    exists st'. split; [|exact Hid].
    unfold encode_message.
    rewrite (process_block_frame st st' _ more _ (idle_inv _ _ Hidle)
               (client_frame_nonempty _ _ _) E).
    simpl. rewrite app_nil_r. reflexivity.
  - unfold encode_message. rewrite <- app_assoc.
    destruct (frame_step_data st d ff fo 0 op op first
      (encode_continuations (f2 :: rest'') ++ more) Hidle Hf Hl
      (or_introl eq_refl) (or_introl (conj Hop (conj Hff eq_refl)))) as [st1 [E1 Hid1]].
    simpl (0 =? 0) in E1, Hid1. cbv iota in E1, Hid1.
    destruct (block_continuations (f2 :: rest'') st1 (d ++ fs_payload first) op more
      ltac:(congruence) Hrest Hid1 Hop) as [st' [E2 Hid2]].
    exists st'. split; [|exact Hid2].
    rewrite (process_block_frame st st1 _ _ _ (idle_inv _ _ Hidle)
               (client_frame_nonempty _ _ _) E1).
    rewrite E2. destruct (process_block st' more) as [s2 a2].
    cbn [map concat app]. rewrite !app_assoc. reflexivity.
Qed.

Lemma framing_init_idle : idle (mk_frame_data [] 1 0) framing_init.
Proof. unfold idle. simpl. auto 10. Qed.

Lemma block_open_fragments (op : Z) (first : frame_spec) (mids : list frame_spec) :
  forall (st : fstate) (d : list Z) (ff fo : Z) (more : list Z),
  idle (mk_frame_data d ff fo) st -> ff <> 0 -> (op = OPCODE_TEXT \/ op = OPCODE_BINARY) ->
  Forall frame_good (first :: mids) ->
  exists st', process_block st (encode_open_fragments op first mids ++ more) =
    process_block st' more /\
    idle (mk_frame_data (d ++ concat (map fs_payload (first :: mids))) 0 op) st'.
Proof.
  intros st d ff fo more Hidle Hff Hop Hok.
  inversion Hok as [|f' rest' [Hf Hl] Hrest]; subst.
  unfold encode_open_fragments. rewrite <- app_assoc.
  destruct (frame_step_data st d ff fo 0 op op first
    (concat (map (client_frame_of 0 OPCODE_CONTINUATION) mids) ++ more) Hidle Hf Hl
    (or_introl eq_refl) (or_introl (conj Hop (conj Hff eq_refl)))) as [st1 [E1 Hid1]].
  simpl (0 =? 0) in E1, Hid1. cbv iota in E1, Hid1.
  rewrite (process_block_frame st st1 _ _ _ (idle_inv _ _ Hidle) (client_frame_nonempty _ _ _) E1).
  assert (Hmid : forall ms s e, Forall frame_good ms ->
    idle (mk_frame_data e 0 op) s ->
    exists s', process_block s (concat (map (client_frame_of 0 OPCODE_CONTINUATION) ms) ++ more)
      = process_block s' more /\
      idle (mk_frame_data (e ++ concat (map fs_payload ms)) 0 op) s').
  { induction ms as [|m ms IH]; intros s e Hms Hs.
    - exists s. simpl. rewrite app_nil_r. split; [reflexivity|exact Hs].
    - inversion Hms as [|m' ms' [Hm Hml] Hms']; subst.
      cbn [map concat]. rewrite <- app_assoc.
      destruct (frame_step_data s e 0 op 0 OPCODE_CONTINUATION op m
        (concat (map (client_frame_of 0 OPCODE_CONTINUATION) ms) ++ more) Hs Hm Hml
        (or_introl eq_refl) (or_intror (conj eq_refl (conj eq_refl (conj Hop eq_refl)))))
        as [s1 [Es Hs1]].
      simpl (0 =? 0) in Es, Hs1. cbv iota in Es, Hs1.
      rewrite (process_block_frame s s1 _ _ _ (idle_inv _ _ Hs) (client_frame_nonempty _ _ _) Es).
      destruct (IH s1 (e ++ fs_payload m) Hms' Hs1) as [s' [E' Hs']].
      exists s'. rewrite E'. split.
      + destruct (process_block s' more). reflexivity.
      + rewrite <- app_assoc in Hs'. exact Hs'. }
  destruct (Hmid mids st1 (d ++ fs_payload first) Hrest Hid1) as [st' [E' Hid']].
  exists st'. rewrite E'. split.
  - destruct (process_block st' more). reflexivity.
  - cbn [map concat]. rewrite app_assoc. exact Hid'.
Qed.

Lemma reads_nonempty (s : list Z) (reads : list (list Z)) :
  reads_of s reads -> Forall (fun b => b <> []) reads.
Proof. intros [_ H]. eapply Forall_impl; [|exact H]. intros b [Hb _]. exact Hb. Qed.

Lemma mask_payload_involutive (key p : list Z) :
  mask_payload key (mask_payload key p) = p.
Proof.
  unfold mask_payload. generalize 0%nat.
  induction p as [|x p IH]; intros i; [reflexivity|].
  cbn [mask_from]. rewrite IH, Z.lxor_assoc, Z.lxor_nilpotent, Z.lxor_0_r. reflexivity.
Qed.

Lemma unmask_spec_from (key w : list Z) (i : nat) :
  map (fun ic => Z.lxor (snd ic) (nth (fst ic mod 4) key 0)) (combine (seq i (length w)) w)
  = mask_from key i w.
Proof.
  revert i; induction w as [|x w IH]; intros i; [reflexivity|].
  cbn [length seq combine map fst snd mask_from]. rewrite IH. reflexivity.
Qed.

(** The spec's unmasking gives back the payload the client masked. *)
Lemma received_payload_eq (f : frame_spec) : received_payload f = fs_payload f.
Proof.
  unfold received_payload, unmask_spec, wire_payload.
  rewrite unmask_spec_from. apply mask_payload_involutive.
Qed.

Lemma map_received_payload (fs : list frame_spec) : map received_payload fs = map fs_payload fs.
Proof. apply map_ext. apply received_payload_eq. Qed.

End Frames.

(** ** The handshake: header tables, the handler's checks, [apr_strtok] *)

Section Handshake.

Lemma strcaseeq_refl (s : string) : strcaseeq s s = true.
Proof. unfold strcaseeq. apply String.eqb_refl. Qed.

Lemma apr_table_get_setn (t : table) (k v : string) :
  apr_table_get (apr_table_setn t k v) k = Some v.
Proof.
  induction t as [|[k' v'] t IH]; simpl.
  - rewrite strcaseeq_refl. reflexivity.
  - destruct (strcaseeq k' k) eqn:E; simpl; rewrite E; [reflexivity|exact IH].
Qed.

(** The handler past its checks. *)
Lemma handler_unfold (r : request) (p : plugin) (reads : list (list Z)) :
  handshake_requirements r (Some p) = true ->
  exists hout0,
    mod_websocket_method_handler r (Some p) reads =
    (let protocols := offered_protocols r in
     let hout :=
       if (0 <? mod_websocket_protocol_count protocols)%nat then
         mod_websocket_protocol_set hout0 (mod_websocket_protocol_index protocols 0)
       else hout0 in
     match on_connect p with
     | None => (OK, hout, upgraded p hout 0 reads)
     | Some f =>
         let '(plugin_private, chosen) := f protocols in
         let hout' := mod_websocket_protocol_set hout chosen in
         if plugin_private =? 0 then (OK, hout', [EvOnConnect hout])
         else (OK, hout', EvOnConnect hout :: upgraded p hout' plugin_private reads)
     end).
Proof.
  unfold handshake_requirements, header_is, header_present, offered_protocols.
  intros H. unfold mod_websocket_method_handler.
  destruct (String.eqb (r_handler r) "websocket-handler"), (r_method_number r =? M_GET),
    (r_path_present r); try discriminate H; simpl in *.
  destruct (apr_table_get (r_headers_in r) "Upgrade"); [|discriminate H].
  destruct (apr_table_get (r_headers_in r) "Connection"); [|rewrite andb_false_r in H; discriminate H].
  destruct (strcaseeq s "WebSocket"); [|discriminate H].
  destruct (strcaseeq s0 "Upgrade"); [|discriminate H]. simpl in *.
  destruct (apr_table_get (r_headers_in r) "Host"); [|discriminate H].
  destruct (apr_table_get (r_headers_in r) "Sec-WebSocket-Key"); [|discriminate H].
  destruct (apr_table_get (r_headers_in r) "Sec-WebSocket-Origin"); [|discriminate H].
  destruct (apr_table_get (r_headers_in r) "Sec-WebSocket-Version"); [|discriminate H].
  destruct (strcaseeq s4 "7"); [|discriminate H].
  eexists. reflexivity.
Qed.

Lemma handler_declined (r : request) (conf : option plugin) (reads : list (list Z)) :
  handshake_requirements r conf = false ->
  mod_websocket_method_handler r conf reads = (DECLINED, r_headers_out r, []).
Proof.
  unfold handshake_requirements, header_is, header_present, mod_websocket_method_handler.
  intros H.
  destruct (String.eqb (r_handler r) "websocket-handler"), (r_method_number r =? M_GET),
    (r_path_present r); simpl in *; try reflexivity.
  destruct (apr_table_get (r_headers_in r) "Upgrade"); [|reflexivity].
  destruct (apr_table_get (r_headers_in r) "Connection"); [|reflexivity].
  destruct (strcaseeq s "WebSocket"), (strcaseeq s0 "Upgrade"); simpl in *; try reflexivity.
  destruct (apr_table_get (r_headers_in r) "Host"); [|reflexivity].
  destruct (apr_table_get (r_headers_in r) "Sec-WebSocket-Key"); [|reflexivity].
  destruct (apr_table_get (r_headers_in r) "Sec-WebSocket-Origin"); [|reflexivity].
  destruct (apr_table_get (r_headers_in r) "Sec-WebSocket-Version"); [|reflexivity].
  destruct (strcaseeq s4 "7"); [|reflexivity].
  destruct conf; [discriminate H|reflexivity].
Qed.

Lemma requirements_conf (r : request) (conf : option plugin) :
  handshake_requirements r conf = true -> exists p, conf = Some p.
Proof.
  unfold handshake_requirements. destruct conf as [p|]; [eauto|].
  rewrite andb_false_r. discriminate.
Qed.

Lemma take_token_split (sep : list ascii) (s : list ascii) :
  forall c, is_sep sep c = false ->
  let '(tok, rest) := take_token sep s in
  filter nonempty_piece (split_on sep (c :: s)) =
  (c :: tok) :: filter nonempty_piece (split_on sep rest) /\ (length rest <= length s)%nat.
Proof.
  induction s as [|d s IH]; intros c Hc; simpl; rewrite Hc.
  - split; reflexivity.
  - destruct (is_sep sep d) eqn:Hd.
    + simpl. split; [reflexivity|lia].
    + specialize (IH d Hd). destruct (take_token sep s) as [tok rest].
      simpl in IH. rewrite Hd in IH. destruct IH as [IH Hl].
      destruct (split_on sep s) as [|t ts] eqn:Es; simpl in *.
      * injection IH as <- E2. split; [rewrite <- E2; reflexivity|lia].
      * injection IH as <- E2. split; [rewrite <- E2; reflexivity|lia].
Qed.

Lemma skip_separators_split (sep s : list ascii) :
  filter nonempty_piece (split_on sep (skip_separators sep s)) =
  filter nonempty_piece (split_on sep s) /\
  (length (skip_separators sep s) <= length s)%nat /\
  match skip_separators sep s with c :: _ => is_sep sep c = false | [] => True end.
Proof.
  induction s as [|c s IH]; simpl; [split; [reflexivity|split; [lia|exact I]]|].
  destruct (is_sep sep c) eqn:Hc; simpl; [|rewrite Hc; split; [reflexivity|split; [lia|reflexivity]]].
  destruct IH as [IH1 [IH2 IH3]]. split; [exact IH1|split; [lia|exact IH3]].
Qed.

(** The [apr_strtok] loop cuts at every separator and keeps the non-empty pieces. *)
Lemma strtok_loop_split (sep : list ascii) (fuel : nat) :
  forall s, (length s < fuel)%nat ->
  strtok_loop fuel sep s = map string_of_list_ascii (filter nonempty_piece (split_on sep s)).
Proof.
  induction fuel as [|fuel IH]; intros s Hl; [lia|].
  simpl. unfold apr_strtok.
  destruct (skip_separators_split sep s) as [E [Hlen Hhd]].
  rewrite <- E. destruct (skip_separators sep s) as [|c s'] eqn:Es; [reflexivity|].
  pose proof (take_token_split sep s' c Hhd) as T.
  destruct (take_token sep s') as [tok rest]. destruct T as [T Hr].
  rewrite T. simpl. f_equal. apply IH. simpl in Hlen. lia.
Qed.

Lemma parse_protocol_split (v : string) :
  mod_websocket_parse_protocol v = split_names protocol_separators v.
Proof. apply strtok_loop_split. lia. Qed.

Lemma protocol_index_nth (protocols : list string) (i : nat) :
  mod_websocket_protocol_index protocols i = nth_error protocols i.
Proof.
  unfold mod_websocket_protocol_index, mod_websocket_protocol_count.
  destruct (Nat.ltb_spec i (length protocols)); [reflexivity|].
  symmetry. apply nth_error_None. exact H.
Qed.

End Handshake.

(** ** Further lemmas: frames of every kind, header tables, the protocol list *)

Lemma start_control (st : fstate) (mf : frame_data) (op : Z) (rest : list Z) :
  idle mf st -> 8 <= op < 16 -> rest <> [] ->
  exists S0, case_start st ((1 * 128 + op) :: rest) = case_payload_length S0 rest /\
    mask_index S0 = 0 /\ length (mask S0) = 4%nat /\ frame S0 = CONTROL_FRAME /\
    message_frame S0 = mf /\ fin S0 = 1 /\ opcode S0 = op /\
    control_frame S0 = mk_frame_data [] (frame_fin (control_frame st)) op.
Proof.
  intros [Hfs [Hmi [Hm [Hcf Hmf]]]] Hop Hr.
  destruct rest as [|y rest]; [congruence|].
  assert (op = 8 \/ op = 9 \/ op = 10 \/ op = 11 \/ op = 12 \/ op = 13 \/ op = 14 \/ op = 15)
    as Hc by lia.
  unfold case_start.
  repeat destruct Hc as [-> | Hc]; subst; cbn -[case_payload_length];
    eexists; (split; [reflexivity|]); cbn; rewrite ?Hmi, ?Hm, ?Hcf, ?Hmf; auto 10.
Qed.


Lemma finish_pong (S0 : fstate) (key : list Z) (L mo : Z) (p more : list Z) (cff : Z) :
  frame S0 = CONTROL_FRAME -> control_frame S0 = mk_frame_data [] cff OPCODE_PONG ->
  fin S0 = 1 -> opcode S0 = OPCODE_PONG -> length key = 4%nat ->
  exists S', app_finish (payload_ready S0 key L) 0 mo p more = (S', more, []) /\
    idle (message_frame S0) S'.
Proof.
  intros Hfr Hcf Hf Hop Hk.
  destruct S0 as [fs0 pl0 rem0 mi0 mk0 ms0 mo0 f0 op0 cf0 mf0 sel0]; simpl in *; subst.
  unfold app_finish; cbn; eexists; (split; [reflexivity|]).
  unfold idle; cbn; auto 10.
Qed.


Lemma frame_step_pong (st : fstate) (mf : frame_data) (fsp : frame_spec) (more : list Z) :
  idle mf st -> frame_spec_ok fsp -> within_limit fsp ->
  exists st', framing_step st (client_frame_of 1 OPCODE_PONG fsp ++ more) = (st', more, []) /\
    idle mf st'.
Proof.
  intros Hidle [Hk [_ [_ Hform]]] Hlim.
  assert (Hst : framing_state st = DATA_FRAMING_START) by apply Hidle.
  rewrite client_frame_cons. unfold framing_step. rewrite Hst.
  destruct (start_control st mf OPCODE_PONG _ Hidle ltac:(unfold OPCODE_PONG; lia)
      (client_length_bytes_nonempty (fs_form fsp) (Z.of_nat (length (fs_payload fsp)))
      (fs_key fsp ++ mask_payload (fs_key fsp) (fs_payload fsp) ++ more)))
    as [S0 [E [Hmi [Hm [Hfr [Hmf [Hfin [Hopc Hcf0]]]]]]]].
  rewrite E, header_to_app by (auto; unfold within_limit in Hlim; lia).
  rewrite payload_to_finish by exact Hk.
  rewrite <- Hmf. apply finish_pong with (cff := frame_fin (control_frame st)); auto.
Qed.


Lemma block_units (units : list client_unit) :
  forall (st : fstate) (o : Z) (more : list Z),
  Forall unit_ok units -> idle (mk_frame_data [] 1 o) st ->
  exists st' o', process_block st (concat (map encode_unit units) ++ more) =
    (let '(s2, a2) := process_block st' more in (s2, concat (map unit_actions units) ++ a2)) /\
    idle (mk_frame_data [] 1 o') st'.
Proof.
  induction units as [|u units IH]; intros st o more Hok Hidle.
  - exists st, o. split; [|exact Hidle]. simpl. destruct (process_block st more); reflexivity.
  - inversion Hok as [|u' us' Hu Hus]; subst.
    cbn [map concat]. rewrite <- app_assoc.
    assert (Hstep : exists st1 o1, process_block st (encode_unit u ++ concat (map encode_unit units) ++ more) =
              (let '(s2, a2) := process_block st1 (concat (map encode_unit units) ++ more) in
               (s2, unit_actions u ++ a2)) /\ idle (mk_frame_data [] 1 o1) st1).
    { destruct u as [op first rest | f | f]; cbn [encode_unit unit_actions].
      - destruct Hu as [Hop Hfs].
        destruct (block_message op first rest st [] 1 o (concat (map encode_unit units) ++ more) Hidle ltac:(discriminate) Hop Hfs)
          as [st1 [E Hid]].
        exists st1, op. split; [|exact Hid]. rewrite E, map_received_payload. reflexivity.
      - destruct Hu as [Hf Hl].
        destruct (frame_step_ping st _ f (concat (map encode_unit units) ++ more) Hidle Hf Hl)
          as [st1 [E Hid]].
        exists st1, o. split; [|exact Hid].
        rewrite (process_block_frame st st1 _ _ _ (idle_inv _ _ Hidle) (client_frame_nonempty _ _ _) E).
        rewrite received_payload_eq. reflexivity.
      - destruct Hu as [Hf Hl].
        destruct (frame_step_pong st _ f (concat (map encode_unit units) ++ more) Hidle Hf Hl)
          as [st1 [E Hid]].
        exists st1, o. split; [|exact Hid].
        rewrite (process_block_frame st st1 _ _ _ (idle_inv _ _ Hidle) (client_frame_nonempty _ _ _) E).
        reflexivity. }
    destruct Hstep as [st1 [o1 [E1 Hid1]]].
    destruct (IH st1 o1 more Hus Hid1) as [st' [o' [E2 Hid2]]].
    exists st', o'. split; [|exact Hid2].
    rewrite E1, E2. destruct (process_block st' more) as [s2 a2].
    rewrite app_assoc. reflexivity.
Qed.

Lemma units_then_stop (units : list client_unit) (tail : list Z) (reads : list (list Z)) :
  Forall unit_ok units ->
  (forall st o, idle (mk_frame_data [] 1 o) st -> snd (process_block st tail) = []) ->
  Forall (fun b => b <> []) reads -> concat reads = concat (map encode_unit units) ++ tail ->
  mod_websocket_data_framing reads = concat (map unit_actions units) ++ [Send MESSAGE_TYPE_CLOSE []].
Proof.
  intros Hok Ht Hne Hc. rewrite data_framing_concat by exact Hne. rewrite Hc.
  destruct (block_units units framing_init 0 tail Hok framing_init_idle) as [st' [o' [E Hid]]].
  rewrite E. specialize (Ht st' o' Hid). destruct (process_block st' tail) as [s2 a2].
  simpl in Ht |- *. rewrite Ht, app_nil_r. reflexivity.
Qed.

Lemma step_to_close (st s1 : fstate) (blk r : list Z) :
  framing_inv st -> blk <> [] -> framing_step st blk = (s1, r, []) ->
  framing_state s1 = DATA_FRAMING_CLOSE -> snd (process_block st blk) = [].
Proof.
  intros Hi Hne E Hc. rewrite process_block_step by assumption. rewrite E.
  rewrite process_block_close by exact Hc. reflexivity.
Qed.

Lemma start_rsv (st : fstate) (b : Z) (rest : list Z) :
  framing_state st = DATA_FRAMING_START ->
  (FRAME_GET_RSV1 b <> 0 \/ FRAME_GET_RSV2 b <> 0 \/ FRAME_GET_RSV3 b <> 0) ->
  framing_step st (b :: rest) = (set_framing_state st DATA_FRAMING_CLOSE, b :: rest, []).
Proof.
  intros Hs Hr. unfold framing_step. rewrite Hs. unfold case_start.
  destruct Hr as [H | [H | H]]; apply Z.eqb_neq in H; rewrite H; simpl;
    rewrite ?orb_true_r; reflexivity.
Qed.

Lemma start_control_nofin (st : fstate) (b : Z) (rest : list Z) :
  framing_state st = DATA_FRAMING_START ->
  FRAME_GET_RSV1 b = 0 -> FRAME_GET_RSV2 b = 0 -> FRAME_GET_RSV3 b = 0 ->
  FRAME_GET_FIN b = 0 -> FRAME_GET_OPCODE b >= 8 ->
  exists s1, framing_step st (b :: rest) = (s1, rest, []) /\
    framing_state s1 = DATA_FRAMING_CLOSE.
Proof.
  intros Hs H1 H2 H3 Hf Hop. unfold framing_step. rewrite Hs. unfold case_start.
  rewrite H1, H2, H3, Hf. cbv zeta. cbn [negb orb Z.eqb].
  assert (E : (FRAME_GET_OPCODE b >=? 8) = true) by (apply Z.geb_le; lia).
  rewrite E. eexists. split; reflexivity.
Qed.

Lemma start_continuation_idle (st : fstate) (d : list Z) (ff fo b : Z) (rest : list Z) :
  idle (mk_frame_data d ff fo) st -> ff <> 0 ->
  FRAME_GET_RSV1 b = 0 -> FRAME_GET_RSV2 b = 0 -> FRAME_GET_RSV3 b = 0 ->
  FRAME_GET_OPCODE b = OPCODE_CONTINUATION ->
  exists s1, framing_step st (b :: rest) = (s1, rest, []) /\
    framing_state s1 = DATA_FRAMING_CLOSE.
Proof.
  intros [Hs [_ [_ [_ Hmf]]]] Hff H1 H2 H3 Hop. unfold framing_step. rewrite Hs. unfold case_start.
  rewrite H1, H2, H3, Hop. cbv zeta. cbn -[set_frames set_framing_state set_fin_opcode].
  cbn [set_frames set_framing_state set_fin_opcode message_frame]. rewrite Hmf. cbn [frame_fin].
  apply Z.eqb_neq in Hff. rewrite Hff. eexists. split; reflexivity.
Qed.

Lemma start_data_in_message (st : fstate) (d : list Z) (fo b : Z) (rest : list Z) :
  idle (mk_frame_data d 0 fo) st ->
  FRAME_GET_RSV1 b = 0 -> FRAME_GET_RSV2 b = 0 -> FRAME_GET_RSV3 b = 0 ->
  1 <= FRAME_GET_OPCODE b <= 7 ->
  exists s1, framing_step st (b :: rest) = (s1, rest, []) /\
    framing_state s1 = DATA_FRAMING_CLOSE.
Proof.
  intros [Hs [_ [_ [_ Hmf]]]] H1 H2 H3 Hop. unfold framing_step. rewrite Hs. unfold case_start.
  rewrite H1, H2, H3. cbv zeta. cbn [negb orb Z.eqb].
  assert (E1 : (FRAME_GET_OPCODE b >=? 8) = false) by (rewrite Z.geb_leb; apply Z.leb_gt; lia).
  assert (E2 : (FRAME_GET_OPCODE b =? 0) = false) by (apply Z.eqb_neq; lia).
  rewrite E1, E2. cbn [negb].
  cbn [set_frames set_framing_state set_fin_opcode message_frame]. rewrite Hmf. cbn [frame_fin].
  eexists. split; reflexivity.
Qed.

(** The header byte is accepted by [DATA_FRAMING_START] between messages. *)

Lemma start_accepts (st : fstate) (d : list Z) (ff fo b : Z) (rest : list Z) :
  idle (mk_frame_data d ff fo) st -> ff <> 0 ->
  FRAME_GET_RSV1 b = 0 -> FRAME_GET_RSV2 b = 0 -> FRAME_GET_RSV3 b = 0 ->
  FRAME_GET_OPCODE b <> 0 -> (FRAME_GET_OPCODE b >= 8 -> FRAME_GET_FIN b <> 0) -> rest <> [] ->
  exists S0, framing_step st (b :: rest) = case_payload_length S0 rest /\
    opcode S0 = FRAME_GET_OPCODE b.
Proof.
  intros [Hs [_ [_ [_ Hmf]]]] Hff H1 H2 H3 Hop0 Hctl Hr.
  destruct rest as [|y rest]; [congruence|].
  unfold framing_step. rewrite Hs. unfold case_start.
  rewrite H1, H2, H3. cbv zeta. cbn [negb orb Z.eqb].
  destruct (FRAME_GET_OPCODE b >=? 8) eqn:Hge.
  - apply Z.geb_le in Hge. assert (Hf : (FRAME_GET_FIN b =? 0) = false) by (apply Z.eqb_neq; lia).
    rewrite Hf. cbn [negb]. eexists. split; reflexivity.
  - apply Z.eqb_neq in Hop0. rewrite Hop0. cbn [negb].
    cbn [set_frames set_framing_state set_fin_opcode message_frame]. rewrite Hmf. cbn [frame_fin].
    apply Z.eqb_neq in Hff. rewrite Hff. cbn [negb]. eexists. split; reflexivity.
Qed.

Lemma payload_length_unmasked (S0 : fstate) (b1 : Z) (rest : list Z) :
  FRAME_GET_MASK b1 = 0 ->
  exists s1, case_payload_length S0 (b1 :: rest) = (s1, rest, []) /\
    framing_state s1 = DATA_FRAMING_CLOSE.
Proof.
  intros Hm. unfold case_payload_length. rewrite Hm. cbv zeta.
  destruct (if FRAME_GET_PAYLOAD_LEN b1 =? 126 then (0, 2)
            else if FRAME_GET_PAYLOAD_LEN b1 =? 127 then (0, 8)
            else (FRAME_GET_PAYLOAD_LEN b1, 0)) as [pl rem].
  cbn [Z.eqb orb]. eexists. split; reflexivity.
Qed.

Lemma wrap_int64_large (L : Z) : 2 ^ 63 <= L < 2 ^ 64 -> wrap_int64 L = L - 2 ^ 64.
Proof.
  intros H. unfold wrap_int64.
  replace ((L + 2 ^ 63) mod 2 ^ 64) with (L + 2 ^ 63 - 2 ^ 64); [lia|].
  apply Z.mod_unique with 1; lia.
Qed.

Lemma length_ext_loop_be8 (L : Z) (rest : list Z) :
  0 <= L < 2 ^ 64 -> length_ext_loop 0 8 (be_bytes 8 L ++ rest) = (wrap_int64 L, 0, rest).
Proof.
  intros HL.
  change (be_bytes 8 L) with (be_bytes 7 (L / 256) ++ [L mod 256]).
  rewrite <- app_assoc. change 8 with (Z.of_nat 7 + 1).
  assert (Hq : 0 <= L / 256 < 2 ^ 56).
  { split; [apply Z.div_pos; lia|]. apply Z.div_lt_upper_bound; lia. }
  rewrite length_ext_loop_be; [|lia|lia|].
  2: { change (256 ^ Z.of_nat 7) with (2 ^ 56). pose proof (Z.mod_pos_bound (L / 256) (2 ^ 56)). lia. }
  change (256 ^ Z.of_nat 7) with (2 ^ 56). rewrite (Z.mod_small (L / 256)) by lia.
  rewrite Z.mul_0_l, Z.add_0_l. cbn [app length_ext_loop].
  replace (1 >? 0) with true by reflexivity.
  replace (L / 256 * 256 + L mod 256) with L by (pose proof (Z.div_mod L 256); lia).
  replace (1 - 1) with 0 by reflexivity. apply length_ext_loop_done.
Qed.

Lemma payload_length_too_long (S0 : fstate) (L : Z) (rest : list Z) :
  payload_limit < L < 2 ^ 64 ->
  exists s1, case_payload_length S0 (255 :: be_bytes 8 L ++ rest) = (s1, rest, []) /\
    framing_state s1 = DATA_FRAMING_CLOSE.
Proof.
  intros HL. unfold case_payload_length.
  change (FRAME_GET_PAYLOAD_LEN 255) with 127. change (FRAME_GET_MASK 255) with 1. cbv zeta.
  cbn [Z.eqb orb Pos.eqb]. replace (0 >? 125) with false by reflexivity. rewrite andb_false_r.
  cbn [orb].
  assert (Hne : be_bytes 8 L ++ rest <> []).
  { change (be_bytes 8 L) with (be_bytes 7 (L / 256) ++ [L mod 256]).
    rewrite <- app_assoc. destruct (be_bytes 7 (L / 256)); discriminate. }
  destruct (be_bytes 8 L ++ rest) as [|x xs] eqn:Eb; [congruence|].
  rewrite <- Eb. unfold case_payload_length_ext.
  cbn [payload_length payload_length_bytes_remaining set_framing_state set_masking set_payload_length].
  rewrite length_ext_loop_be8 by (unfold payload_limit in HL; lia).
  cbn [Z.eqb].
  assert (E : ((wrap_int64 L <? 0) || (wrap_int64 L >? payload_limit)) = true).
  { destruct (Z.lt_ge_cases L (2 ^ 63)).
    - rewrite wrap_int64_small by (unfold payload_limit in HL; lia).
      apply orb_true_iff. right. apply Z.gtb_lt. lia.
    - rewrite wrap_int64_large by lia. apply orb_true_iff. left. apply Z.ltb_lt. lia. }
  rewrite E. eexists. split; reflexivity.
Qed.

Lemma closes_from (st s1 : fstate) (b : Z) (rest r : list Z) :
  framing_inv st -> framing_step st (b :: rest) = (s1, r, []) ->
  framing_state s1 = DATA_FRAMING_CLOSE -> snd (process_block st (b :: rest)) = [].
Proof. intros Hi E Hc. apply (step_to_close st s1 (b :: rest) r Hi ltac:(discriminate) E Hc). Qed.

Ltac split_ifs :=
  repeat match goal with
  | |- context [if ?c then _ else _] => let E := fresh "E" in destruct c eqn:E
  | |- context [match ?x with (_, _) => _ end] => destruct x
  end.

Ltac actions_ok_tac :=
  repeat (apply Forall_cons || apply Forall_nil); cbn [loop_action_ok];
  first [reflexivity | left; reflexivity | right; reflexivity].

Lemma case_application_data_ok (st : fstate) (blk : list Z) :
  Forall loop_action_ok (snd (case_application_data st blk)).
Proof.
  unfold case_application_data. cbv zeta. split_ifs; cbn in *;
    rewrite ?andb_false_r in *; try discriminate; actions_ok_tac.
Qed.

Lemma case_extension_data_ok (st : fstate) (blk : list Z) :
  Forall loop_action_ok (snd (case_extension_data st blk)).
Proof. unfold case_extension_data. apply case_application_data_ok. Qed.

Lemma case_mask_ok (st : fstate) (blk : list Z) :
  Forall loop_action_ok (snd (case_mask st blk)).
Proof.
  unfold case_mask. destruct (mask_loop _ _ _) as [[mi mk] rest].
  destruct (mi =? 4); [apply case_extension_data_ok | constructor].
Qed.

Lemma case_payload_length_ext_ok (st : fstate) (blk : list Z) :
  Forall loop_action_ok (snd (case_payload_length_ext st blk)).
Proof.
  unfold case_payload_length_ext. destruct (length_ext_loop _ _ _) as [[pl rem] rest].
  cbv zeta. split_ifs; destruct rest; try constructor; apply case_mask_ok.
Qed.

Lemma case_payload_length_ok (st : fstate) (blk : list Z) :
  Forall loop_action_ok (snd (case_payload_length st blk)).
Proof.
  unfold case_payload_length. destruct blk as [|b rest]; [constructor|].
  cbv zeta. split_ifs; destruct rest; try constructor; apply case_payload_length_ext_ok.
Qed.

Lemma case_start_ok (st : fstate) (blk : list Z) :
  Forall loop_action_ok (snd (case_start st blk)).
Proof.
  unfold case_start. destruct blk as [|b rest]; [constructor|].
  cbv zeta. split_ifs; destruct rest; try constructor; apply case_payload_length_ok.
Qed.

Lemma framing_step_ok (st : fstate) (blk : list Z) :
  Forall loop_action_ok (snd (framing_step st blk)).
Proof.
  unfold framing_step. destruct (framing_state st);
    first [ apply case_start_ok | apply case_payload_length_ok | apply case_payload_length_ext_ok
          | apply case_mask_ok | apply case_extension_data_ok | apply case_application_data_ok
          | constructor ].
Qed.

Lemma block_loop_ok (fuel : nat) :
  forall (st : fstate) (blk : list Z), Forall loop_action_ok (snd (block_loop fuel st blk)).
Proof.
  induction fuel as [|fuel IH]; intros st blk; [constructor|].
  cbn [block_loop]. destruct blk as [|x blk]; [constructor|].
  pose proof (framing_step_ok st (x :: blk)) as H1.
  destruct (framing_step st (x :: blk)) as [[st1 blk1] a1].
  pose proof (IH st1 blk1) as H2. destruct (block_loop fuel st1 blk1) as [st2 a2].
  apply Forall_app; split; assumption.
Qed.

Lemma read_loop_ok (reads : list (list Z)) :
  forall (st : fstate), Forall loop_action_ok (snd (read_loop st reads)).
Proof.
  induction reads as [|blk reads IH]; intros st; cbn [read_loop].
  - destruct (is_close (framing_state st)); constructor.
  - destruct (is_close (framing_state st)); [constructor|].
    destruct blk as [|x blk]; [constructor|].
    pose proof (block_loop_ok (5 * length (x :: blk) + 5) st (x :: blk)) as H1.
    unfold process_block. destruct (block_loop _ st (x :: blk)) as [st1 a1].
    pose proof (IH st1) as H2. destruct (read_loop st1 reads) as [st2 a2].
    apply Forall_app; split; assumption.
Qed.

Lemma read_loop_empty_read (r1 : list (list Z)) :
  forall (st : fstate) (r2 : list (list Z)), read_loop st (r1 ++ [] :: r2) = read_loop st r1.
Proof.
  induction r1 as [|blk r1 IH]; intros st r2; cbn [read_loop app].
  - destruct (is_close (framing_state st)); reflexivity.
  - destruct (is_close (framing_state st)); [reflexivity|].
    destruct blk as [|x blk]; [reflexivity|].
    destruct (process_block st (x :: blk)) as [st1 a1]. rewrite IH. reflexivity.
Qed.

Lemma strcaseeq_sym (a b : string) : strcaseeq a b = strcaseeq b a.
Proof.
  unfold strcaseeq. destruct (String.eqb_spec (string_tolower a) (string_tolower b)) as [E|E];
  destruct (String.eqb_spec (string_tolower b) (string_tolower a)) as [E'|E']; congruence.
Qed.

Lemma strcaseeq_trans (a b c : string) :
  strcaseeq a b = true -> strcaseeq a c = strcaseeq b c.
Proof.
  unfold strcaseeq. intros H. apply String.eqb_eq in H. rewrite H. reflexivity.
Qed.

Lemma apr_table_get_unset (t : table) (k k' : string) :
  apr_table_get (table_unset t k) k' = if strcaseeq k k' then None else apr_table_get t k'.
Proof.
  induction t as [|[k1 v1] t IH]; simpl; [destruct (strcaseeq k k'); reflexivity|].
  destruct (strcaseeq k1 k) eqn:E1.
  - rewrite IH. rewrite strcaseeq_sym in E1.
    destruct (strcaseeq k k') eqn:E2; [reflexivity|].
    rewrite <- (strcaseeq_trans k k1 k' E1), E2. reflexivity.
  - simpl. rewrite IH. destruct (strcaseeq k1 k') eqn:E2; [|reflexivity].
    destruct (strcaseeq k k') eqn:E3; [|reflexivity].
    rewrite (strcaseeq_sym k1 k), (strcaseeq_trans k k' k1 E3) in E1.
    rewrite strcaseeq_sym, E2 in E1. discriminate.
Qed.

Lemma apr_table_get_setn_any (t : table) (k v k' : string) :
  apr_table_get (apr_table_setn t k v) k' =
  if strcaseeq k k' then Some v else apr_table_get t k'.
Proof.
  induction t as [|[k1 v1] t IH]; simpl; [destruct (strcaseeq k k'); reflexivity|].
  destruct (strcaseeq k1 k) eqn:E1; simpl.
  - rewrite apr_table_get_unset. rewrite (strcaseeq_trans k1 k k' E1).
    destruct (strcaseeq k k'); reflexivity.
  - rewrite IH. destruct (strcaseeq k1 k') eqn:E2; [|reflexivity].
    destruct (strcaseeq k k') eqn:E3; [|reflexivity].
    rewrite (strcaseeq_sym k1 k), (strcaseeq_trans k k' k1 E3) in E1.
    rewrite strcaseeq_sym, E2 in E1. discriminate.
Qed.

Lemma handler_unfold_key (r : request) (p : plugin) (reads : list (list Z)) (key : string) :
  handshake_requirements r (Some p) = true ->
  apr_table_get (r_headers_in r) "Sec-WebSocket-Key" = Some key ->
  mod_websocket_method_handler r (Some p) reads =
    (let protocols := offered_protocols r in
     let hout0 := mod_websocket_handshake
                    (apr_table_setn (apr_table_setn [] "Upgrade" "websocket") "Connection" "Upgrade")
                    key in
     let hout :=
       if (0 <? mod_websocket_protocol_count protocols)%nat then
         mod_websocket_protocol_set hout0 (mod_websocket_protocol_index protocols 0)
       else hout0 in
     match on_connect p with
     | None => (OK, hout, upgraded p hout 0 reads)
     | Some f =>
         let '(plugin_private, chosen) := f protocols in
         let hout' := mod_websocket_protocol_set hout chosen in
         if plugin_private =? 0 then (OK, hout', [EvOnConnect hout])
         else (OK, hout', EvOnConnect hout :: upgraded p hout' plugin_private reads)
     end).
Proof.
  unfold handshake_requirements, header_is, header_present, offered_protocols.
  intros H Hk. unfold mod_websocket_method_handler. cbv zeta. rewrite Hk. rewrite Hk in H.
  destruct (String.eqb (r_handler r) "websocket-handler"), (r_method_number r =? M_GET),
    (r_path_present r); try discriminate H; simpl in *.
  destruct (apr_table_get (r_headers_in r) "Upgrade"); [|discriminate H].
  destruct (apr_table_get (r_headers_in r) "Connection"); [|rewrite andb_false_r in H; discriminate H].
  destruct (strcaseeq s "WebSocket"); [|discriminate H].
  destruct (strcaseeq s0 "Upgrade"); [|discriminate H]. simpl in *.
  destruct (apr_table_get (r_headers_in r) "Host"); [|discriminate H].
  destruct (apr_table_get (r_headers_in r) "Sec-WebSocket-Origin"); [|discriminate H].
  destruct (apr_table_get (r_headers_in r) "Sec-WebSocket-Version"); [|discriminate H].
  destruct (strcaseeq s3 "7"); [|discriminate H].
  reflexivity.
Qed.


Section Pieces.
Variable sep : list ascii.

Lemma split_on_cons (l : list ascii) : exists u us, split_on sep l = u :: us.
Proof.
  induction l as [|c l [u [us IH]]]; simpl; [eauto|].
  destruct (is_sep sep c); [eauto|]. rewrite IH. eauto.
Qed.

Lemma pieces_sep (c : ascii) (l : list ascii) :
  is_sep sep c = true ->
  filter nonempty_piece (split_on sep (c :: l)) = filter nonempty_piece (split_on sep l).
Proof. intros H. simpl. rewrite H. reflexivity. Qed.

Lemma pieces_seps (d l : list ascii) :
  Forall (fun c => is_sep sep c = true) d ->
  filter nonempty_piece (split_on sep (d ++ l)) = filter nonempty_piece (split_on sep l).
Proof.
  induction 1 as [|c d Hc Hd IH]; [reflexivity|]. cbn [app]. rewrite pieces_sep by exact Hc.
  exact IH.
Qed.

Lemma split_on_token (t l : list ascii) :
  Forall (fun c => is_sep sep c = false) t ->
  split_on sep (t ++ l) =
  match split_on sep l with [] => [t] | u :: us => (t ++ u) :: us end.
Proof.
  induction 1 as [|c t Hc Ht IH].
  - simpl. destruct (split_on_cons l) as [u [us ->]]. reflexivity.
  - cbn [app split_on]. rewrite Hc, IH.
    destruct (split_on_cons l) as [u [us ->]]. reflexivity.
Qed.

Lemma pieces_token (t l : list ascii) :
  t <> [] -> Forall (fun c => is_sep sep c = false) t ->
  (l = [] \/ exists c l', l = c :: l' /\ is_sep sep c = true) ->
  filter nonempty_piece (split_on sep (t ++ l)) = t :: filter nonempty_piece (split_on sep l).
Proof.
  intros Hne Ht Hl. rewrite split_on_token by exact Ht.
  assert (Hnp : nonempty_piece t = true) by (destruct t; [congruence|reflexivity]).
  destruct Hl as [->|[c [l' [-> Hc]]]].
  - simpl. rewrite app_nil_r, Hnp. reflexivity.
  - cbn [split_on]. rewrite Hc, app_nil_r. cbn [filter]. rewrite Hnp. reflexivity.
Qed.

Lemma split_on_tokens (l : list ascii) :
  Forall (Forall (fun c => is_sep sep c = false)) (split_on sep l) /\
  concat (split_on sep l) = filter (fun c => negb (is_sep sep c)) l.
Proof.
  induction l as [|c l [IH1 IH2]]; [split; [repeat constructor|reflexivity]|].
  cbn [split_on filter]. destruct (is_sep sep c) eqn:Ec; cbn [negb].
  - split; [constructor; [constructor|exact IH1]|exact IH2].
  - destruct (split_on sep l) as [|u us] eqn:Es.
    + split; [repeat constructor; exact Ec|]. simpl in IH2 |- *. rewrite <- IH2. reflexivity.
    + inversion IH1 as [|u' us' Hu Hus]; subst.
      split; [constructor; [constructor; assumption|assumption]|].
      simpl in IH2 |- *. rewrite IH2. reflexivity.
Qed.

Lemma pieces_empty_iff (l : list ascii) :
  filter nonempty_piece (split_on sep l) = [] <-> Forall (fun c => is_sep sep c = true) l.
Proof.
  induction l as [|c l IH]; [split; [constructor|reflexivity]|].
  destruct (is_sep sep c) eqn:Ec.
  - rewrite pieces_sep by exact Ec. rewrite IH. split; [intros H; constructor; assumption|].
    intros H; inversion H; assumption.
  - split; [|intros H; inversion H; congruence].
    cbn [split_on]. rewrite Ec. destruct (split_on sep l); discriminate.
Qed.

End Pieces.

Lemma list_ascii_of_string_append (s1 s2 : string) :
  list_ascii_of_string (String.append s1 s2) = list_ascii_of_string s1 ++ list_ascii_of_string s2.
Proof. induction s1 as [|c s1 IH]; simpl; [reflexivity|]. rewrite IH. reflexivity. Qed.

Lemma requirements_key (r : request) (conf : option plugin) :
  handshake_requirements r conf = true ->
  exists key, apr_table_get (r_headers_in r) "Sec-WebSocket-Key" = Some key.
Proof.
  unfold handshake_requirements, header_present. intros H.
  destruct (apr_table_get (r_headers_in r) "Sec-WebSocket-Key") as [k|]; [eauto|].
  rewrite andb_false_r in H. simpl in H. discriminate H.
Qed.

Lemma be_bytes_length (n : nat) : forall L, length (be_bytes n L) = n.
Proof.
  induction n as [|n IH]; intros L; [reflexivity|]. simpl. rewrite length_app, IH. simpl. lia.
Qed.

Lemma b64_char_not_pad (n : Z) : 0 <= n < 64 -> b64_char n <> "="%char.
Proof.
  intros Hn. unfold b64_char. assert (Hk : (Z.to_nat n < 64)%nat) by lia.
  generalize (Z.to_nat n) Hk. clear n Hn Hk. intros k Hk.
  do 64 (destruct k as [|k]; [vm_compute; discriminate|]). lia.
Qed.

Lemma string_length_of_list (l : list ascii) : String.length (string_of_list_ascii l) = length l.
Proof. induction l as [|c l IH]; simpl; [reflexivity|]. rewrite IH. reflexivity. Qed.

(** ** Claims about the output side *)

(** C6: once a [send] of type CLOSE has set the session's [closing] flag, the
    flag stays set and every later [send] (from the loop or a handler) returns
    0 and hands no byte to the output sink. *)
Theorem closing_flag_final (s : session) (buf : option (list Z)) (io : io_result)
    (calls : list (message_type * option (list Z) * io_result)) :
  st_r s = true -> st_obb s = true -> closing s = 0 ->
  let s1 := fst (mod_websocket_plugin_send s MESSAGE_TYPE_CLOSE buf io) in
  closing s1 = 1 /\ run_sends s1 calls = (s1, repeat 0 (length calls)).
Proof.
  intros Hr Hobb Hc s1.
  assert (Hs1 : closing s1 = 1).
  { unfold s1, mod_websocket_plugin_send. rewrite Hr, Hobb, Hc. simpl.
    destruct (buffer_length buf >? 0); reflexivity. }
  split; [exact Hs1|].
  apply run_sends_when_closing. rewrite Hs1. discriminate.
Qed.

Lemma closing_flag_final_witness :
  let s := mk_session true true 0 [] in
  let io := mk_io true true in
  let calls := [(MESSAGE_TYPE_TEXT, Some [104; 105], io); (MESSAGE_TYPE_PING, None, io)] in
  let s1 := fst (mod_websocket_plugin_send s MESSAGE_TYPE_CLOSE None io) in
  closing s1 = 1 /\ run_sends s1 calls = (s1, repeat 0 (length calls)).
Proof.
  intros s io calls s1.
  exact (closing_flag_final s None io calls eq_refl eq_refl eq_refl).
Defined.

(** C7: a [send] of an [L]-byte payload on an open session hands the sink
    exactly one unmasked frame with FIN=1: byte 0 is [0x80 | opcode], then [L],
    or 126 and [L] on 2 big-endian bytes, or 127 and [L] on 8 big-endian bytes,
    then the payload verbatim; [send(TEXT, "hi")] gives [81 02 68 69]. *)
Theorem send_frame_format (s : session) (ty : message_type) (payload : list Z) (io : io_result) :
  st_r s = true -> st_obb s = true -> closing s = 0 ->
  sink (fst (mod_websocket_plugin_send s ty (Some payload) io))
  = sink s ++ spec_frame_header (snd (send_opcode 0 ty)) (Z.of_nat (length payload)) ++ payload
  /\ sink (fst (mod_websocket_plugin_send (mk_session true true 0 []) MESSAGE_TYPE_TEXT
                 (Some [104; 105]) io)) = [129; 2; 104; 105].
Proof.
  intros Hr Hobb Hc. split.
  - unfold mod_websocket_plugin_send. rewrite Hr, Hobb, Hc. simpl buffer_length.
    assert (Hop : 0 <= snd (send_opcode 0 ty) < 16)
      by (destruct ty; simpl; unfold OPCODE_TEXT, OPCODE_BINARY, OPCODE_PING,
            OPCODE_PONG, OPCODE_CLOSE; lia).
    destruct (send_opcode 0 ty) as [c1 op] eqn:Eop. simpl in Hop |- *.
    rewrite send_header_spec by lia.
    destruct (Z.of_nat (length payload) >? 0) eqn:Epos; simpl.
    + rewrite <- app_assoc. reflexivity.
    + destruct payload; [|simpl in Epos; discriminate].
      rewrite !app_nil_r. reflexivity.
  - reflexivity.
Qed.

Lemma send_frame_format_witness :
  let s := mk_session true true 0 [] in
  let io := mk_io true true in
  sink (fst (mod_websocket_plugin_send s MESSAGE_TYPE_BINARY (Some [1; 2; 3]) io))
  = sink s ++ spec_frame_header (snd (send_opcode 0 MESSAGE_TYPE_BINARY)) 3 ++ [1; 2; 3]
  /\ sink (fst (mod_websocket_plugin_send (mk_session true true 0 []) MESSAGE_TYPE_TEXT
                 (Some [104; 105]) io)) = [129; 2; 104; 105].
Proof.
  intros s io. exact (send_frame_format s MESSAGE_TYPE_BINARY [1; 2; 3] io eq_refl eq_refl eq_refl).
Defined.

(** C10: a [send] whose payload length is 0 returns 0, also when the header is
    written and flushed successfully (e.g. the empty CLOSE of [close]). *)
Theorem send_empty_returns_zero (s : session) (ty : message_type) (buf : option (list Z))
    (io : io_result) :
  buffer_length buf = 0 ->
  snd (mod_websocket_plugin_send s ty buf io) = 0 /\
  (st_r s = true -> st_obb s = true -> closing s = 0 ->
   sink (fst (mod_websocket_plugin_send s ty buf io))
   = sink s ++ send_header (snd (send_opcode 0 ty)) 0).
Proof.
  intros Hlen. unfold mod_websocket_plugin_send. rewrite Hlen. simpl Z.gtb. split.
  - destruct (st_r s && st_obb s && (closing s =? 0)).
    + destruct (send_opcode (closing s) ty). destruct (flush_ok io); reflexivity.
    + reflexivity.
  - intros Hr Hobb Hc. rewrite Hr, Hobb, Hc. simpl. destruct ty; reflexivity.
Qed.

Lemma send_empty_returns_zero_witness :
  buffer_length None = 0 /\
  snd (mod_websocket_plugin_send (mk_session true true 0 [7]) MESSAGE_TYPE_CLOSE None
         (mk_io true true)) = 0 /\
  (st_r (mk_session true true 0 [7]) = true -> st_obb (mk_session true true 0 [7]) = true ->
   closing (mk_session true true 0 [7]) = 0 ->
   sink (fst (mod_websocket_plugin_send (mk_session true true 0 [7]) MESSAGE_TYPE_CLOSE None
                (mk_io true true)))
   = sink (mk_session true true 0 [7]) ++ send_header (snd (send_opcode 0 MESSAGE_TYPE_CLOSE)) 0).
Proof.
  split; [reflexivity|].
  exact (send_empty_returns_zero (mk_session true true 0 [7]) MESSAGE_TYPE_CLOSE None
           (mk_io true true) eq_refl).
Defined.

(** ** Claims about the framing loop *)

(** C2: a message cut into frames [first :: rest] (the first with opcode TEXT or
    BINARY, the others CONTINUATION, FIN=0 on all but the last), each frame valid
    and within the payload limit, read from the connection in any cutting into
    blocks, yields exactly one [on_message] call, with the type of the first
    frame and the concatenation of the frames' payloads, each unmasked byte by
    byte with its own frame's key ([buf[i] = C[i] XOR K[i mod 4]], [i] from 0 in
    every frame); then the loop ends and the server's CLOSE is sent. *)
Theorem fragmented_message_delivered (op : Z) (first : frame_spec) (rest : list frame_spec)
    (reads : list (list Z)) :
  (op = OPCODE_TEXT \/ op = OPCODE_BINARY) -> Forall frame_good (first :: rest) ->
  reads_of (encode_message op first rest) reads ->
  mod_websocket_data_framing reads =
  [OnMessage (message_type_of_opcode op) (concat (map received_payload (first :: rest)));
   Send MESSAGE_TYPE_CLOSE []].
Proof.
  intros Hop Hok Hr.
  rewrite data_framing_concat by exact (reads_nonempty _ _ Hr).
  destruct Hr as [Hc _]. rewrite Hc, map_received_payload.
  rewrite <- (app_nil_r (encode_message op first rest)).
  destruct (block_message op first rest framing_init [] 1 0 [] framing_init_idle
              ltac:(discriminate) Hop Hok) as [st' [E _]].
  rewrite E. reflexivity.
Qed.

Lemma fragmented_message_delivered_witness :
  let f1 := mk_frame_spec LEN7 [1; 2; 3; 4] [104; 101] in
  let f2 := mk_frame_spec LEN16 [0; 0; 0; 0] [108; 108; 111] in
  let reads := [[1; 130]; [1; 2; 3; 4; 105; 103]; [128]; [254; 0; 3; 0; 0; 0; 0; 108; 108; 111]] in
  ((OPCODE_TEXT = OPCODE_TEXT \/ OPCODE_TEXT = OPCODE_BINARY) /\ Forall frame_good [f1; f2] /\
   reads_of (encode_message OPCODE_TEXT f1 [f2]) reads) /\
  mod_websocket_data_framing reads =
  [OnMessage MESSAGE_TYPE_TEXT (concat (map received_payload [f1; f2]));
   Send MESSAGE_TYPE_CLOSE []].
Proof.
  intros f1 f2 reads.
  assert (H1 : OPCODE_TEXT = OPCODE_TEXT \/ OPCODE_TEXT = OPCODE_BINARY) by (left; reflexivity).
  assert (H2 : Forall frame_good [f1; f2]).
  { unfold frame_good, frame_spec_ok, within_limit, is_byte, payload_limit.
    repeat (apply Forall_cons || apply Forall_nil); simpl;
      repeat split; repeat (apply Forall_cons || apply Forall_nil); lia. }
  assert (H3 : reads_of (encode_message OPCODE_TEXT f1 [f2]) reads).
  { split; [reflexivity|]. unfold BLOCK_DATA_SIZE.
    repeat (apply Forall_cons || apply Forall_nil); (split; [discriminate|simpl; lia]). }
  split; [split; [exact H1|split; [exact H2|exact H3]]|].
  exact (fragmented_message_delivered OPCODE_TEXT f1 [f2] reads H1 H2 H3).
Defined.

(** C5: a PING (FIN=1) between the frames of a fragmented message is answered
    by one PONG carrying the PING's unmasked payload, leaves the message frame
    (its assembled data, FIN and opcode) as it was, and causes no [on_message];
    the message, once complete, is delivered in one [on_message] call with its
    whole payload. *)
Theorem ping_inside_fragmented_message (op : Z) (first ping : frame_spec)
    (mids after : list frame_spec) (reads : list (list Z)) :
  (op = OPCODE_TEXT \/ op = OPCODE_BINARY) -> Forall frame_good (first :: mids) ->
  after <> [] -> Forall frame_good after -> frame_good ping ->
  reads_of (encode_open_fragments op first mids ++ client_frame_of 1 OPCODE_PING ping ++
            encode_continuations after) reads ->
  (forall (st : fstate) (d more : list Z),
     idle (mk_frame_data d 0 op) st ->
     exists st', framing_step st (client_frame_of 1 OPCODE_PING ping ++ more) =
       (st', more, [Send MESSAGE_TYPE_PONG (received_payload ping)]) /\
       message_frame st' = mk_frame_data d 0 op) /\
  mod_websocket_data_framing reads =
  [Send MESSAGE_TYPE_PONG (received_payload ping);
   OnMessage (message_type_of_opcode op) (concat (map received_payload (first :: mids ++ after)));
   Send MESSAGE_TYPE_CLOSE []].
Proof.
  intros Hop Hfm Hne Haf [Hpok Hplim] Hr. rewrite received_payload_eq. split.
  - intros st d more Hi.
    destruct (frame_step_ping st _ ping more Hi Hpok Hplim) as [st' [E Hi']].
    exists st'. split; [exact E | apply Hi'].
  - rewrite data_framing_concat by exact (reads_nonempty _ _ Hr).
    destruct Hr as [Hc _]. rewrite Hc, map_received_payload.
    rewrite <- (app_nil_r (encode_continuations after)).
    destruct (block_open_fragments op first mids framing_init [] 1 0
                (client_frame_of 1 OPCODE_PING ping ++ encode_continuations after ++ [])
                framing_init_idle
                ltac:(discriminate) Hop Hfm) as [s1 [E1 I1]].
    rewrite E1.
    destruct (frame_step_ping s1 _ ping (encode_continuations after ++ []) I1 Hpok Hplim)
      as [s2 [E2 I2]].
    rewrite (process_block_frame s1 s2 _ _ _ (idle_inv _ _ I1) (client_frame_nonempty _ _ _) E2).
    destruct (block_continuations after s2 _ op [] Hne Haf I2 Hop) as [s3 [E3 _]].
    rewrite E3. cbn [app map concat]. rewrite map_app, concat_app, app_assoc. reflexivity.
Qed.

Lemma ping_inside_fragmented_message_witness :
  let f1 := mk_frame_spec LEN7 [1; 2; 3; 4] [97] in
  let pg := mk_frame_spec LEN7 [5; 6; 7; 8] [120] in
  let f2 := mk_frame_spec LEN16 [0; 0; 0; 0] [98; 99] in
  let stream := encode_open_fragments OPCODE_TEXT f1 [] ++ client_frame_of 1 OPCODE_PING pg ++
                encode_continuations [f2] in
  ((OPCODE_TEXT = OPCODE_TEXT \/ OPCODE_TEXT = OPCODE_BINARY) /\ Forall frame_good [f1] /\
   [f2] <> [] /\ Forall frame_good [f2] /\ frame_good pg /\ reads_of stream [stream]) /\
  mod_websocket_data_framing [stream] =
  [Send MESSAGE_TYPE_PONG (received_payload pg);
   OnMessage MESSAGE_TYPE_TEXT (concat (map received_payload [f1; f2]));
   Send MESSAGE_TYPE_CLOSE []].
Proof.
  intros f1 pg f2 stream.
  assert (H1 : OPCODE_TEXT = OPCODE_TEXT \/ OPCODE_TEXT = OPCODE_BINARY) by (left; reflexivity).
  assert (G : forall f, In f [f1; pg; f2] -> frame_good f).
  { intros f Hf. simpl in Hf.
    unfold frame_good, frame_spec_ok, within_limit, is_byte, payload_limit.
    destruct Hf as [<-|[<-|[<-|[]]]]; simpl;
      repeat split; repeat (apply Forall_cons || apply Forall_nil); lia. }
  assert (H2 : Forall frame_good [f1]) by (constructor; [apply G; simpl; tauto|constructor]).
  assert (H3 : [f2] <> []) by discriminate.
  assert (H4 : Forall frame_good [f2]) by (constructor; [apply G; simpl; tauto|constructor]).
  assert (H5 : frame_good pg) by (apply G; simpl; tauto).
  assert (H6 : reads_of stream [stream]).
  { split; [reflexivity|]. constructor; [|constructor].
    split; [discriminate|]. unfold BLOCK_DATA_SIZE. simpl. lia. }
  split; [tauto|].
  exact (proj2 (ping_inside_fragmented_message OPCODE_TEXT f1 pg [] [f2] [stream]
                  H1 H2 H3 H4 H5 H6)).
Defined.

(** C3: the check of a control frame's length against 125 reads the 7-bit
    length field after 126 and 127 have been replaced by 0, before the extended
    length is read; a PING whose extended 16-bit length says 126 bytes is
    answered with a PONG, and the loop goes on to deliver the next message,
    instead of moving to CLOSE. *)
Theorem control_frame_length_unchecked :
  let ping := client_frame 1 OPCODE_PING LEN16 [1; 2; 3; 4] (repeat 97 126) in
  firstn 4 ping = [137; 254; 0; 126] /\
  mod_websocket_data_framing [ping ++ client_frame 1 OPCODE_TEXT LEN7 [1; 2; 3; 4] [104; 105]] =
  [Send MESSAGE_TYPE_PONG (repeat 97 126); OnMessage MESSAGE_TYPE_TEXT [104; 105];
   Send MESSAGE_TYPE_CLOSE []].
Proof. split; vm_compute; reflexivity. Qed.

(** ** Claims about the handshake *)

(** C4: [mod_websocket_handshake] sets [Sec-WebSocket-Accept] to
    base64(SHA1(key ++ GUID)), GUID being the 36 ASCII bytes of
    258EAFA5-E914-47DA-95CA-C5AB0DC85B11; for the key dGhlIHNhbXBsZSBub25jZQ==
    the value is s3pPLMBiTxaQ9kYGzzhZRbK+xOo=. *)
Theorem handshake_accept (headers_out : table) (key : string) :
  apr_table_get (mod_websocket_handshake headers_out key) "Sec-WebSocket-Accept" =
    Some (base64_encode (sha1 (bytes_of_string key ++ bytes_of_string WEBSOCKET_GUID))) /\
  bytes_of_string WEBSOCKET_GUID =
    [50; 53; 56; 69; 65; 70; 65; 53; 45; 69; 57; 49; 52; 45; 52; 55; 68; 65; 45;
     57; 53; 67; 65; 45; 67; 53; 65; 66; 48; 68; 67; 56; 53; 66; 49; 49] /\
  apr_table_get (mod_websocket_handshake headers_out "dGhlIHNhbXBsZSBub25jZQ==")
    "Sec-WebSocket-Accept" = Some "s3pPLMBiTxaQ9kYGzzhZRbK+xOo="%string.
Proof.
  assert (G : firstn WEBSOCKET_GUID_LEN (bytes_of_string WEBSOCKET_GUID) =
              bytes_of_string WEBSOCKET_GUID) by reflexivity.
  unfold mod_websocket_handshake. rewrite G, !apr_table_get_setn.
  split; [reflexivity|split; [reflexivity|vm_compute; reflexivity]].
Qed.

(** C1: the handler returns DECLINED, with the response headers untouched and no
    event (no session), exactly when [handshake_requirements] fails: the
    handler name, GET, a parsed path, [Upgrade] equal to [WebSocket] and
    [Connection] equal to [Upgrade] (whole values, case-insensitive),
    [Host], [Sec-WebSocket-Key] and [Sec-WebSocket-Origin] present,
    [Sec-WebSocket-Version] equal to [7], and a configured plugin. *)
Theorem handshake_declines_exactly (r : request) (conf : option plugin) (reads : list (list Z)) :
  (fst (fst (mod_websocket_method_handler r conf reads)) = DECLINED <->
   handshake_requirements r conf = false) /\
  (handshake_requirements r conf = false ->
   mod_websocket_method_handler r conf reads = (DECLINED, r_headers_out r, [])).
Proof.
  split; [|apply handler_declined].
  destruct (handshake_requirements r conf) eqn:E.
  - destruct (requirements_conf r conf E) as [p ->].
    destruct (handler_unfold r p reads E) as [h0 ->]. cbv zeta.
    split; [|discriminate]. intros Hd. exfalso.
    destruct (on_connect p) as [f|]; [|discriminate Hd].
    destruct (f (offered_protocols r)) as [pp ch]. destruct (pp =? 0); discriminate Hd.
  - rewrite (handler_declined r conf reads E). split; reflexivity.
Qed.

(** C1: requests the spec accepts and the handler declines: a [Connection]
    header listing [keep-alive, Upgrade], and a request carrying [Origin] but no
    [Sec-WebSocket-Origin]. *)
Lemma connection_token_list_declined :
  let hin1 := [("Upgrade", "websocket"); ("Connection", "keep-alive, Upgrade");
               ("Host", "example.com"); ("Sec-WebSocket-Key", "dGhlIHNhbXBsZSBub25jZQ==");
               ("Sec-WebSocket-Origin", "http://example.com"); ("Sec-WebSocket-Version", "7")]%string in
  let hin2 := [("Upgrade", "websocket"); ("Connection", "Upgrade");
               ("Host", "example.com"); ("Sec-WebSocket-Key", "dGhlIHNhbXBsZSBub25jZQ==");
               ("Origin", "http://example.com"); ("Sec-WebSocket-Version", "7")]%string in
  let p := mk_plugin None false in
  spec_handshake_accepts (mk_request "websocket-handler" M_GET true hin1 []) = true /\
  fst (fst (mod_websocket_method_handler (mk_request "websocket-handler" M_GET true hin1 [])
              (Some p) [])) = DECLINED /\
  spec_handshake_accepts (mk_request "websocket-handler" M_GET true hin2 []) = true /\
  fst (fst (mod_websocket_method_handler (mk_request "websocket-handler" M_GET true hin2 [])
              (Some p) [])) = DECLINED.
Proof. vm_compute. repeat split. Qed.

(** C8: the offered protocols are the [Sec-WebSocket-Protocol] value cut at
    every comma, space and tab, empty pieces dropped; [protocol_count] and
    [protocol_index] expose that list; the headers [on_connect] sees name the
    first protocol, and the response keeps it unless [on_connect] chose another
    one with [protocol_set]. *)
Theorem protocol_negotiation (r : request) (p : plugin) (f : list string -> Z * option string)
    (reads : list (list Z)) (v first : string) (others : list string) :
  handshake_requirements r (Some p) = true ->
  apr_table_get (r_headers_in r) "Sec-WebSocket-Protocol" = Some v ->
  on_connect p = Some f ->
  split_names protocol_separators v = first :: others ->
  mod_websocket_parse_protocol v = first :: others /\
  offered_protocols r = first :: others /\
  mod_websocket_protocol_count (first :: others) = length (first :: others) /\
  (forall i, mod_websocket_protocol_index (first :: others) i = nth_error (first :: others) i) /\
  (exists h0 evs,
     snd (mod_websocket_method_handler r (Some p) reads) = EvOnConnect h0 :: evs /\
     apr_table_get h0 "Sec-WebSocket-Protocol" = Some first /\
     apr_table_get (snd (fst (mod_websocket_method_handler r (Some p) reads)))
       "Sec-WebSocket-Protocol" =
       Some (match snd (f (first :: others)) with Some c => c | None => first end)).
Proof.
  intros Hreq Hv Hf Hs.
  assert (Hp : mod_websocket_parse_protocol v = first :: others)
    by (rewrite parse_protocol_split; exact Hs).
  assert (Ho : offered_protocols r = first :: others)
    by (unfold offered_protocols; rewrite Hv; exact Hp).
  split; [exact Hp|split; [exact Ho|split; [reflexivity|split; [apply protocol_index_nth|]]]].
  destruct (handler_unfold r p reads Hreq) as [h0 E]. rewrite E. cbv zeta.
  rewrite Ho, Hf.
  change (mod_websocket_protocol_index (first :: others) 0) with (Some first).
  change ((0 <? mod_websocket_protocol_count (first :: others))%nat) with true.
  cbn iota beta.
  destruct (f (first :: others)) as [pp ch]. simpl snd.
  exists (mod_websocket_protocol_set h0 (Some first)).
  assert (G : apr_table_get (mod_websocket_protocol_set h0 (Some first))
                "Sec-WebSocket-Protocol" = Some first) by apply apr_table_get_setn.
  destruct (pp =? 0).
  - eexists. split; [reflexivity|split; [exact G|]].
    destruct ch; simpl; [apply apr_table_get_setn|exact G].
  - eexists. split; [reflexivity|split; [exact G|]].
    destruct ch; simpl; [apply apr_table_get_setn|exact G].
Qed.

Lemma protocol_negotiation_witness :
  let r := mk_request "websocket-handler" M_GET true
             [("Upgrade", "websocket"); ("Connection", "Upgrade"); ("Host", "example.com");
              ("Sec-WebSocket-Key", "dGhlIHNhbXBsZSBub25jZQ==");
              ("Sec-WebSocket-Origin", "http://example.com"); ("Sec-WebSocket-Version", "7");
              ("Sec-WebSocket-Protocol", "a, b , c")]%string [] in
  let f := fun _ : list string => (1, @None string) in
  let p := mk_plugin (Some f) true in
  (handshake_requirements r (Some p) = true /\
   apr_table_get (r_headers_in r) "Sec-WebSocket-Protocol" = Some "a, b , c"%string /\
   on_connect p = Some f /\
   split_names protocol_separators "a, b , c" = ["a"; "b"; "c"]%string) /\
  mod_websocket_parse_protocol "a, b , c" = ["a"; "b"; "c"]%string /\
  mod_websocket_protocol_count ["a"; "b"; "c"]%string = 3%nat /\
  apr_table_get (snd (fst (mod_websocket_method_handler r (Some p) [])))
    "Sec-WebSocket-Protocol" = Some "a"%string.
Proof.
  intros r f p.
  assert (H1 : handshake_requirements r (Some p) = true) by (vm_compute; reflexivity).
  assert (H2 : apr_table_get (r_headers_in r) "Sec-WebSocket-Protocol" = Some "a, b , c"%string)
    by reflexivity.
  assert (H3 : on_connect p = Some f) by reflexivity.
  assert (H4 : split_names protocol_separators "a, b , c" = ["a"; "b"; "c"]%string)
    by reflexivity.
  destruct (protocol_negotiation r p f [] "a, b , c" "a" ["b"; "c"]%string H1 H2 H3 H4)
    as [E1 [_ [E3 [_ [h0 [evs [_ [_ E5]]]]]]]].
  split; [tauto|split; [exact E1|split; [exact E3|exact E5]]].
Defined.

(** C8: a space inside a comma-separated piece splits it: [chat v2] is offered
    as two protocols, where the spec's comma list has one. *)
Lemma protocol_split_on_blank :
  mod_websocket_parse_protocol "chat v2" = ["chat"; "v2"]%string /\
  spec_comma_list "chat v2" = ["chat v2"]%string.
Proof. split; reflexivity. Qed.

(** C9: once the handler's checks pass, without [on_connect] the connection is
    upgraded with private value 0 (NULL); with [on_connect], a result of 0 ends
    the request after the [on_connect] call (no 101, no framing loop, no
    [on_disconnect]), and any other result upgrades the connection with it.
    An upgraded connection ([upgraded]) sends the 101, runs the framing loop,
    then calls [on_disconnect] once when the plugin has one, then closes. *)
Theorem plugin_lifecycle (r : request) (p : plugin) (reads : list (list Z)) :
  handshake_requirements r (Some p) = true ->
  match on_connect p with
  | None => exists h, snd (mod_websocket_method_handler r (Some p) reads) = upgraded p h 0 reads
  | Some f =>
      let plugin_private := fst (f (offered_protocols r)) in
      (plugin_private = 0 ->
       exists h, snd (mod_websocket_method_handler r (Some p) reads) = [EvOnConnect h]) /\
      (plugin_private <> 0 ->
       exists h h', snd (mod_websocket_method_handler r (Some p) reads) =
                    EvOnConnect h :: upgraded p h' plugin_private reads)
  end.
Proof.
  intros Hreq. destruct (handler_unfold r p reads Hreq) as [h0 E]. rewrite E. cbv zeta.
  destruct (on_connect p) as [f|]; [|eexists; reflexivity].
  destruct (f (offered_protocols r)) as [pp ch]. simpl fst.
  split; intros Hpp.
  - subst pp. simpl. eexists. reflexivity.
  - apply Z.eqb_neq in Hpp. rewrite Hpp. simpl. do 2 eexists. reflexivity.
Qed.

Lemma plugin_lifecycle_witness :
  let r := mk_request "websocket-handler" M_GET true
             [("Upgrade", "websocket"); ("Connection", "Upgrade"); ("Host", "example.com");
              ("Sec-WebSocket-Key", "dGhlIHNhbXBsZSBub25jZQ==");
              ("Sec-WebSocket-Origin", "http://example.com"); ("Sec-WebSocket-Version", "7")]%string
             [] in
  let p := mk_plugin None true in
  handshake_requirements r (Some p) = true /\
  exists h, snd (mod_websocket_method_handler r (Some p) []) = upgraded p h 0 [].
Proof.
  intros r p.
  assert (H : handshake_requirements r (Some p) = true) by (vm_compute; reflexivity).
  split; [exact H|exact (plugin_lifecycle r p [] H)].
Defined.

(** C9: without [on_connect], the framing loop and [on_disconnect] are given
    the private value 0, NULL, not a non-null value. *)
Lemma no_on_connect_private_null :
  let r := mk_request "websocket-handler" M_GET true
             [("Upgrade", "websocket"); ("Connection", "Upgrade"); ("Host", "example.com");
              ("Sec-WebSocket-Key", "dGhlIHNhbXBsZSBub25jZQ==");
              ("Sec-WebSocket-Origin", "http://example.com"); ("Sec-WebSocket-Version", "7")]%string
             [] in
  let res := mod_websocket_method_handler r (Some (mk_plugin None true)) [] in
  nth_error (snd res) 1 = Some (EvDataFraming 0 [Send MESSAGE_TYPE_CLOSE []]) /\
  nth_error (snd res) 2 = Some (EvOnDisconnect 0).
Proof. vm_compute. split; reflexivity. Qed.

(** ** Further properties of the code *)

Ltac frame_good_tac :=
  unfold frame_good, frame_spec_ok, within_limit, is_byte, payload_limit; simpl;
  repeat split; repeat (apply Forall_cons || apply Forall_nil); lia.

Ltac units_ok_tac :=
  repeat (apply Forall_cons || apply Forall_nil); cbn [unit_ok];
  first [ split; [first [left; reflexivity | right; reflexivity] |
                  repeat (apply Forall_cons || apply Forall_nil); frame_good_tac]
        | frame_good_tac ].

Ltac nonempty_tac := repeat (apply Forall_cons || apply Forall_nil); discriminate.

Ltac bits_tac := vm_compute; first [reflexivity | congruence].

(** X1: Any sequence of well-formed client units (whole TEXT or BINARY messages,
    fragmented or not, PINGs and PONGs), read in any cutting into blocks, gives one
    [on_message] per message with its type and whole payload, one PONG carrying the
    payload of each PING, nothing for a PONG, then the server's CLOSE. *)
Theorem units_delivered (units : list client_unit) (reads : list (list Z)) :
  Forall unit_ok units -> reads_of (concat (map encode_unit units)) reads ->
  mod_websocket_data_framing reads = concat (map unit_actions units) ++ [Send MESSAGE_TYPE_CLOSE []].
Proof.
  intros Hok Hr. rewrite data_framing_concat by exact (reads_nonempty _ _ Hr).
  destruct Hr as [Hc _]. rewrite Hc.
  rewrite <- (app_nil_r (concat (map encode_unit units))).
  destruct (block_units units framing_init 0 [] Hok framing_init_idle) as [st' [o' [E _]]].
  rewrite E. simpl. rewrite app_nil_r. reflexivity.
Qed.

Lemma units_delivered_witness :
  let units := [UMessage OPCODE_TEXT (mk_frame_spec LEN7 [1; 2; 3; 4] [104; 105])
                  [mk_frame_spec LEN16 [0; 0; 0; 0] [33]];
                UPing (mk_frame_spec LEN7 [5; 6; 7; 8] [120]);
                UPong (mk_frame_spec LEN7 [9; 9; 9; 9] []);
                UMessage OPCODE_BINARY (mk_frame_spec LEN64 [1; 1; 1; 1] [0; 255]) []] in
  let stream := concat (map encode_unit units) in
  (Forall unit_ok units /\ reads_of stream [firstn 7 stream; skipn 7 stream]) /\
  mod_websocket_data_framing [firstn 7 stream; skipn 7 stream] =
  concat (map unit_actions units) ++ [Send MESSAGE_TYPE_CLOSE []].
Proof.
  intros units stream.
  assert (H1 : Forall unit_ok units) by (unfold units; units_ok_tac).
  assert (H2 : reads_of stream [firstn 7 stream; skipn 7 stream]).
  { split; [apply firstn_skipn|]. unfold stream, units, BLOCK_DATA_SIZE.
    repeat (apply Forall_cons || apply Forall_nil); (split; [discriminate|simpl; lia]). }
  split; [tauto|]. exact (units_delivered units _ H1 H2).
Defined.

(** X2: After any well-formed units, a frame whose first byte has RSV1, RSV2 or
    RSV3 set ends the loop: the actions of the units, then the server's CLOSE;
    nothing of that frame or of what follows is delivered. *)
Theorem reserved_bits_close (units : list client_unit) (b : Z) (rest : list Z)
    (reads : list (list Z)) :
  Forall unit_ok units ->
  (FRAME_GET_RSV1 b <> 0 \/ FRAME_GET_RSV2 b <> 0 \/ FRAME_GET_RSV3 b <> 0) ->
  Forall (fun blk => blk <> []) reads -> concat reads = concat (map encode_unit units) ++ b :: rest ->
  mod_websocket_data_framing reads = concat (map unit_actions units) ++ [Send MESSAGE_TYPE_CLOSE []].
Proof.
  intros Hok Hr Hne Hc. apply (units_then_stop units (b :: rest)); auto.
  intros st o Hid. apply (closes_from st (set_framing_state st DATA_FRAMING_CLOSE) b rest (b :: rest)).
  - exact (idle_inv _ _ Hid).
  - apply start_rsv; [apply Hid|exact Hr].
  - reflexivity.
Qed.

Lemma reserved_bits_close_witness :
  let units := [UMessage OPCODE_TEXT (mk_frame_spec LEN7 [1; 2; 3; 4] [104; 105]) [];
                UPing (mk_frame_spec LEN7 [5; 6; 7; 8] [120])] in
  let reads := [concat (map encode_unit units); [193; 0]] in
  (Forall unit_ok units /\
   (FRAME_GET_RSV1 193 <> 0 \/ FRAME_GET_RSV2 193 <> 0 \/ FRAME_GET_RSV3 193 <> 0) /\
   Forall (fun blk => blk <> []) reads /\ concat reads = concat (map encode_unit units) ++ [193; 0]) /\
  mod_websocket_data_framing reads = concat (map unit_actions units) ++ [Send MESSAGE_TYPE_CLOSE []].
Proof.
  intros units reads.
  assert (H1 : Forall unit_ok units) by (unfold units; units_ok_tac).
  assert (H2 : FRAME_GET_RSV1 193 <> 0 \/ FRAME_GET_RSV2 193 <> 0 \/ FRAME_GET_RSV3 193 <> 0)
    by (left; bits_tac).
  assert (H3 : Forall (fun blk => blk <> []) reads) by (unfold reads, units; nonempty_tac).
  assert (H4 : concat reads = concat (map encode_unit units) ++ [193; 0]) by reflexivity.
  split; [tauto|]. exact (reserved_bits_close units 193 [0] reads H1 H2 H3 H4).
Defined.

(** X3: After any well-formed units, a control opcode (8 or more) with FIN=0
    ends the loop with nothing more delivered or answered. *)
Theorem control_without_fin_close (units : list client_unit) (b : Z) (rest : list Z)
    (reads : list (list Z)) :
  Forall unit_ok units ->
  FRAME_GET_RSV1 b = 0 -> FRAME_GET_RSV2 b = 0 -> FRAME_GET_RSV3 b = 0 ->
  FRAME_GET_FIN b = 0 -> FRAME_GET_OPCODE b >= 8 ->
  Forall (fun blk => blk <> []) reads -> concat reads = concat (map encode_unit units) ++ b :: rest ->
  mod_websocket_data_framing reads = concat (map unit_actions units) ++ [Send MESSAGE_TYPE_CLOSE []].
Proof.
  intros Hok H1 H2 H3 Hf Hop Hne Hc. apply (units_then_stop units (b :: rest)); auto.
  intros st o Hid.
  destruct (start_control_nofin st b rest ltac:(apply Hid) H1 H2 H3 Hf Hop) as [s1 [E Hs1]].
  exact (closes_from st s1 b rest rest (idle_inv _ _ Hid) E Hs1).
Qed.

Lemma control_without_fin_close_witness :
  let units := [UPong (mk_frame_spec LEN7 [5; 6; 7; 8] [120]);
                UMessage OPCODE_BINARY (mk_frame_spec LEN16 [1; 2; 3; 4] [0; 255]) []] in
  let reads := [concat (map encode_unit units) ++ [9]; [128]] in
  (Forall unit_ok units /\ FRAME_GET_RSV1 9 = 0 /\ FRAME_GET_RSV2 9 = 0 /\ FRAME_GET_RSV3 9 = 0 /\
   FRAME_GET_FIN 9 = 0 /\ FRAME_GET_OPCODE 9 >= 8 /\
   Forall (fun blk => blk <> []) reads /\ concat reads = concat (map encode_unit units) ++ [9; 128]) /\
  mod_websocket_data_framing reads = concat (map unit_actions units) ++ [Send MESSAGE_TYPE_CLOSE []].
Proof.
  intros units reads.
  assert (H0 : Forall unit_ok units) by (unfold units; units_ok_tac).
  assert (H1 : FRAME_GET_RSV1 9 = 0) by bits_tac.
  assert (H2 : FRAME_GET_RSV2 9 = 0) by bits_tac.
  assert (H3 : FRAME_GET_RSV3 9 = 0) by bits_tac.
  assert (H4 : FRAME_GET_FIN 9 = 0) by bits_tac.
  assert (H5 : FRAME_GET_OPCODE 9 >= 8) by bits_tac.
  assert (H6 : Forall (fun blk => blk <> []) reads) by (unfold reads, units; nonempty_tac).
  assert (H7 : concat reads = concat (map encode_unit units) ++ [9; 128]) by reflexivity.
  split; [tauto|]. exact (control_without_fin_close units 9 [128] reads H0 H1 H2 H3 H4 H5 H6 H7).
Defined.

(** X4: After any well-formed units (no message in progress), a CONTINUATION
    frame ends the loop with nothing more delivered or answered. *)
Theorem continuation_without_message_close (units : list client_unit) (b : Z) (rest : list Z)
    (reads : list (list Z)) :
  Forall unit_ok units ->
  FRAME_GET_RSV1 b = 0 -> FRAME_GET_RSV2 b = 0 -> FRAME_GET_RSV3 b = 0 ->
  FRAME_GET_OPCODE b = OPCODE_CONTINUATION ->
  Forall (fun blk => blk <> []) reads -> concat reads = concat (map encode_unit units) ++ b :: rest ->
  mod_websocket_data_framing reads = concat (map unit_actions units) ++ [Send MESSAGE_TYPE_CLOSE []].
Proof.
  intros Hok H1 H2 H3 Hop Hne Hc. apply (units_then_stop units (b :: rest)); auto.
  intros st o Hid.
  destruct (start_continuation_idle st [] 1 o b rest Hid ltac:(discriminate) H1 H2 H3 Hop)
    as [s1 [E Hs1]].
  exact (closes_from st s1 b rest rest (idle_inv _ _ Hid) E Hs1).
Qed.

Lemma continuation_without_message_close_witness :
  let units := [UMessage OPCODE_TEXT (mk_frame_spec LEN7 [1; 2; 3; 4] [104])
                  [mk_frame_spec LEN7 [9; 9; 9; 9] [105]]] in
  let reads := [concat (map encode_unit units) ++ [128; 129]] in
  (Forall unit_ok units /\ FRAME_GET_RSV1 128 = 0 /\ FRAME_GET_RSV2 128 = 0 /\
   FRAME_GET_RSV3 128 = 0 /\ FRAME_GET_OPCODE 128 = OPCODE_CONTINUATION /\
   Forall (fun blk => blk <> []) reads /\ concat reads = concat (map encode_unit units) ++ [128; 129]) /\
  mod_websocket_data_framing reads = concat (map unit_actions units) ++ [Send MESSAGE_TYPE_CLOSE []].
Proof.
  intros units reads.
  assert (H0 : Forall unit_ok units) by (unfold units; units_ok_tac).
  assert (H1 : FRAME_GET_RSV1 128 = 0) by bits_tac.
  assert (H2 : FRAME_GET_RSV2 128 = 0) by bits_tac.
  assert (H3 : FRAME_GET_RSV3 128 = 0) by bits_tac.
  assert (H4 : FRAME_GET_OPCODE 128 = OPCODE_CONTINUATION) by bits_tac.
  assert (H6 : Forall (fun blk => blk <> []) reads) by (unfold reads, units; nonempty_tac).
  assert (H7 : concat reads = concat (map encode_unit units) ++ [128; 129]) by reflexivity.
  split; [tauto|].
  exact (continuation_without_message_close units 128 [129] reads H0 H1 H2 H3 H4 H6 H7).
Defined.

(** X5: After any well-formed units, an accepted first header byte followed by a
    length byte with MASK=0 ends the loop with nothing more delivered or answered. *)
Theorem unmasked_frame_close (units : list client_unit) (b0 b1 : Z) (rest : list Z)
    (reads : list (list Z)) :
  Forall unit_ok units ->
  FRAME_GET_RSV1 b0 = 0 -> FRAME_GET_RSV2 b0 = 0 -> FRAME_GET_RSV3 b0 = 0 ->
  FRAME_GET_OPCODE b0 <> 0 -> (FRAME_GET_OPCODE b0 >= 8 -> FRAME_GET_FIN b0 <> 0) ->
  FRAME_GET_MASK b1 = 0 ->
  Forall (fun blk => blk <> []) reads ->
  concat reads = concat (map encode_unit units) ++ b0 :: b1 :: rest ->
  mod_websocket_data_framing reads = concat (map unit_actions units) ++ [Send MESSAGE_TYPE_CLOSE []].
Proof.
  intros Hok H1 H2 H3 Hop Hctl Hm Hne Hc. apply (units_then_stop units (b0 :: b1 :: rest)); auto.
  intros st o Hid.
  destruct (start_accepts st [] 1 o b0 (b1 :: rest) Hid ltac:(discriminate) H1 H2 H3 Hop Hctl
              ltac:(discriminate)) as [S0 [E _]].
  destruct (payload_length_unmasked S0 b1 rest Hm) as [s1 [E1 Hs1]].
  rewrite E1 in E. exact (closes_from st s1 b0 (b1 :: rest) rest (idle_inv _ _ Hid) E Hs1).
Qed.

Lemma unmasked_frame_close_witness :
  let units := [UPing (mk_frame_spec LEN7 [5; 6; 7; 8] [])] in
  let reads := [concat (map encode_unit units); [129]; [2; 104; 105]] in
  (Forall unit_ok units /\ FRAME_GET_RSV1 129 = 0 /\ FRAME_GET_RSV2 129 = 0 /\
   FRAME_GET_RSV3 129 = 0 /\ FRAME_GET_OPCODE 129 <> 0 /\
   (FRAME_GET_OPCODE 129 >= 8 -> FRAME_GET_FIN 129 <> 0) /\ FRAME_GET_MASK 2 = 0 /\
   Forall (fun blk => blk <> []) reads /\
   concat reads = concat (map encode_unit units) ++ [129; 2; 104; 105]) /\
  mod_websocket_data_framing reads = concat (map unit_actions units) ++ [Send MESSAGE_TYPE_CLOSE []].
Proof.
  intros units reads.
  assert (H0 : Forall unit_ok units) by (unfold units; units_ok_tac).
  assert (H1 : FRAME_GET_RSV1 129 = 0) by bits_tac.
  assert (H2 : FRAME_GET_RSV2 129 = 0) by bits_tac.
  assert (H3 : FRAME_GET_RSV3 129 = 0) by bits_tac.
  assert (H4 : FRAME_GET_OPCODE 129 <> 0) by bits_tac.
  assert (H5 : FRAME_GET_OPCODE 129 >= 8 -> FRAME_GET_FIN 129 <> 0) by (intros _; bits_tac).
  assert (H8 : FRAME_GET_MASK 2 = 0) by bits_tac.
  assert (H6 : Forall (fun blk => blk <> []) reads) by (unfold reads, units; nonempty_tac).
  assert (H7 : concat reads = concat (map encode_unit units) ++ [129; 2; 104; 105]) by reflexivity.
  split; [tauto|].
  exact (unmasked_frame_close units 129 2 [104; 105] reads H0 H1 H2 H3 H4 H5 H8 H6 H7).
Defined.

(** X6: After any well-formed units, a 64-bit payload length above the 32 MiB
    limit (from 2^63 on it wraps to a negative [apr_int64_t]) ends the loop with
    nothing more delivered or answered. *)
Theorem oversized_frame_close (units : list client_unit) (b0 L : Z) (rest : list Z)
    (reads : list (list Z)) :
  Forall unit_ok units ->
  FRAME_GET_RSV1 b0 = 0 -> FRAME_GET_RSV2 b0 = 0 -> FRAME_GET_RSV3 b0 = 0 ->
  FRAME_GET_OPCODE b0 <> 0 -> (FRAME_GET_OPCODE b0 >= 8 -> FRAME_GET_FIN b0 <> 0) ->
  payload_limit < L < 2 ^ 64 ->
  Forall (fun blk => blk <> []) reads ->
  concat reads = concat (map encode_unit units) ++ b0 :: 255 :: be_bytes 8 L ++ rest ->
  mod_websocket_data_framing reads = concat (map unit_actions units) ++ [Send MESSAGE_TYPE_CLOSE []].
Proof.
  intros Hok H1 H2 H3 Hop Hctl HL Hne Hc.
  apply (units_then_stop units (b0 :: 255 :: be_bytes 8 L ++ rest)); auto.
  intros st o Hid.
  destruct (start_accepts st [] 1 o b0 (255 :: be_bytes 8 L ++ rest) Hid ltac:(discriminate)
              H1 H2 H3 Hop Hctl ltac:(discriminate)) as [S0 [E _]].
  destruct (payload_length_too_long S0 L rest HL) as [s1 [E1 Hs1]].
  rewrite E1 in E. exact (closes_from st s1 b0 _ rest (idle_inv _ _ Hid) E Hs1).
Qed.

Lemma oversized_frame_close_witness :
  let units := [UMessage OPCODE_TEXT (mk_frame_spec LEN64 [1; 2; 3; 4] [104; 105]) []] in
  let L := payload_limit + 1 in
  let reads := [concat (map encode_unit units) ++ [130]; 255 :: be_bytes 8 L] in
  (Forall unit_ok units /\ FRAME_GET_RSV1 130 = 0 /\ FRAME_GET_RSV2 130 = 0 /\
   FRAME_GET_RSV3 130 = 0 /\ FRAME_GET_OPCODE 130 <> 0 /\
   (FRAME_GET_OPCODE 130 >= 8 -> FRAME_GET_FIN 130 <> 0) /\ payload_limit < L < 2 ^ 64 /\
   Forall (fun blk => blk <> []) reads /\
   concat reads = concat (map encode_unit units) ++ 130 :: 255 :: be_bytes 8 L ++ []) /\
  mod_websocket_data_framing reads = concat (map unit_actions units) ++ [Send MESSAGE_TYPE_CLOSE []].
Proof.
  intros units L reads.
  assert (H0 : Forall unit_ok units) by (unfold units; units_ok_tac).
  assert (H1 : FRAME_GET_RSV1 130 = 0) by bits_tac.
  assert (H2 : FRAME_GET_RSV2 130 = 0) by bits_tac.
  assert (H3 : FRAME_GET_RSV3 130 = 0) by bits_tac.
  assert (H4 : FRAME_GET_OPCODE 130 <> 0) by bits_tac.
  assert (H5 : FRAME_GET_OPCODE 130 >= 8 -> FRAME_GET_FIN 130 <> 0) by (intros _; bits_tac).
  assert (H8 : payload_limit < L < 2 ^ 64) by (unfold L, payload_limit; lia).
  assert (H6 : Forall (fun blk => blk <> []) reads) by (unfold reads, units; nonempty_tac).
  assert (H7 : concat reads = concat (map encode_unit units) ++ 130 :: 255 :: be_bytes 8 L ++ [])
    by reflexivity.
  split; [tauto|].
  exact (oversized_frame_close units 130 L [] reads H0 H1 H2 H3 H4 H5 H8 H6 H7).
Defined.



(** X8: A fragmented TEXT or BINARY message still open (its frames with FIN=0)
    when a header with a data opcode 1 to 7 arrives ends the loop: the partial
    message is never delivered. *)
Theorem data_frame_inside_message_close (units : list client_unit) (op : Z) (first : frame_spec)
    (mids : list frame_spec) (b : Z) (rest : list Z) (reads : list (list Z)) :
  Forall unit_ok units -> (op = OPCODE_TEXT \/ op = OPCODE_BINARY) ->
  Forall frame_good (first :: mids) ->
  FRAME_GET_RSV1 b = 0 -> FRAME_GET_RSV2 b = 0 -> FRAME_GET_RSV3 b = 0 ->
  1 <= FRAME_GET_OPCODE b <= 7 ->
  Forall (fun blk => blk <> []) reads ->
  concat reads = concat (map encode_unit units) ++ encode_open_fragments op first mids ++ b :: rest ->
  mod_websocket_data_framing reads = concat (map unit_actions units) ++ [Send MESSAGE_TYPE_CLOSE []].
Proof.
  intros Hok Hop Hfs H1 H2 H3 Hb Hne Hc.
  apply (units_then_stop units (encode_open_fragments op first mids ++ b :: rest)); auto.
  intros st o Hid.
  destruct (block_open_fragments op first mids st [] 1 o (b :: rest) Hid ltac:(discriminate) Hop Hfs)
    as [st1 [E Hid1]].
  rewrite E.
  destruct (start_data_in_message st1 _ op b rest Hid1 H1 H2 H3 Hb) as [s1 [E1 Hs1]].
  exact (closes_from st1 s1 b rest rest (idle_inv _ _ Hid1) E1 Hs1).
Qed.

Lemma data_frame_inside_message_close_witness :
  let units := [UPing (mk_frame_spec LEN7 [5; 6; 7; 8] [120])] in
  let f1 := mk_frame_spec LEN7 [1; 2; 3; 4] [104; 105] in
  let reads := [concat (map encode_unit units) ++ encode_open_fragments OPCODE_TEXT f1 [] ++ [129]] in
  (Forall unit_ok units /\ (OPCODE_TEXT = OPCODE_TEXT \/ OPCODE_TEXT = OPCODE_BINARY) /\
   Forall frame_good [f1] /\ FRAME_GET_RSV1 129 = 0 /\ FRAME_GET_RSV2 129 = 0 /\
   FRAME_GET_RSV3 129 = 0 /\ 1 <= FRAME_GET_OPCODE 129 <= 7 /\
   Forall (fun blk => blk <> []) reads /\
   concat reads = concat (map encode_unit units) ++ encode_open_fragments OPCODE_TEXT f1 [] ++ [129]) /\
  mod_websocket_data_framing reads = concat (map unit_actions units) ++ [Send MESSAGE_TYPE_CLOSE []].
Proof.
  intros units f1 reads.
  assert (H0 : Forall unit_ok units) by (unfold units; units_ok_tac).
  assert (Ho : OPCODE_TEXT = OPCODE_TEXT \/ OPCODE_TEXT = OPCODE_BINARY) by (left; reflexivity).
  assert (Hf : Forall frame_good [f1]) by (constructor; [unfold f1; frame_good_tac | constructor]).
  assert (H1 : FRAME_GET_RSV1 129 = 0) by bits_tac.
  assert (H2 : FRAME_GET_RSV2 129 = 0) by bits_tac.
  assert (H3 : FRAME_GET_RSV3 129 = 0) by bits_tac.
  assert (H4 : 1 <= FRAME_GET_OPCODE 129 <= 7) by (split; bits_tac).
  assert (H6 : Forall (fun blk => blk <> []) reads) by (unfold reads, units; nonempty_tac).
  assert (H7 : concat reads =
               concat (map encode_unit units) ++ encode_open_fragments OPCODE_TEXT f1 [] ++ [129])
    by reflexivity.
  split; [tauto|].
  exact (data_frame_inside_message_close units OPCODE_TEXT f1 [] 129 [] reads
           H0 Ho Hf H1 H2 H3 H4 H6 H7).
Defined.

(** X9: Two ways of cutting the same byte stream into non-empty reads give the
    same actions. *)
Theorem framing_independent_of_reads (r1 r2 : list (list Z)) :
  Forall (fun blk => blk <> []) r1 -> Forall (fun blk => blk <> []) r2 -> concat r1 = concat r2 ->
  mod_websocket_data_framing r1 = mod_websocket_data_framing r2.
Proof.
  intros H1 H2 Hc. rewrite (data_framing_concat r1 H1), (data_framing_concat r2 H2), Hc.
  reflexivity.
Qed.

Lemma framing_independent_of_reads_witness :
  let r1 := [[129; 130; 1; 2]; [3; 4; 105; 107]] in
  let r2 := [[129]; [130; 1; 2; 3; 4]; [105]; [107]] in
  (Forall (fun blk => blk <> []) r1 /\ Forall (fun blk => blk <> []) r2 /\ concat r1 = concat r2) /\
  mod_websocket_data_framing r1 = mod_websocket_data_framing r2.
Proof.
  intros r1 r2.
  assert (H1 : Forall (fun blk => blk <> []) r1) by (unfold r1; nonempty_tac).
  assert (H2 : Forall (fun blk => blk <> []) r2) by (unfold r2; nonempty_tac).
  assert (H3 : concat r1 = concat r2) by reflexivity.
  split; [tauto|]. exact (framing_independent_of_reads r1 r2 H1 H2 H3).
Defined.

(** X10: A read returning 0 bytes ends the loop: what follows it is never read. *)
Theorem empty_read_ends_loop (r1 r2 : list (list Z)) :
  mod_websocket_data_framing (r1 ++ [] :: r2) = mod_websocket_data_framing r1.
Proof. unfold mod_websocket_data_framing. rewrite read_loop_empty_read. reflexivity. Qed.

(** X11: Whatever the input, the loop only calls [on_message] with TEXT or BINARY
    and only sends PONG frames; its only other output is the final CLOSE. *)
Theorem loop_actions_only_messages_and_pongs (reads : list (list Z)) :
  exists acts, mod_websocket_data_framing reads = acts ++ [Send MESSAGE_TYPE_CLOSE []] /\
    Forall loop_action_ok acts.
Proof.
  unfold mod_websocket_data_framing. pose proof (read_loop_ok reads framing_init) as H.
  destruct (read_loop framing_init reads) as [st acts]. exists acts. split; [reflexivity | exact H].
Qed.

(** X12: On an open session, [send] of a non-empty payload returns its length when
    the payload write and the flush succeed and 0 otherwise; the bytes handed to
    the sink and the [closing] flag do not depend on those results. *)
Theorem send_return_value (s : session) (ty : message_type) (b : list Z) (io io' : io_result) :
  st_r s = true -> st_obb s = true -> closing s = 0 -> b <> [] ->
  snd (mod_websocket_plugin_send s ty (Some b) io) =
    (if payload_write_ok io && flush_ok io then Z.of_nat (length b) else 0) /\
  fst (mod_websocket_plugin_send s ty (Some b) io) = fst (mod_websocket_plugin_send s ty (Some b) io').
Proof.
  intros Hr Hobb Hc Hb. unfold mod_websocket_plugin_send. rewrite Hr, Hobb, Hc. simpl buffer_length.
  assert (Hpos : (Z.of_nat (length b) >? 0) = true).
  { destruct b as [|x b]; [congruence|]. simpl length. apply Z.gtb_lt. lia. }
  simpl andb. destruct (send_opcode 0 ty) as [c1 op]. rewrite Hpos.
  split; [|reflexivity].
  destruct (payload_write_ok io), (flush_ok io); reflexivity.
Qed.

Lemma send_return_value_witness :
  let s := mk_session true true 0 [] in
  let io := mk_io true false in
  let io' := mk_io true true in
  (st_r s = true /\ st_obb s = true /\ closing s = 0 /\ [104; 105] <> []) /\
  snd (mod_websocket_plugin_send s MESSAGE_TYPE_TEXT (Some [104; 105]) io) =
    (if payload_write_ok io && flush_ok io then 2 else 0) /\
  fst (mod_websocket_plugin_send s MESSAGE_TYPE_TEXT (Some [104; 105]) io) =
    fst (mod_websocket_plugin_send s MESSAGE_TYPE_TEXT (Some [104; 105]) io').
Proof.
  intros s io io'.
  assert (H : [104; 105] <> []) by discriminate.
  split; [split; [reflexivity|split; [reflexivity|split; [reflexivity|exact H]]]|].
  exact (send_return_value s MESSAGE_TYPE_TEXT [104; 105] io io' eq_refl eq_refl eq_refl H).
Defined.



(** X14: On an open session, TEXT, BINARY, PING and PONG keep [closing] at 0 and
    start the frame with [0x80 | opcode]; every other type (CLOSE, INVALID) sets
    [closing] and sends a CLOSE frame. *)
Theorem send_closes_on_other_types (s : session) (ty : message_type) (buf : option (list Z))
    (io : io_result) :
  st_r s = true -> st_obb s = true -> closing s = 0 ->
  let s1 := fst (mod_websocket_plugin_send s ty buf io) in
  closing s1 = match ty with
               | MESSAGE_TYPE_TEXT | MESSAGE_TYPE_BINARY | MESSAGE_TYPE_PING
               | MESSAGE_TYPE_PONG => 0
               | _ => 1
               end /\
  exists rest, sink s1 = sink s ++
    (128 + match ty with
           | MESSAGE_TYPE_TEXT => OPCODE_TEXT
           | MESSAGE_TYPE_BINARY => OPCODE_BINARY
           | MESSAGE_TYPE_PING => OPCODE_PING
           | MESSAGE_TYPE_PONG => OPCODE_PONG
           | _ => OPCODE_CLOSE
           end) :: rest.
Proof.
  intros Hr Hobb Hc s1. unfold s1, mod_websocket_plugin_send. rewrite Hr, Hobb, Hc. simpl andb.
  destruct ty; cbn [send_opcode]; (split;
    [ destruct (buffer_length buf >? 0); reflexivity
    | destruct (buffer_length buf >? 0); eexists; cbn [sink]; unfold send_header;
      rewrite <- ?app_assoc; reflexivity ]).
Qed.

Lemma send_closes_on_other_types_witness :
  let s := mk_session true true 0 [] in
  let s1 := fst (mod_websocket_plugin_send s MESSAGE_TYPE_INVALID (Some [7]) (mk_io true true)) in
  (st_r s = true /\ st_obb s = true /\ closing s = 0) /\
  closing s1 = 1 /\ exists rest, sink s1 = sink s ++ (128 + OPCODE_CLOSE) :: rest.
Proof.
  intros s s1. split; [split; [reflexivity|split; reflexivity]|].
  exact (send_closes_on_other_types s MESSAGE_TYPE_INVALID (Some [7]) (mk_io true true)
           eq_refl eq_refl eq_refl).
Defined.

(** X15: [close] on an open session appends the frame [88 00] and sets [closing];
    on any other session it changes nothing. *)
Theorem plugin_close_effect (s : session) (io : io_result) :
  mod_websocket_plugin_close s io =
  if st_r s && st_obb s && (closing s =? 0) then mk_session (st_r s) (st_obb s) 1 (sink s ++ [136; 0])
  else s.
Proof.
  unfold mod_websocket_plugin_close, mod_websocket_plugin_send. simpl buffer_length.
  destruct (st_r s && st_obb s && (closing s =? 0)); reflexivity.
Qed.



(** X17: When no protocol is offered (no [Sec-WebSocket-Protocol] request header,
    or one with separators only), [on_connect] sees no protocol response header,
    and the response names a protocol only if [on_connect] chose one. *)
Theorem no_protocol_offered (r : request) (p : plugin) (reads : list (list Z)) :
  handshake_requirements r (Some p) = true -> offered_protocols r = [] ->
  apr_table_get (snd (fst (mod_websocket_method_handler r (Some p) reads)))
    "Sec-WebSocket-Protocol" =
  match on_connect p with Some f => snd (f []) | None => None end /\
  (forall h evs, snd (mod_websocket_method_handler r (Some p) reads) = EvOnConnect h :: evs ->
   apr_table_get h "Sec-WebSocket-Protocol" = None).
Proof.
  intros Hreq Ho. destruct (requirements_key r (Some p) Hreq) as [key Hk].
  rewrite (handler_unfold_key r p reads key Hreq Hk). cbv zeta. rewrite Ho.
  change ((0 <? mod_websocket_protocol_count [])%nat) with false. cbv iota.
  assert (H0 : apr_table_get (mod_websocket_handshake
                 (apr_table_setn (apr_table_setn [] "Upgrade" "websocket") "Connection" "Upgrade")
                 key) "Sec-WebSocket-Protocol" = None).
  { unfold mod_websocket_handshake. rewrite !apr_table_get_setn_any. reflexivity. }
  destruct (on_connect p) as [f|].
  - destruct (f []) as [pp ch]. simpl snd.
    assert (H1 : forall h, apr_table_get h "Sec-WebSocket-Protocol" = None ->
                 apr_table_get (mod_websocket_protocol_set h ch) "Sec-WebSocket-Protocol" = ch).
    { intros h Hh. destruct ch as [c|]; [apply apr_table_get_setn|exact Hh]. }
    destruct (pp =? 0); (split; [apply H1, H0|]); intros h evs E; simpl in E;
      injection E as <- _; exact H0.
  - split; [exact H0|]. intros h evs E. discriminate E.
Qed.

Lemma no_protocol_offered_witness :
  let r := mk_request "websocket-handler" M_GET true
             [("Upgrade", "websocket"); ("Connection", "Upgrade"); ("Host", "example.com");
              ("Sec-WebSocket-Key", "dGhlIHNhbXBsZSBub25jZQ==");
              ("Sec-WebSocket-Origin", "http://example.com"); ("Sec-WebSocket-Version", "7");
              ("Sec-WebSocket-Protocol", " ,, ")]%string [] in
  let p := mk_plugin (Some (fun _ => (1, @None string))) false in
  (handshake_requirements r (Some p) = true /\ offered_protocols r = []) /\
  apr_table_get (snd (fst (mod_websocket_method_handler r (Some p) []))) "Sec-WebSocket-Protocol"
    = None.
Proof.
  intros r p.
  assert (H1 : handshake_requirements r (Some p) = true) by (vm_compute; reflexivity).
  assert (H2 : offered_protocols r = []) by (vm_compute; reflexivity).
  split; [split; [exact H1|exact H2]|].
  exact (proj1 (no_protocol_offered r p [] H1 H2)).
Defined.

(** X18: The protocols parsed from a header are non-empty, hold no comma, space or
    tab, and together are the header's characters with the separators removed. *)
Theorem parse_protocol_tokens (v : string) :
  Forall (fun t => t <> EmptyString /\
                   Forall (fun c => is_sep protocol_separators c = false) (list_ascii_of_string t))
    (mod_websocket_parse_protocol v) /\
  concat (map list_ascii_of_string (mod_websocket_parse_protocol v)) =
    filter (fun c => negb (is_sep protocol_separators c)) (list_ascii_of_string v).
Proof.
  rewrite parse_protocol_split. unfold split_names.
  destruct (split_on_tokens protocol_separators (list_ascii_of_string v)) as [H1 H2].
  rewrite <- H2. clear H2.
  induction (split_on protocol_separators (list_ascii_of_string v)) as [|t ts IH];
    [split; [constructor|reflexivity]|].
  inversion H1 as [|t' ts' Ht Hts]; subst. destruct (IH Hts) as [IH1 IH2].
  cbn [filter]. destruct (nonempty_piece t) eqn:En.
  - cbn [map concat]. rewrite list_ascii_of_string_of_list_ascii.
    split; [|rewrite IH2; reflexivity].
    constructor; [|exact IH1]. rewrite list_ascii_of_string_of_list_ascii.
    split; [destruct t; [discriminate|discriminate]|exact Ht].
  - destruct t; [|discriminate]. split; [exact IH1|exact IH2].
Qed.

(** X19: The header yields no protocol exactly when all its characters are
    separators. *)
Theorem parse_protocol_empty_iff (v : string) :
  mod_websocket_parse_protocol v = [] <->
  Forall (fun c => is_sep protocol_separators c = true) (list_ascii_of_string v).
Proof.
  rewrite parse_protocol_split. unfold split_names. rewrite <- pieces_empty_iff.
  destruct (filter nonempty_piece _); split; intros H; try reflexivity; discriminate.
Qed.

(** X20: Names without separators, joined by a non-empty run of separators (such as
    [", "]), are parsed back to the same list. *)
Theorem parse_protocol_round_trip (d : string) (names : list string) :
  d <> EmptyString ->
  Forall (fun c => is_sep protocol_separators c = true) (list_ascii_of_string d) ->
  Forall (fun n => n <> EmptyString /\
                   Forall (fun c => is_sep protocol_separators c = false) (list_ascii_of_string n))
    names ->
  mod_websocket_parse_protocol (String.concat d names) = names.
Proof.
  intros Hd Hds Hn. rewrite parse_protocol_split. unfold split_names.
  induction Hn as [|n names [Hne Hnt] Hns IH]; [reflexivity|].
  assert (Hln : list_ascii_of_string n <> []) by (destruct n; [congruence|discriminate]).
  destruct names as [|m ms].
  - cbn [String.concat]. rewrite <- (app_nil_r (list_ascii_of_string n)).
    rewrite pieces_token by (auto). cbn. rewrite string_of_list_ascii_of_string. reflexivity.
  - change (String.concat d (n :: m :: ms)) with
      (String.append n (String.append d (String.concat d (m :: ms)))).
    rewrite !list_ascii_of_string_append.
    rewrite pieces_token; [|exact Hln|exact Hnt|].
    + rewrite pieces_seps by exact Hds. cbn [map].
      rewrite string_of_list_ascii_of_string. f_equal. exact IH.
    + right. destruct d as [|c d]; [congruence|]. inversion Hds; subst.
      eexists _, _. split; [reflexivity|assumption].
Qed.

Lemma parse_protocol_round_trip_witness :
  (", "%string <> EmptyString /\
   Forall (fun c => is_sep protocol_separators c = true) (list_ascii_of_string ", ") /\
   Forall (fun n => n <> EmptyString /\
                    Forall (fun c => is_sep protocol_separators c = false) (list_ascii_of_string n))
     ["chat"; "superchat"]%string) /\
  mod_websocket_parse_protocol (String.concat ", " ["chat"; "superchat"]%string) =
    ["chat"; "superchat"]%string.
Proof.
  assert (H1 : ", "%string <> EmptyString) by discriminate.
  assert (H2 : Forall (fun c => is_sep protocol_separators c = true) (list_ascii_of_string ", "))
    by (repeat constructor).
  assert (H3 : Forall (fun n => n <> EmptyString /\
                 Forall (fun c => is_sep protocol_separators c = false) (list_ascii_of_string n))
                 ["chat"; "superchat"]%string)
    by (repeat constructor; discriminate).
  split; [split; [exact H1|split; [exact H2|exact H3]]|].
  exact (parse_protocol_round_trip ", " _ H1 H2 H3).
Defined.

(** X21: For every key, [Sec-WebSocket-Accept] is 28 characters long and ends in
    exactly one [=] (the base64 form of a 20-byte digest). *)
Theorem accept_value_shape (headers_out : table) (key : string) :
  exists a, apr_table_get (mod_websocket_handshake headers_out key) "Sec-WebSocket-Accept" = Some a /\
    String.length a = 28%nat /\ String.get 27 a = Some "="%char /\ String.get 26 a <> Some "="%char.
Proof.
  unfold mod_websocket_handshake. rewrite apr_table_get_setn.
  eexists. split; [reflexivity|].
  set (m := bytes_of_string key ++ _).
  assert (Hl : exists b0 b1 b2 b3 b4 b5 b6 b7 b8 b9 b10 b11 b12 b13 b14 b15 b16 b17 b18 b19,
            sha1 m = [b0; b1; b2; b3; b4; b5; b6; b7; b8; b9; b10; b11; b12; b13; b14; b15;
                      b16; b17; b18; b19] /\ 0 <= b19 < 256).
  { unfold sha1. destruct (sha1_blocks _ _ _) as [[[[h0 h1] h2] h3] h4].
    cbn [be_bytes app]. do 20 eexists. split; [reflexivity|].
    apply Z.mod_pos_bound. lia. }
  destruct Hl as (b0 & b1 & b2 & b3 & b4 & b5 & b6 & b7 & b8 & b9 & b10 & b11 & b12 & b13 &
                  b14 & b15 & b16 & b17 & b18 & b19 & E & Hb).
  unfold base64_encode. rewrite E. cbn [base64_chars].
  split; [rewrite string_length_of_list; reflexivity|].
  split; [reflexivity|]. cbn. intros H. injection H as H.
  revert H. apply b64_char_not_pad.
  assert (0 <= b19 mod 16 < 16) by (apply Z.mod_pos_bound; lia). lia.
Qed.


